(** * tgautochatbot: command dispatch and scheduled broadcast engine

    A shallow embedding of the message handlers of the Telegram
    auto-messaging bot and of the helpers they call, followed by the
    properties of the specification that were checked against them.

    Two handlers are embedded:
    - [Bot]   : [src/bot.js] (interval parser, timers, [/autosend] wizard);
    - [Gated] : the first program of [src/unnamed/part_000], the variant
                with the allow-list and the [/has] listing.

    Beside them, [Clock] embeds the runtime's side of the timers of
    [src/bot.js], [Console] its terminal menu and [Startup] its
    start-up.

    Conventions of the embedding.
    - A JavaScript string is the list of its UTF-16 code units.
    - A JavaScript number is a binary64 value: decimals are read to the
      nearest number and every product is rounded, with underflow to
      zero and overflow to [Infinity].
    - Every collaborator call (entity resolution and delivery, replies,
      direct messages, account and dialog queries) is one numbered call
      whose outcome is read from an environment; the handler records what
      it attempted and how the attempt ended in a trace.
    - [console.log] lines are not modelled; the outcome that
      [sendMessageToGroup] logs for a target is the outcome kept in the
      trace.
    - One handler invocation, and one firing of a timer callback, runs to
      completion before the next one starts. *)

From Stdlib Require Import ZArith NArith QArith List String Ascii Bool Lia.
From Stdlib Require Import SpecFloat.
From stdpp Require Import base option list gmap.
Import ListNotations.

#[local] Open Scope N_scope.

(** ** JavaScript strings *)

Module JS.

Abbreviation codeunit := N.
Abbreviation jsstring := (list codeunit).

(** An ASCII literal as code units. *)
Definition u (s : string) : jsstring :=
  List.map N_of_ascii (list_ascii_of_string s).

(** [WhiteSpace] and [LineTerminator] of ECMAScript: what
    [String.prototype.trim] strips and what [\s] matches. *)
Definition isWhiteSpace (c : codeunit) : bool :=
  ((9 <=? c) && (c <=? 13)) || (c =? 32) || (c =? 160) || (c =? 5760)
  || ((8192 <=? c) && (c <=? 8202)) || (c =? 8232) || (c =? 8233)
  || (c =? 8239) || (c =? 8287) || (c =? 12288) || (c =? 65279).

(** [\d] *)
Definition isDigit (c : codeunit) : bool := (48 <=? c) && (c <=? 57).

Fixpoint trimStart (s : jsstring) : jsstring :=
  match s with
  | [] => []
  | c :: r => if isWhiteSpace c then trimStart r else s
  end.

Definition trimEnd (s : jsstring) : jsstring := rev (trimStart (rev s)).

(** [s.trim()] *)
Definition trim (s : jsstring) : jsstring := trimEnd (trimStart s).

(** [s.split(sep)] for a separator of one code unit. *)
Fixpoint split (sep : codeunit) (s : jsstring) : list jsstring :=
  match s with
  | [] => [[]]
  | c :: r =>
      if c =? sep then [] :: split sep r
      else match split sep r with
           | p :: ps => (c :: p) :: ps
           | [] => [[c]]
           end
  end.

(** [s.split(/\s+/)]; [inSep] tells that the previous unit was part of
    the separator being skipped. *)
Fixpoint splitWsFrom (inSep : bool) (s : jsstring) : list jsstring :=
  match s with
  | [] => [[]]
  | c :: r =>
      if isWhiteSpace c then
        (if inSep then splitWsFrom true r else [] :: splitWsFrom true r)
      else match splitWsFrom false r with
           | p :: ps => (c :: p) :: ps
           | [] => [[c]]
           end
  end.

Definition splitWs (s : jsstring) : list jsstring := splitWsFrom false s.

(** [parts.join(sep)] *)
Fixpoint join (sep : jsstring) (parts : list jsstring) : jsstring :=
  match parts with
  | [] => []
  | [p] => p
  | p :: ps => p ++ sep ++ join sep ps
  end.

(** Truthiness of a string: non-empty. *)
Definition truthy (s : jsstring) : bool :=
  match s with [] => false | _ :: _ => true end.

(** [l.filter(g => g)] on strings. *)
Definition filterTruthy (l : list jsstring) : list jsstring :=
  List.filter truthy l.

Definition eqs (a b : jsstring) : bool := bool_decide (a = b).

(** [s.startsWith("/")] *)
Definition startsWithSlash (s : jsstring) : bool :=
  match s with
  | c :: _ => c =? 47
  | [] => false
  end.

(** [s.toLowerCase()] on the letters A-Z.  The handlers only compare the
    result with ASCII command names and unit letters, none of which is
    the lower case of a non-ASCII code unit. *)
Definition lowerUnit (c : codeunit) : codeunit :=
  if (65 <=? c) && (c <=? 90) then c + 32 else c.

Definition toLowerCase (s : jsstring) : jsstring := List.map lowerUnit s.

(** [rest] when [s = pat ++ rest]. *)
Fixpoint stripPrefix (pat s : jsstring) : option jsstring :=
  match pat, s with
  | [], _ => Some s
  | _ :: _, [] => None
  | p :: pat', c :: s' => if p =? c then stripPrefix pat' s' else None
  end.

(** [s.replace(pat, "")] for a string pattern: the first occurrence of
    [pat] is removed, a string without occurrence is unchanged. *)
Fixpoint removeFirst (pat s : jsstring) : jsstring :=
  match stripPrefix pat s with
  | Some rest => rest
  | None => match s with
            | [] => []
            | c :: r => c :: removeFirst pat r
            end
  end.

Fixpoint dropSlashes (s : jsstring) : jsstring :=
  match s with
  | c :: r => if c =? 47 then dropSlashes r else s
  | [] => []
  end.

(** [s.replace(/^\/*\s*NAME\s+/, "")] *)
Definition removeCommandPrefix (name s : jsstring) : jsstring :=
  match stripPrefix name (trimStart (dropSlashes s)) with
  | Some (c :: r) => if isWhiteSpace c then trimStart r else s
  | _ => s
  end.

(** Decimal rendering of a natural number ([String(n)]). *)
Fixpoint uintUnits (d : Decimal.uint) : jsstring :=
  match d with
  | Decimal.Nil => []
  | Decimal.D0 r => 48 :: uintUnits r
  | Decimal.D1 r => 49 :: uintUnits r
  | Decimal.D2 r => 50 :: uintUnits r
  | Decimal.D3 r => 51 :: uintUnits r
  | Decimal.D4 r => 52 :: uintUnits r
  | Decimal.D5 r => 53 :: uintUnits r
  | Decimal.D6 r => 54 :: uintUnits r
  | Decimal.D7 r => 55 :: uintUnits r
  | Decimal.D8 r => 56 :: uintUnits r
  | Decimal.D9 r => 57 :: uintUnits r
  end.

Definition natToString (n : nat) : jsstring := uintUnits (Nat.to_uint n).

Definition intToString (z : Z) : jsstring :=
  match z with
  | Zneg p => 45 :: uintUnits (Pos.to_uint p)
  | _ => uintUnits (N.to_uint (Z.to_N z))
  end.

End JS.
Export JS.

(** ** JavaScript numbers

    A number is a binary64 value.  The type, the multiplication and the
    comparisons are the ones of the Standard Library's specification of
    IEEE 754 arithmetic ([SpecFloat]), with 53 bits of precision and
    rounding to nearest, ties to even. *)

Module Num.

Abbreviation number := spec_float.

Definition prec : Z := 53.
Definition emax : Z := 1024.

Definition zero : number := S754_zero false.

(** The number nearest to [n / d]: the exact quotient is rounded
    once. *)
Definition nearest (n : Z) (d : positive) : number :=
  match n with
  | Z0 => zero
  | Zpos p => SFdiv prec emax (S754_finite false p 0) (S754_finite false d 0)
  | Zneg p => SFdiv prec emax (S754_finite true p 0) (S754_finite false d 0)
  end.

(** A whole number, as a numeric literal denotes it. *)
Definition ofZ (n : Z) : number := nearest n 1.

(** The number nearest to [s * 10 ^ p]: what a decimal literal
    denotes. *)
Definition ofDecimal (s p : Z) : number :=
  match p with
  | Zneg k => nearest s (10 ^ k)
  | _ => nearest (s * 10 ^ p)%Z 1
  end.

(** [x * y] *)
Definition mul (x y : number) : number := SFmul prec emax x y.

(** [x < y], [x <= y] and [x === y] *)
Definition ltb (x y : number) : bool := SFltb x y.
Definition leb (x y : number) : bool := SFleb x y.
Definition eqb (x y : number) : bool := SFeqb x y.

Definition lt (x y : number) : Prop := ltb x y = true.

(** [!x] *)
Definition falsy (x : number) : bool :=
  match x with
  | S754_zero _ | S754_nan => true
  | _ => false
  end.

(** The value of a finite number. *)
Definition toQ (x : number) : Q :=
  match x with
  | S754_finite s m e =>
      let v := match e with
               | Zneg k => Zpos m # 2 ^ k
               | _ => inject_Z (Zpos m * 2 ^ e)
               end in
      if s then Qopp v else v
  | _ => 0%Q
  end.

(** [Math.trunc(x)] for a finite number. *)
Definition trunc (x : number) : Z :=
  match x with
  | S754_finite s m e =>
      let v := match e with
               | Zneg k => Z.shiftr (Zpos m) (Zpos k)
               | _ => Zpos m * 2 ^ e
               end in
      if s then Z.opp v else v
  | _ => 0
  end%Z.

(** A finite number whose exponent is not below the least one,
    [-1074]; the other numbers count as well. *)
Definition regular (x : number) : bool :=
  match x with
  | S754_finite _ _ e => (emin prec emax <=? e)%Z
  | _ => true
  end.

(** The form of a whole number below [2 ^ 53] as a number: its bits,
    shifted to the full width of the mantissa. *)
Definition whole (n : positive) : number :=
  S754_finite false
    (Pos.shiftl_nat n (Z.to_nat (prec - Zpos (Pos.size n))))
    (Zpos (Pos.size n) - prec).

(** *** [Number::toString] *)

(** [q * 10 ^ p] *)
Definition scale10 (q : Q) (p : Z) : Q :=
  match p with
  | Zneg k => Qnum q # (Qden q * 10 ^ k)
  | _ => (Qnum q * 10 ^ p)%Z # Qden q
  end.

Definition floorQ (q : Q) : Z := (Qnum q / Zpos (Qden q))%Z.

(** The least [t] from [t] on with [1 <= q * 10 ^ t]. *)
Fixpoint scaleUp (fuel : nat) (q : Q) (t : Z) : Z :=
  match fuel with
  | O => t
  | S fuel' =>
      if Qle_bool 1 (scale10 q t) then t else scaleUp fuel' q (t + 1)%Z
  end.

(** The [n] with [10 ^ (n - 1) <= q < 10 ^ n], for the value of a
    positive number: no value is below [10 ^ -324]. *)
Definition decimalExponent (q : Q) : Z :=
  if Qle_bool 1 q then Z.of_nat (List.length (intToString (floorQ q)))
  else (1 - scaleUp 400 q 1)%Z.

(** The decimals of [k] digits next to [q] that denote [x]: the digits
    [s] and the exponent [n] of [s * 10 ^ (n - k)]; of two that do, the
    closer to [q], and the even one when they are as close. *)
Definition digitsOf (x : number) (q : Q) (n0 k : Z) : option (Z * Z) :=
  let scaled := scale10 q (k - n0) in
  let sLow := floorQ scaled in
  let sHigh := (sLow + 1)%Z in
  let denotes s := eqb (ofDecimal s (n0 - k)) x in
  let pick s :=
    if (s =? 10 ^ k)%Z then (10 ^ (k - 1), n0 + 1)%Z else (s, n0) in
  match denotes sLow, denotes sHigh with
  | true, true =>
      match Qcompare (scaled - inject_Z sLow) (inject_Z sHigh - scaled) with
      | Lt => Some (pick sLow)
      | Gt => Some (pick sHigh)
      | Eq => Some (pick (if Z.even sLow then sLow else sHigh))
      end
  | true, false => Some (pick sLow)
  | false, true => Some (pick sHigh)
  | false, false => None
  end.

(** The shortest decimal that denotes [x]: its number of digits [k],
    its digits [s] and its exponent [n].  Seventeen digits always
    do. *)
Fixpoint shortest (fuel : nat) (x : number) (q : Q) (n0 k : Z)
    : Z * Z * Z :=
  match fuel with
  | O => (k, floorQ (scale10 q (k - n0)), n0)
  | S fuel' =>
      match digitsOf x q n0 k with
      | Some (s, n) => (k, s, n)
      | None => shortest fuel' x q n0 (k + 1)%Z
      end
  end.

Definition zeros (n : Z) : jsstring := repeat 48 (Z.to_nat n).

(** [Number::toString(x)] for a positive finite [x]: plain digits when
    [10 ^ -7 <= x < 10 ^ 21], exponent notation otherwise. *)
Definition positiveToString (x : number) : jsstring :=
  let q := toQ x in
  let '(k, s, n) := shortest 17 x q (decimalExponent q) 1 in
  let digits := intToString s in
  if ((k <=? n) && (n <=? 21))%Z then digits ++ zeros (n - k)
  else if ((0 <? n) && (n <=? 21))%Z then
    firstn (Z.to_nat n) digits ++ 46 :: skipn (Z.to_nat n) digits
  else if ((-6 <? n) && (n <=? 0))%Z then
    u "0." ++ zeros (- n) ++ digits
  else
    let e := (n - 1)%Z in
    (if (k =? 1)%Z then digits
     else firstn 1 digits ++ 46 :: skipn 1 digits)
    ++ 101 :: (if (e <? 0)%Z then 45 else 43) :: intToString (Z.abs e).

(** [String(x)] and [`${x}`] *)
Definition numberToString (x : number) : jsstring :=
  match x with
  | S754_nan => u "NaN"
  | S754_zero _ => u "0"
  | S754_infinity s => (if s then [45] else []) ++ u "Infinity"
  | S754_finite s m e =>
      (if s then [45] else []) ++ positiveToString (S754_finite false m e)
  end.

End Num.

(** ** Interval parser ([parseIntervalText], src/bot.js) *)

Module Interval.

(** Longest prefix whose units satisfy [p], and the rest. *)
Fixpoint span (p : codeunit -> bool) (s : jsstring) : jsstring * jsstring :=
  match s with
  | [] => ([], [])
  | c :: r =>
      if p c then let '(a, b) := span p r in (c :: a, b) else ([], s)
  end.

(** [[smhSMH]] *)
Definition isUnitLetter (c : codeunit) : bool :=
  existsb (N.eqb c) (u "smhSMH").

(** [trimmed.match(/^(\d*\.?\d+)\s*([smhSMH]?)$/)]: the two captured
    groups, or [None] when the text does not match.  Digits, the dot,
    white space and the unit letters are disjoint classes, so the greedy
    match is the only one. *)
Definition matchInterval (s : jsstring) : option (jsstring * jsstring) :=
  let '(ip, r1) := span isDigit s in
  let plain := if truthy ip then Some (ip, r1) else None in
  let number :=
    match r1 with
    | c :: r2 =>
        if (c =? 46)%N then
          let '(fp, r3) := span isDigit r2 in
          if truthy fp then Some (ip ++ c :: fp, r3) else plain
        else plain
    | [] => plain
    end in
  match number with
  | None => None
  | Some (num, rest) =>
      match trimStart rest with
      | [] => Some (num, [])
      | [c] => if isUnitLetter c then Some (num, [c]) else None
      | _ => None
      end
  end.

Definition digitVal (c : codeunit) : Z := Z.of_N c - 48.

(** One pass over an unsigned decimal literal without exponent: the
    digits read so far as an integer, and the number of digits read
    after the dot ([None] before the dot). *)
Fixpoint scanDecimal (acc : Z) (scale : option nat) (seen : bool)
    (s : jsstring) : Z * option nat * bool :=
  match s with
  | [] => (acc, scale, seen)
  | c :: r =>
      if isDigit c then
        scanDecimal (10 * acc + digitVal c)%Z
                    (match scale with Some k => Some (S k) | None => None end)
                    true r
      else if (c =? 46)%N then
        match scale with
        | None => scanDecimal acc (Some O) seen r
        | Some _ => (acc, scale, seen)
        end
      else (acc, scale, seen)
  end.

(** [parseFloat(s)] on unsigned decimal literals without exponent, the
    only texts the interval pattern lets through: the number nearest to
    the decimal, which is 0 for a decimal below half the least number
    and [Infinity] for one too large; [NaN] without digits. *)
Definition parseFloat (s : jsstring) : Num.number :=
  let '(acc, scale, seen) := scanDecimal 0 None false s in
  if seen then
    Num.ofDecimal acc (match scale with
                       | None => 0
                       | Some k => - Z.of_nat k
                       end)
  else S754_nan.

Record IntervalInfo : Type := mkInterval {
  value : Num.number;
  unitName : jsstring;   (** the field [unit] *)
  intervalMs : Num.number;
  label : jsstring
}.

(** [!value || value <= 0] *)
Definition notPositive (v : Num.number) : bool :=
  Num.falsy v || Num.leb v Num.zero.

(** [value * 1000], [value * 60 * 1000] and [value * 60 * 60 * 1000],
    each product rounded. *)
Definition msOf (value : Num.number) (unitName : jsstring) : Num.number :=
  if eqs unitName (u "s") then Num.mul value (Num.ofZ 1000)
  else if eqs unitName (u "m") then
    Num.mul (Num.mul value (Num.ofZ 60)) (Num.ofZ 1000)
  else
    Num.mul (Num.mul (Num.mul value (Num.ofZ 60)) (Num.ofZ 60))
            (Num.ofZ 1000).

(** [parseIntervalText(intervalText)]; the argument is [None] for
    [null] and [undefined], the result is [None] for [null]. *)
Definition parseIntervalText (intervalText : option jsstring)
    : option IntervalInfo :=
  let trimmed := trim (default [] intervalText) in
  match matchInterval trimmed with
  | None => None
  | Some (m1, m2) =>
      let value := parseFloat m1 in
      let unitName := toLowerCase (if truthy m2 then m2 else u "h") in
      if notPositive value then None
      else Some {| value := value;
                   unitName := unitName;
                   intervalMs := msOf value unitName;
                   label := Num.numberToString value ++ unitName |}
  end.

End Interval.
Export Interval.

(** ** Effects: collaborators, process state and traces *)

Module Effects.

(** What a handler attempted on a collaborator, and how it ended. *)
Inductive Event : Type :=
| Delivery (group message : jsstring) (ok : bool)
    (** [sendMessageToGroup]: entity resolution and delivery *)
| Sleep (ms : Z)
    (** [await sleep(ms)] *)
| Respond (message : jsstring) (ok : bool)
    (** [msg.respond({ message })] *)
| Direct (peer : Z) (message : jsstring) (ok : bool)
    (** [client.sendMessage(senderId, { message })] *)
| GetMe (ok : bool)
| GetDialogs (ok : bool).

Record Account : Type := mkAccount {
  firstName : jsstring;
  lastName : jsstring;      (** empty when absent *)
  accountId : Z
}.

Record Entity : Type := mkEntity {
  className : jsstring;
  title : jsstring;         (** empty when absent *)
  username : jsstring;      (** empty when absent *)
  entityId : Z
}.

(** The collaborators: the [n]-th call made by the process fails with
    the given error message, or succeeds. *)
Record Env : Type := mkEnv {
  failure : nat -> option jsstring;
  me : Account;
  dialogs : list Entity
}.

(** A timer made by [setInterval]: its handle, the delay that was
    passed and what its callback closes over. *)
Record Timer : Type := mkTimer {
  timerId : nat;
  delay : Num.number;
  timerGroups : list jsstring;
  timerMessage : jsstring
}.

Inductive Step : Type := StepGroups | StepInterval | StepMessage.

(** The object kept per sender by the [/autosend] wizard. *)
Record Wizard : Type := mkWizard {
  step : Step;
  groups : option (list jsstring);
  intervalText : option jsstring;
  intervalInfo : option IntervalInfo;
  done : bool
}.

Record Sys : Type := mkSys {
  activeTimers : list nat;          (** the array of timer handles *)
  liveTimers : list Timer;          (** the intervals the runtime will fire *)
  nextTimer : nat;                  (** next fresh handle *)
  autosendStates : gmap Z Wizard;   (** wizard table, keyed by sender *)
  calls : nat                       (** collaborator calls made so far *)
}.

Definition initial : Sys :=
  {| activeTimers := []; liveTimers := []; nextTimer := O;
     autosendStates := ∅; calls := O |}.

Inductive Res (A : Type) : Type :=
| Returned (a : A)
| Thrown (message : jsstring).
Arguments Returned {A} a.
Arguments Thrown {A} message.

(** Computations of the process: they read the collaborators, update
    the state, extend the trace, and return or throw. *)
Definition M (A : Type) : Type := Env -> Sys -> Res A * Sys * list Event.

#[export] Instance M_ret : MRet M := fun A a _ s => (Returned a, s, []).

#[export] Instance M_bind : MBind M := fun A B f m env s =>
  match m env s with
  | (Returned a, s1, t1) =>
      let '(r, s2, t2) := f a env s1 in (r, s2, t1 ++ t2)
  | (Thrown e, s1, t1) => (Thrown e, s1, t1)
  end.

Definition throw {A} (e : jsstring) : M A := fun _ s => (Thrown e, s, []).

(** [try { m } catch (e) { h e }] *)
Definition tryCatch {A} (m : M A) (h : jsstring -> M A) : M A :=
  fun env s =>
    match m env s with
    | (Returned a, s1, t1) => (Returned a, s1, t1)
    | (Thrown e, s1, t1) =>
        let '(r, s2, t2) := h e env s1 in (r, s2, t1 ++ t2)
    end.

Definition emit (e : Event) : M unit := fun _ s => (Returned tt, s, [e]).

Definition get : M Sys := fun _ s => (Returned s, s, []).

Definition modify (f : Sys -> Sys) : M unit :=
  fun _ s => (Returned tt, f s, []).

Definition ask : M Env := fun env s => (Returned env, s, []).

(** The state after one more collaborator call. *)
Definition bump (s : Sys) : Sys :=
  {| activeTimers := activeTimers s; liveTimers := liveTimers s;
     nextTimer := nextTimer s; autosendStates := autosendStates s;
     calls := S (calls s) |}.

(** The next collaborator call: its error, if it fails. *)
Definition call : M (option jsstring) := fun env s =>
  (Returned (failure env (calls s)), bump s, []).

Definition isNone {A} (o : option A) : bool :=
  match o with None => true | Some _ => false end.

(** [config.messageDelay] *)
Definition messageDelay : Z := 5000.

Definition sleep (ms : Z) : M unit := emit (Sleep ms).

(** [sendMessageToGroup]: resolves the entity and sends; a failure of
    either is caught and reported as [false]. *)
Definition sendMessageToGroup (groupName message : jsstring) : M bool :=
  r ← call;
  emit (Delivery groupName message (isNone r));;
  mret (isNone r).

Definition respond (message : jsstring) : M unit :=
  r ← call;
  emit (Respond message (isNone r));;
  match r with None => mret tt | Some e => throw e end.

Definition sendDirect (peer : Z) (message : jsstring) : M unit :=
  r ← call;
  emit (Direct peer message (isNone r));;
  match r with None => mret tt | Some e => throw e end.

Definition getMe : M Account :=
  r ← call;
  emit (GetMe (isNone r));;
  match r with
  | None => env ← ask; mret (me env)
  | Some e => throw e
  end.

Definition getDialogs : M (list Entity) :=
  r ← call;
  emit (GetDialogs (isNone r));;
  match r with
  | None => env ← ask; mret (dialogs env)
  | Some e => throw e
  end.

(** The state after [setInterval(callback, ms)]: one more interval,
    under a fresh handle. *)
Definition registered (grps : list jsstring) (message : jsstring)
    (ms : Num.number) (s : Sys) : Sys :=
  {| activeTimers := activeTimers s;
     liveTimers := liveTimers s ++
       [{| timerId := nextTimer s; delay := ms;
           timerGroups := grps; timerMessage := message |}];
     nextTimer := S (nextTimer s);
     autosendStates := autosendStates s;
     calls := calls s |}.

(** [setInterval(callback, ms)]: returns the handle; nothing runs
    now.  The timer keeps the delay as it was passed; [Clock.period]
    is what the runtime makes of it. *)
Definition setInterval (grps : list jsstring) (message : jsstring)
    (ms : Num.number) : M nat := fun _ s =>
  (Returned (nextTimer s), registered grps message ms s, []).

(** [clearInterval(handle)] *)
Definition clearInterval (id : nat) (s : Sys) : Sys :=
  {| activeTimers := activeTimers s;
     liveTimers := List.filter (fun t => negb (Nat.eqb (timerId t) id))
                               (liveTimers s);
     nextTimer := nextTimer s;
     autosendStates := autosendStates s;
     calls := calls s |}.

Definition pushed (id : nat) (s : Sys) : Sys :=
  {| activeTimers := activeTimers s ++ [id];
     liveTimers := liveTimers s;
     nextTimer := nextTimer s;
     autosendStates := autosendStates s;
     calls := calls s |}.

(** [activeTimers.push(timer)] *)
Definition pushTimer (id : nat) : M unit := modify (pushed id).

Definition stopped (s : Sys) : Sys :=
  let s' := fold_left (fun acc id => clearInterval id acc) (activeTimers s) s in
  {| activeTimers := [];
     liveTimers := liveTimers s';
     nextTimer := nextTimer s';
     autosendStates := autosendStates s';
     calls := calls s' |}.

(** [activeTimers.forEach(clearInterval); activeTimers.length = 0] *)
Definition stopTimers : M unit := modify stopped.

Definition withTable (f : gmap Z Wizard -> gmap Z Wizard) (s : Sys) : Sys :=
  {| activeTimers := activeTimers s;
     liveTimers := liveTimers s;
     nextTimer := nextTimer s;
     autosendStates := f (autosendStates s);
     calls := calls s |}.

(** Updates of the wizard table. *)
Definition setTable (f : gmap Z Wizard -> gmap Z Wizard) : M unit :=
  modify (withTable f).

(** The loop of [/sendmulti] and of the timer callbacks of the gated
    variant: [for (i...) { group = groups[i].trim(); if (!group)
    continue; send; if (i < groups.length - 1) sleep }]. *)
Fixpoint sendLoop (message : jsstring) (grps : list jsstring) : M unit :=
  match grps with
  | [] => mret tt
  | g :: rest =>
      let group := trim g in
      if truthy group then
        sendMessageToGroup group message;;
        (match rest with [] => mret tt | _ :: _ => sleep messageDelay end);;
        sendLoop message rest
      else sendLoop message rest
  end.

(** The loop of [createAutoSendTimer]'s callback: no trimming, no
    [continue]. *)
Fixpoint tickLoop (message : jsstring) (grps : list jsstring) : M unit :=
  match grps with
  | [] => mret tt
  | group :: rest =>
      sendMessageToGroup group message;;
      (match rest with [] => mret tt | _ :: _ => sleep messageDelay end);;
      tickLoop message rest
  end.

(** An inbound message event. *)
Record Message : Type := mkMessage {
  out : bool;        (** [event.message.out] *)
  text : jsstring;   (** [msg.text || msg.message || ""] *)
  sender : Z         (** [msg.senderId || msg.fromId] *)
}.

(** Running a computation: final state and trace. *)
Definition run {A} (m : M A) (env : Env) (s : Sys) : Sys * list Event :=
  let '(_, s', t) := m env s in (s', t).

Definition isDelivery (e : Event) : bool :=
  match e with Delivery _ _ _ => true | _ => false end.

Definition isSleep (e : Event) : bool :=
  match e with Sleep _ => true | _ => false end.

(** The texts sent back to a sender, by either path. *)
Definition replyText (e : Event) : option jsstring :=
  match e with
  | Respond m _ => Some m
  | Direct _ m _ => Some m
  | _ => None
  end.

End Effects.
Export Effects.

(** ** Reply texts

    The literals of the sources, as code units; characters outside
    ASCII are written by their UTF-16 code units. *)

Module Texts.

Definition sentToText (group : jsstring) : jsstring :=
  [10003] ++ u " Message sent to " ++ group.

Definition sendmultiFormatText : jsstring :=
  [10060] ++ u " Format: /sendmulti group1 group2|message".

Definition sentMultiText (n : nat) : jsstring :=
  [10003] ++ u " Sent to " ++ natToString n ++ u " groups!".

Definition autosendFormatText : jsstring :=
  [10060] ++ u " Format: /autosend group1 group2|interval|message (inter" ++
  u "val like 30s, 5m, 4h)".

Definition startedText (n : nat) (every : jsstring) : jsstring :=
  [10003] ++ u " Auto-send started to " ++ natToString n ++
  u " groups every " ++ every ++ u ".".

Definition stoppedText : jsstring :=
  [10003] ++ u " All auto-send timers stopped.".

(** *** src/bot.js *)

Definition noGroupsText : jsstring :=
  [10060] ++ u " Please send at least one group username or ID (separate" ++
  u "d by spaces).".

Definition groupsSetText (grps : list jsstring) : jsstring :=
  [9989] ++ u " Groups set: " ++ join (u ", ") grps ++ [10; 10] ++
  u "Step 2: Send interval (e.g. 30s, 5m, 4h).".

Definition invalidIntervalText : jsstring :=
  [10060] ++ u " Invalid interval. Use formats like 30s, 5m, 4h (number " ++
  u "+ unit).".

Definition intervalSetText (every : jsstring) : jsstring :=
  [9989] ++ u " Interval set to every " ++ every ++ u "." ++ [10; 10] ++
  u "Step 3: Send the message text to auto-send.".

Definition emptyMessageText : jsstring :=
  [10060] ++ u " Message cannot be empty. Please send the message text.".

Definition wizardBrokenText : jsstring :=
  [10060] ++ u " Something went wrong with the wizard. Please send /auto" ++
  u "send to start again.".

Definition wizardStep1Text : jsstring :=
  u "Step 1: Send the list of group usernames/IDs separated b" ++
  u "y spaces." ++ [10; 10] ++ u "Example:" ++ [10] ++
  u "@group1 @group2 -1001234567890".

Definition autosendInvalidText : jsstring :=
  [10060] ++ u " Invalid format. Use: /autosend group1 group2|interval|m" ++
  u "essage (interval like 30s, 5m, 4h)".

Definition helpText : jsstring :=
  [55358; 56598] ++ u " **Bot Commands:**" ++ [10; 10] ++
  u "/send @group message" ++ [10] ++ u "Send message to one group" ++
  [10; 10] ++ u "/sendmulti group1 group2 group3|Your message" ++ [10] ++
  u "Send to multiple groups" ++ [10; 10] ++
  u "/autosend group1 group2|interval|Your message" ++ [10] ++
  u "Auto-send to multiple groups every X (supports s, m, h; " ++
  u "e.g. 30s, 5m, 4h)" ++ [10; 10] ++ u "/help" ++ [10] ++
  u "Show this help" ++ [10; 10] ++ u "/stats" ++ [10] ++
  u "Show your account info" ++ [10; 10] ++ u "/stoptimers" ++ [10] ++
  u "Stop all auto-send timers".

Definition statsText (a : Account) : jsstring :=
  [55357; 56522] ++ u " **Account Info:**" ++ [10] ++ u "Name: " ++
  firstName a ++ u " " ++ lastName a ++ [10] ++ u "ID: " ++
  intToString (accountId a) ++ [10] ++ u "Status: Online " ++ [10003].

Definition unknownText : jsstring :=
  [10067] ++ u " Unknown command. Type /help".

(** *** src/unnamed/part_000, first program *)

Definition promoText : jsstring :=
  [55357; 56395] ++ u " **Hello! Want to plug a service?**" ++ [10; 10] ++
  u "It is available right now!" ++ [10; 10; 55357; 56393] ++
  u " Click here to send me a direct message: https://t.me/li" ++ u "thuazs".

Definition gatedInvalidIntervalText : jsstring :=
  [10060] ++ u " Invalid interval. Use number + unit: 30s, 5m, 4h".

Definition gatedInvalidFormatText : jsstring :=
  [10060] ++ u " Invalid format. Make sure you provided groups and a mes" ++
  u "sage.".

Definition gatedHelpText : jsstring :=
  [55358; 56598] ++ u " **Bot Commands Menu:**" ++ [10; 10] ++
  u "Click a command below to copy it to your chat bar:" ++
  [10; 10; 55357; 56548] ++ u " `/send` - Send to one group" ++
  [10; 55357; 56548] ++ u " `/sendmulti` - Send to multiple groups" ++
  [10; 9200] ++ u " `/autosend` - Start interval sending" ++
  [10; 55357; 56523] ++ u " `/has` - List all your groups" ++
  [10; 55357; 56522] ++ u " `/stats` - View account status" ++ [10; 9940] ++
  u " `/stoptimers` - Stop all auto-sends" ++ [10; 10; 8505; 65039] ++
  u " Use `|` to separate parts for multi/autosend." ++ [10; 9993; 65039] ++
  u " [Contact Admin](https://t.me/lithuazs)".

Definition gatedStatsText (a : Account) (timers : nat) : jsstring :=
  [55357; 56522] ++ u " **Account Info:**" ++ [10] ++ u "Name: " ++
  firstName a ++ u " " ++ lastName a ++ [10] ++ u "ID: `" ++
  intToString (accountId a) ++ u "`" ++ [10] ++ u "Active Timers: " ++
  natToString timers ++ [10] ++ u "Status: Online " ++ [10003].

Definition fetchingText : jsstring :=
  [9203] ++ u " Fetching groups...".

Definition noneFoundText : jsstring :=
  [55357; 56557] ++ u " No groups or channels found.".

Definition listHeader (n : nat) : jsstring :=
  [55357; 56523] ++ u " **Your Groups & Channels** (" ++ natToString n ++
  u "):" ++ [10; 10].

Definition errorText (e : jsstring) : jsstring :=
  [10060] ++ u " Error: " ++ e.

Definition gatedUnknownText : jsstring :=
  [10067] ++ u " Unknown command. Type /help to see the menu.".

End Texts.
Export Texts.

(** ** The handler of src/bot.js *)

Module Bot.

(** Assignments to the fields of the wizard object of [senderKey]; the
    object is shared with the table, so they are updates of the table. *)
Definition updateWizard (senderKey : Z) (f : Wizard -> Wizard) : M unit :=
  setTable (alter f senderKey).

Definition setGroups (grps : list jsstring) (w : Wizard) : Wizard :=
  {| step := StepInterval; groups := Some grps;
     intervalText := intervalText w; intervalInfo := intervalInfo w;
     done := done w |}.

Definition setIntervalFields (txt : jsstring) (info : IntervalInfo)
    (w : Wizard) : Wizard :=
  {| step := StepMessage; groups := groups w;
     intervalText := Some txt; intervalInfo := Some info;
     done := done w |}.

Definition setDone (w : Wizard) : Wizard :=
  {| step := step w; groups := groups w;
     intervalText := intervalText w; intervalInfo := intervalInfo w;
     done := true |}.

(** [createAutoSendTimer(groups, intervalInfo, message)] *)
Definition createAutoSendTimer (grps : list jsstring) (info : IntervalInfo)
    (message : jsstring) : M nat :=
  let safeGroups := filterTruthy (List.map trim grps) in
  timer ← setInterval safeGroups message (intervalMs info);
  pushTimer timer;;
  mret timer.

(** One firing of the callback of timer [id]; a cleared timer does not
    fire. *)
Definition fireTimer (id : nat) : M unit :=
  s ← get;
  match List.find (fun t => Nat.eqb (timerId t) id) (liveTimers s) with
  | Some t => tickLoop (timerMessage t) (timerGroups t)
  | None => mret tt
  end.

(** [state.intervalText || "1h"] *)
Definition intervalTextOr1h (w : Wizard) : jsstring :=
  match intervalText w with
  | Some (c :: r) => c :: r
  | _ => u "1h"
  end.

(** [processAutosendWizardInput(senderKey, state, text, msg)] *)
Definition processAutosendWizardInput (senderKey : Z) (state : Wizard)
    (text : jsstring) : M unit :=
  let trimmedText := trim text in
  match step state with
  | StepGroups =>
      let grps := filterTruthy (List.map trim (split 32 trimmedText)) in
      match grps with
      | [] => respond noGroupsText
      | _ :: _ =>
          updateWizard senderKey (setGroups grps);;
          respond (groupsSetText grps)
      end
  | StepInterval =>
      match parseIntervalText (Some trimmedText) with
      | None => respond invalidIntervalText
      | Some info =>
          updateWizard senderKey (setIntervalFields trimmedText info);;
          respond (intervalSetText (label info))
      end
  | StepMessage =>
      if negb (truthy trimmedText) then respond emptyMessageText
      else
        let grps := default [] (groups state) in
        let info :=
          match intervalInfo state with
          | Some i => Some i
          | None => parseIntervalText (Some (intervalTextOr1h state))
          end in
        match grps, info with
        | _ :: _, Some i =>
            createAutoSendTimer grps i trimmedText;;
            respond (startedText (List.length grps) (label i));;
            updateWizard senderKey setDone
        | _, _ =>
            respond wizardBrokenText;;
            updateWizard senderKey setDone
        end
  end.

Definition ignore {A} (_ : A) : M unit := mret tt.

Definition freshWizard : Wizard :=
  {| step := StepGroups; groups := None; intervalText := None;
     intervalInfo := None; done := false |}.

(** The command branches of the handler, for a text that starts with a
    slash. *)
Definition dispatch (m : Message) : M unit :=
  let parts := split 32 (text m) in
  let command := toLowerCase (hd [] parts) in
  if eqs command (u "/send") && (3 <=? List.length parts)%nat then
    let group := nth 1 parts [] in
    let customMsg := join (u " ") (skipn 2 parts) in
    sendMessageToGroup group customMsg;;
    tryCatch (respond (sentToText group)) ignore
  else if eqs command (u "/sendmulti") then
    let pieces := split 124 (text m) in
    let cmdPart := hd [] pieces in
    match nth_error pieces 1 with
    | Some (c :: r) =>
        let contentPart := c :: r in
        let grps := filterTruthy
                      (split 32 (trim (removeFirst (u "/sendmulti") cmdPart))) in
        let message := trim contentPart in
        sendLoop message grps;;
        tryCatch (sendDirect (sender m) (sentMultiText (List.length grps)))
                 ignore
    | _ => tryCatch (respond sendmultiFormatText) ignore
    end
  else if eqs command (u "/autosend") then
    let partsPipe := split 124 (text m) in
    if (List.length partsPipe =? 1)%nat then
      setTable (insert (sender m) freshWizard);;
      respond wizardStep1Text
    else if (List.length partsPipe <? 3)%nat then
      tryCatch (respond autosendFormatText) ignore
    else
      let cmdPart := hd [] partsPipe in
      let intervalPart := nth 1 partsPipe [] in
      let messagePart := join (u "|") (skipn 2 partsPipe) in
      let grps := filterTruthy
                    (split 32 (trim (removeFirst (u "/autosend") cmdPart))) in
      match parseIntervalText (Some (trim intervalPart)), grps,
            trim messagePart with
      | Some info, _ :: _, c :: r =>
          createAutoSendTimer grps info (c :: r);;
          tryCatch (respond (startedText (List.length grps) (label info)))
                   ignore
      | _, _, _ => tryCatch (respond autosendInvalidText) ignore
      end
  else if eqs command (u "/help") then
    tryCatch (respond helpText) ignore
  else if eqs command (u "/stats") then
    tryCatch (a ← getMe; respond (statsText a)) ignore
  else if eqs command (u "/stoptimers") then
    tryCatch (stopTimers;; respond stoppedText) ignore
  else
    tryCatch (respond unknownText) ignore.

(** [existingAutosendState.done], read after the wizard step. *)
Definition wizardDone (senderKey : Z) (s : Sys) : bool :=
  match autosendStates s !! senderKey with
  | Some w => done w
  | None => false
  end.

(** The event handler registered by [setupMessageHandler]. *)
Definition handler (m : Message) : M unit :=
  tryCatch
    (if out m then mret tt
     else
       let senderKey := sender m in
       s ← get;
       match autosendStates s !! senderKey with
       | Some existingAutosendState =>
           if negb (startsWithSlash (text m)) then
             processAutosendWizardInput senderKey existingAutosendState
                                        (text m);;
             s' ← get;
             if wizardDone senderKey s'
             then setTable (delete senderKey)
             else mret tt
           else dispatch m
       | None =>
           if negb (startsWithSlash (text m)) then mret tt
           else dispatch m
       end)
    ignore.

(** What the process reacts to: an inbound message or the firing of a
    timer. *)
Inductive Input : Type :=
| Inbound (m : Message)
| Tick (id : nat).

Definition react (i : Input) : M unit :=
  match i with
  | Inbound m => handler m
  | Tick id => fireTimer id
  end.

(** A sequence of inputs, from a state; the trace of the whole run. *)
Fixpoint reactAll (env : Env) (s : Sys) (inputs : list Input)
    : Sys * list Event :=
  match inputs with
  | [] => (s, [])
  | i :: rest =>
      let '(s1, t1) := run (react i) env s in
      let '(s2, t2) := reactAll env s1 rest in
      (s2, t1 ++ t2)
  end.

End Bot.

(** ** Timers in time (the runtime's side of [setInterval])

    The clock of the event loop, in whole milliseconds, and the time at
    which each live interval is next due.  A handler invocation and a
    firing are stamped with the time at which they start. *)

Module Clock.

(** [TIMEOUT_MAX], the largest delay of a timer: [2 ^ 31 - 1]. *)
Definition timeoutMax : Z := 2147483647.

(** The milliseconds between the firings of an interval made with the
    delay [after]: a delay that is not between 1 and [timeoutMax] is
    set to 1, and a delay with a fraction is truncated. *)
Definition period (after : Num.number) : Z :=
  if Num.leb (Num.ofZ 1) after && Num.leb after (Num.ofZ timeoutMax)
  then Num.trunc after
  else 1.

Record World : Type := mkWorld {
  sys : Sys;
  now : Z;               (** the clock *)
  due : list (nat * Z)   (** per live interval: handle, next firing time *)
}.

Definition start : World := {| sys := initial; now := 0; due := [] |}.

Definition dueOf (id : nat) (d : list (nat * Z)) : option Z :=
  match List.find (fun p => Nat.eqb (fst p) id) d with
  | Some p => Some (snd p)
  | None => None
  end.

Definition findTimer (id : nat) (timers : list Timer) : option Timer :=
  List.find (fun t => Nat.eqb (timerId t) id) timers.

(** The intervals after a handler ran at time [t]: one that was there
    keeps its time, a new one is due one period later, a cleared one is
    gone. *)
Definition scheduled (t : Z) (d : list (nat * Z)) (timers : list Timer)
    : list (nat * Z) :=
  List.map (fun tm =>
              (timerId tm,
               match dueOf (timerId tm) d with
               | Some t' => t'
               | None => (t + period (delay tm))%Z
               end))
           timers.

(** After a firing, the interval is due one period later. *)
Definition rearmed (id : nat) (t : Z) (d : list (nat * Z))
    : list (nat * Z) :=
  List.map (fun p => if Nat.eqb (fst p) id then (id, t) else p) d.

(** What happens to the process: a message arrives, time passes, the
    runtime fires an interval. *)
Inductive Happening : Type :=
| Arrives (m : Message)
| Passes (ms : Z)
| Fires (id : nat).

(** One happening, when it can happen: time does not run backwards,
    and the runtime fires an interval only when it is live and due. *)
Definition happen (env : Env) (w : World) (h : Happening)
    : option (World * list Event) :=
  match h with
  | Arrives m =>
      let '(s', t) := run (Bot.handler m) env (sys w) in
      Some ({| sys := s'; now := now w;
               due := scheduled (now w) (due w) (liveTimers s') |}, t)
  | Passes ms =>
      if (ms <? 0)%Z then None
      else Some ({| sys := sys w; now := (now w + ms)%Z; due := due w |}, [])
  | Fires id =>
      match findTimer id (liveTimers (sys w)), dueOf id (due w) with
      | Some tm, Some t0 =>
          if (t0 <=? now w)%Z then
            let '(s', t) := run (Bot.fireTimer id) env (sys w) in
            Some ({| sys := s'; now := now w;
                     due := rearmed id (now w + period (delay tm))%Z
                                    (due w) |}, t)
          else None
      | _, _ => None
      end
  end.

(** A run, when it can happen: the world it ends in, and the log of
    what happened, when, with the trace it left. *)
Fixpoint play (env : Env) (w : World) (hs : list Happening)
    : option (World * list (Z * Happening * list Event)) :=
  match hs with
  | [] => Some (w, [])
  | h :: rest =>
      match happen env w h with
      | None => None
      | Some (w1, t) =>
          match play env w1 rest with
          | None => None
          | Some (w2, log) => Some (w2, (now w, h, t) :: log)
          end
      end
  end.

End Clock.

(** ** The handler of src/unnamed/part_000 (first program): allow-list
       and [/has] listing *)

Module Gated.

(** [allowedUserIds] *)
Definition allowedUserIds : list Z := [7968867231; 1016048363]%Z.

(** [allowedUserIds.includes(userIdNum)] *)
Definition includes (l : list Z) (x : Z) : bool := existsb (Z.eqb x) l.

Definition ignore {A} (_ : A) : M unit := mret tt.

(** [try { respond } catch { try { client.sendMessage } catch {} }] *)
Definition reply (peer : Z) (message : jsstring) : M unit :=
  tryCatch (respond message)
           (fun _ => tryCatch (sendDirect peer message) ignore).

(** [try { respond } catch { client.sendMessage }]: the second failure
    is left to the enclosing [try]. *)
Definition replyOrThrow (peer : Z) (message : jsstring) : M unit :=
  tryCatch (respond message) (fun _ => sendDirect peer message).

(** [s.replace(/^\//, "")] *)
Definition dropOneSlash (s : jsstring) : jsstring :=
  match s with
  | c :: r => if c =? 47 then r else s
  | [] => []
  end.

(** One firing of the callback of timer [id]. *)
Definition fireTimer (id : nat) : M unit :=
  s ← get;
  match List.find (fun t => Nat.eqb (timerId t) id) (liveTimers s) with
  | Some t => sendLoop (timerMessage t) (timerGroups t)
  | None => mret tt
  end.

(** The entries of the listing: [{ title, username }]. *)
Definition isGroupEntity (e : Entity) : bool :=
  eqs (className e) (u "Chat") || eqs (className e) (u "Channel").

Definition entryTitle (e : Entity) : jsstring :=
  if truthy (title e) then title e
  else if truthy (username e) then username e
  else u "Unknown (" ++ intToString (entityId e) ++ u ")".

Definition entryUsername (e : Entity) : jsstring :=
  if truthy (username e) then 64 :: username e
  else u "ID: " ++ intToString (entityId e).

Definition collectGroups (ds : list Entity) : list (jsstring * jsstring) :=
  List.map (fun e => (entryTitle e, entryUsername e))
           (List.filter isGroupEntity ds).

(** The line of the entry of index [idx]. *)
Definition formatLine (idx : nat) (g : jsstring * jsstring) : jsstring :=
  natToString (idx + 1) ++ u ". " ++ fst g ++ [10] ++ u "   " ++ snd g ++ [10].

Fixpoint formatLines (idx : nat) (gs : list (jsstring * jsstring))
    : list jsstring :=
  match gs with
  | [] => []
  | g :: rest => formatLine idx g :: formatLines (S idx) rest
  end.

(** The [forEach] that packs lines into chunks, and the final push. *)
Fixpoint chunkLines (chunks : list jsstring) (currentChunk : jsstring)
    (lines : list jsstring) : list jsstring :=
  match lines with
  | [] => if truthy currentChunk then chunks ++ [currentChunk] else chunks
  | line :: rest =>
      if (4000 <? List.length (currentChunk ++ line))%nat
      then chunkLines (chunks ++ [currentChunk]) line rest
      else chunkLines chunks (currentChunk ++ line) rest
  end.

(** The responses of a listing: the whole list when it fits, its chunks
    otherwise. *)
Definition listingResponses (header : jsstring) (lines : list jsstring)
    : list jsstring :=
  let groupsList := header ++ List.concat lines in
  if (4096 <? List.length groupsList)%nat
  then chunkLines [] header lines
  else [groupsList].

Fixpoint replyAll (peer : Z) (chunks : list jsstring) : M unit :=
  match chunks with
  | [] => mret tt
  | chunk :: rest => reply peer chunk;; replyAll peer rest
  end.

(** The command branches, for an allowed sender. *)
Definition dispatch (m : Message) (parts : list jsstring)
    (command : jsstring) : M unit :=
  let senderId := sender m in
  if eqs command (u "send") && (3 <=? List.length parts)%nat then
    let group := nth 1 parts [] in
    let customMsg := join (u " ") (skipn 2 parts) in
    sendMessageToGroup group customMsg;;
    reply senderId (sentToText group)
  else if eqs command (u "sendmulti") then
    let pieces := split 124 (text m) in
    let cmdPart := hd [] pieces in
    match nth_error pieces 1 with
    | Some (c :: r) =>
        let contentPart := c :: r in
        let grps := filterTruthy
          (splitWs (trim (removeCommandPrefix (u "sendmulti") cmdPart))) in
        let message := trim contentPart in
        sendLoop message grps;;
        reply senderId (sentMultiText (List.length grps))
    | _ => reply senderId sendmultiFormatText
    end
  else if eqs command (u "autosend") then
    let partsPipe := split 124 (text m) in
    if (List.length partsPipe <? 3)%nat then
      reply senderId autosendFormatText
    else
      let cmdPart := hd [] partsPipe in
      let intervalPart := nth 1 partsPipe [] in
      let messagePart := join (u "|") (skipn 2 partsPipe) in
      let grps := filterTruthy
        (splitWs (trim (removeCommandPrefix (u "autosend") cmdPart))) in
      let intervalText := trim intervalPart in
      match matchInterval intervalText with
      | None => reply senderId gatedInvalidIntervalText
      | Some (m1, m2) =>
          let value := parseFloat m1 in
          let unitName := toLowerCase (if truthy m2 then m2 else u "h") in
          let intervalMs := msOf value unitName in
          match grps, trim messagePart with
          | _ :: _, c :: r =>
              if notPositive value
              then reply senderId gatedInvalidFormatText
              else
                timer ← setInterval grps (c :: r) intervalMs;
                pushTimer timer;;
                reply senderId (startedText (List.length grps) intervalText)
          | _, _ => reply senderId gatedInvalidFormatText
          end
      end
  else if eqs command (u "help") then
    reply senderId gatedHelpText
  else if eqs command (u "stats") then
    tryCatch
      (a ← getMe;
       s ← get;
       replyOrThrow senderId
         (gatedStatsText a (List.length (activeTimers s))))
      ignore
  else if eqs command (u "stoptimers") then
    tryCatch (stopTimers;; replyOrThrow senderId stoppedText) ignore
  else if eqs command (u "has") then
    tryCatch
      (replyOrThrow senderId fetchingText;;
       ds ← getDialogs;
       let gs := collectGroups ds in
       match gs with
       | [] => reply senderId noneFoundText
       | _ :: _ =>
           replyAll senderId
             (listingResponses (listHeader (List.length gs))
                               (formatLines 0 gs))
       end)
      (fun e => reply senderId (errorText e))
  else
    reply senderId gatedUnknownText.

(** The event handler registered by [setupMessageHandler]. *)
Definition handler (m : Message) : M unit :=
  tryCatch
    (if out m then mret tt
     else if negb (startsWithSlash (text m)) then mret tt
     else
       let parts := split 32 (text m) in
       let command := dropOneSlash (toLowerCase (hd [] parts)) in
       if negb (truthy command) then mret tt
       else if negb (includes allowedUserIds (sender m)) then
         tryCatch (sendDirect (sender m) promoText) ignore
       else dispatch m parts command)
    ignore.

End Gated.

(** ** The process of the allow-list variant *)

Module GatedProcess.

(** What the process of src/unnamed/part_000 reacts to: an inbound
    message or the firing of a timer. *)
Definition react (i : Bot.Input) : M unit :=
  match i with
  | Bot.Inbound m => Gated.handler m
  | Bot.Tick id => Gated.fireTimer id
  end.

Fixpoint reactAll (env : Env) (s : Sys) (inputs : list Bot.Input)
    : Sys * list Event :=
  match inputs with
  | [] => (s, [])
  | i :: rest =>
      let '(s1, t1) := run (react i) env s in
      let '(s2, t2) := reactAll env s1 rest in
      (s2, t1 ++ t2)
  end.

End GatedProcess.

(** ** The terminal menu (src/bot.js: [autoMessageGroups],
       [sendSingleMessage] and the loop of [main])

    The lines the operator types answer the prompts of [question] in
    order.  A prompt that finds no line waits, and nothing happens
    after it.  The prompts themselves are console output. *)

Module Console.

(** The [while (true)] of [autoMessageGroups]: lines are read up to the
    first blank one; [None] when the lines run out before. *)
Fixpoint readGroups (groups answers : list jsstring)
    : option (list jsstring * list jsstring) :=
  match answers with
  | [] => None
  | input :: rest =>
      if negb (truthy (trim input)) then Some (groups, rest)
      else readGroups (groups ++ [trim input]) rest
  end.

(** [autoMessageGroups()]: the lines it leaves unread, or [None] when it
    waits at a prompt.  Its loop over the groups is the loop of the
    timer callback. *)
Definition autoMessageGroups (answers : list jsstring)
    : M (option (list jsstring)) :=
  match readGroups [] answers with
  | None => mret None
  | Some (groups, rest) =>
      if (List.length groups =? 0)%nat then mret (Some rest)
      else
        match rest with
        | [] => mret None
        | message :: rest' =>
            if negb (truthy (trim message)) then mret (Some rest')
            else tickLoop message groups;; mret (Some rest')
        end
  end.

(** [sendSingleMessage(groupName, message)] *)
Definition sendSingleMessage (groupName message : jsstring) : M unit :=
  sendMessageToGroup groupName message;; mret tt.

(** How the menu ends: option 3 leaves the loop, the client is
    disconnected and the process exits, with the later lines unread; or
    a prompt waits for a line. *)
Inductive Ending : Type :=
| Exited (unread : list jsstring)
| Waiting.

(** The [while (running)] of [main] in an interactive process, for
    [fuel] turns at most; [None] when the turns are used up. *)
Fixpoint menu (fuel : nat) (answers : list jsstring) : M (option Ending) :=
  match fuel with
  | O => mret None
  | S fuel' =>
      match answers with
      | [] => mret (Some Waiting)
      | choice :: rest =>
          let c := trim choice in
          if eqs c (u "1") then
            r ← autoMessageGroups rest;
            match r with
            | Some rest' => menu fuel' rest'
            | None => mret (Some Waiting)
            end
          else if eqs c (u "2") then
            match rest with
            | group :: message :: rest' =>
                (if truthy (trim group) && truthy (trim message)
                 then sendSingleMessage (trim group) (trim message)
                 else mret tt);;
                menu fuel' rest'
            | _ => mret (Some Waiting)
            end
          else if eqs c (u "3") then mret (Some (Exited rest))
          else menu fuel' rest
      end
  end.

(** Every turn reads a line, so one turn per line and one more are
    enough. *)
Definition mainLoop (answers : list jsstring) : M (option Ending) :=
  menu (S (List.length answers)) answers.

End Console.

(** ** Start-up (src/bot.js: [startBot] and the frame of [main])

    The start-up talks to other collaborators than the handlers do, so
    it has a trace of its own.  Its collaborator calls are numbered as
    they are made, from zero, and call [k] fails when [failure k] is an
    error. *)

Module Startup.

Inductive Act : Type :=
| Connect (ok : bool)      (** [client.connect()] *)
| WhoAmI (ok : bool)       (** [client.getMe()] *)
| SaveSession (ok : bool)  (** [saveSession()] *)
| SendCode (ok : bool)     (** [client.invoke(new Api.auth.SendCode(...))] *)
| AskCode                  (** [question("Enter verification code: ")] *)
| SignIn (code : jsstring) (ok : bool).
                           (** [client.invoke(new Api.auth.SignIn(...))] *)

(** How a block of statements ends. *)
Inductive End : Type :=
| Next                     (** it falls through to the next statement *)
| Return                   (** [return] *)
| Exit (code : Z)          (** [process.exit(code)] *)
| Throw (error : jsstring)
| Wait.                    (** a prompt without line *)

(** A block: from the number of the next call, its end, the number of
    the next call after it, and what it did. *)
Definition Block : Type := nat -> End * nat * list Act.

Definition seq (p q : Block) : Block := fun k =>
  match p k with
  | (Next, k1, t1) => let '(e, k2, t2) := q k1 in (e, k2, t1 ++ t2)
  | r => r
  end.

(** [try { p } catch (error) { h error }] *)
Definition attempt (p : Block) (h : jsstring -> Block) : Block := fun k =>
  match p k with
  | (Throw e, k1, t1) => let '(r, k2, t2) := h e k1 in (r, k2, t1 ++ t2)
  | r => r
  end.

Definition finish (e : End) : Block := fun k => (e, k, []).

(** What becomes of the process. *)
Inductive Outcome : Type :=
| Serving            (** the message handler is installed *)
| Stopped (code : Z) (** the process has exited *)
| Waiting            (** the process waits for the verification code *)
| Idle.              (** the process stays, without handler *)

Section Collaborators.

Variable failure : nat -> option jsstring.

(** An awaited collaborator call. *)
Definition await (act : bool -> Act) : Block := fun k =>
  (match failure k with None => Next | Some e => Throw e end,
   S k, [act (isNone (failure k))]).

(** [startBot()]; [code] is the line typed at the prompt for the
    verification code, if one is typed. *)
Definition startBot (isHeadless : bool) (sessionString : jsstring)
    (code : option jsstring) : Block :=
  seq
    (if isHeadless then
       seq (if negb (truthy sessionString) then finish (Exit 1)
            else finish Next)
           (attempt
              (seq (await Connect) (seq (await WhoAmI) (finish Return)))
              (fun _ => finish (Exit 1)))
     else finish Next)
  (seq
    (attempt
       (seq (await Connect)
            (attempt (seq (await WhoAmI)
                          (seq (await SaveSession) (finish Return)))
                     (fun _ => finish Next)))
       (fun _ => finish Next))
    (attempt
       (seq (await SendCode)
            (match code with
             | None => fun k => (Wait, k, [AskCode])
             | Some c =>
                 seq (fun k => (Next, k, [AskCode]))
                     (seq (await (SignIn c)) (await SaveSession))
             end))
       (fun e => finish (Throw e)))).

(** The frame of [main] around [startBot]: the handler is installed
    when [startBot] returns; an error is logged, and the [finally] ends
    an interactive process with code 0. *)
Definition main (isHeadless : bool) (sessionString : jsstring)
    (code : option jsstring) : Outcome * list Act :=
  let '(e, _, t) := startBot isHeadless sessionString code O in
  (match e with
   | Next | Return => Serving
   | Exit c => Stopped c
   | Throw _ => if isHeadless then Idle else Stopped 0
   | Wait => Waiting
   end, t).

End Collaborators.

Definition isPrompt (a : Act) : bool :=
  match a with AskCode => true | _ => false end.

Definition isSave (a : Act) : bool :=
  match a with SaveSession _ => true | _ => false end.

(** The account was identified: [getMe] or the sign-in succeeded. *)
Definition isLogin (a : Act) : bool :=
  match a with
  | WhoAmI true => true
  | SignIn _ true => true
  | _ => false
  end.

End Startup.

(** ** Vocabulary of the specification *)

Module Spec.

(** *** Interval texts: [<number><unit?>] *)

Definition allDigits (s : jsstring) : bool := forallb isDigit s.

Definition allWhite (s : jsstring) : bool := forallb isWhiteSpace s.

(** The numeric part: integer digits, and fraction digits after a dot
    when there is one. *)
Definition numberText (ip : jsstring) (fp : option jsstring) : jsstring :=
  match fp with
  | None => ip
  | Some f => ip ++ 46%N :: f
  end.

Definition unitOk (un : jsstring) : bool :=
  match un with
  | [] => true
  | [c] => isUnitLetter c
  | _ => false
  end.

Definition numberOk (ip : jsstring) (fp : option jsstring) : bool :=
  allDigits ip
  && match fp with
     | None => truthy ip
     | Some f => truthy f && allDigits f
     end.

(** The numeric+optional-unit shape: optional digits, optional dot,
    digits, optional unit letter. *)
Definition wellShaped (ip : jsstring) (fp : option jsstring)
    (un : jsstring) : bool :=
  numberOk ip fp && unitOk un.

Definition shapeText (ip : jsstring) (fp : option jsstring)
    (un : jsstring) : jsstring :=
  numberText ip fp ++ un.

(** The same shape with white space between the number and the unit
    letter. *)
Definition wellSpaced (ip : jsstring) (fp : option jsstring)
    (ws un : jsstring) : bool :=
  numberOk ip fp && allWhite ws && unitOk un.

Definition spacedText (ip : jsstring) (fp : option jsstring)
    (ws un : jsstring) : jsstring :=
  numberText ip fp ++ ws ++ un.

(** The number a digit string denotes, by position. *)
Fixpoint digitsValue (ds : jsstring) : Z :=
  match ds with
  | [] => 0
  | d :: r => digitVal d * 10 ^ Z.of_nat (List.length r) + digitsValue r
  end.

(** The digits of a numeric part, and how many of them follow the
    dot. *)
Definition allDigitsOf (ip : jsstring) (fp : option jsstring) : jsstring :=
  ip ++ default [] fp.

Definition fractionLength (fp : option jsstring) : nat :=
  List.length (default [] fp).

(** The value a numeric part denotes. *)
Definition decimalValue (ip : jsstring) (fp : option jsstring) : Q :=
  digitsValue (allDigitsOf ip fp)
  # Z.to_pos (10 ^ Z.of_nat (fractionLength fp)).

(** The number it is read as: the one nearest to that value. *)
Definition numberOf (ip : jsstring) (fp : option jsstring) : Num.number :=
  Num.ofDecimal (digitsValue (allDigitsOf ip fp))
                (- Z.of_nat (fractionLength fp)).

(** Milliseconds per unit: second, minute, hour; hour when omitted. *)
Definition unitFactor (un : jsstring) : Z :=
  match un with
  | [c] => if (lowerUnit c =? 115)%N then 1000
           else if (lowerUnit c =? 109)%N then 60000
           else 3600000
  | _ => 3600000
  end.

(** The factors of the products that make them up, in the order of the
    multiplications. *)
Definition unitSteps (un : jsstring) : list Z :=
  match un with
  | [c] => if (lowerUnit c =? 115)%N then [1000%Z]
           else if (lowerUnit c =? 109)%N then [60%Z; 1000%Z]
           else [60%Z; 60%Z; 1000%Z]
  | _ => [60%Z; 60%Z; 1000%Z]
  end.

(** A number multiplied by whole numbers in turn, each product
    rounded. *)
Definition timesAll (x : Num.number) (factors : list Z) : Num.number :=
  fold_left (fun acc f => Num.mul acc (Num.ofZ f)) factors x.

(** The texts the interval parser refuses: those that are not of the
    shape, white space before the unit letter allowed; those whose
    number reads as zero; those with a minus sign. *)
Inductive Malformed (t : jsstring) : Prop :=
| NotShaped :
    (forall ip fp ws un,
        wellSpaced ip fp ws un = true -> t <> spacedText ip fp ws un) ->
    Malformed t
| ZeroValue ip fp ws un :
    wellSpaced ip fp ws un = true -> t = spacedText ip fp ws un ->
    Num.falsy (numberOf ip fp) = true -> Malformed t
| Negative r :
    t = 45%N :: r -> Malformed t.

(** A text that is not of the numeric+optional-unit shape. *)
Definition notShaped (t : jsstring) : Prop :=
  forall ip fp un, wellShaped ip fp un = true -> t <> shapeText ip fp un.

(** *** Broadcasts *)

(** A list entry that is a target: not blank. *)
Definition nonBlank (g : jsstring) : bool := truthy (trim g).

(** The targets of a list of entries: the non-blank ones, trimmed. *)
Definition targetsOf (grps : list jsstring) : list jsstring :=
  filterTruthy (List.map trim grps).

(** The last entry of the list, if any, is a target. *)
Fixpoint endsNonBlank (grps : list jsstring) : bool :=
  match grps with
  | [] => true
  | [g] => nonBlank g
  | _ :: rest => endsNonBlank rest
  end.

(** One delivery attempt per target, in order, each with the outcome
    the collaborators give to that call; [k] numbers the first call. *)
Fixpoint attempts (env : Env) (k : nat) (message : jsstring)
    (targets : list jsstring) : list Event :=
  match targets with
  | [] => []
  | t :: rest =>
      Delivery t message (isNone (failure env k))
      :: attempts env (S k) message rest
  end.

(** The pacing delay between consecutive attempts, and nowhere else. *)
Fixpoint paced (ds : list Event) : list Event :=
  match ds with
  | [] => []
  | d :: rest =>
      match rest with
      | [] => [d]
      | _ :: _ => d :: Sleep messageDelay :: paced rest
      end
  end.

(** *** Command texts *)

(** The entire remainder of a text after its first ['|'], if it has
    one. *)
Fixpoint afterFirstPipe (t : jsstring) : option jsstring :=
  match t with
  | [] => None
  | c :: r => if (c =? 124)%N then Some r else afterFirstPipe r
  end.

(** The messages of the delivery attempts of a trace. *)
Definition deliveredMessages (t : list Event) : list jsstring :=
  List.flat_map (fun e => match e with
                          | Delivery _ m _ => [m]
                          | _ => []
                          end) t.

(** A message whose first token, in lower case, is [name]. *)
Definition isCommand (name : jsstring) (m : Message) : Prop :=
  out m = false /\ toLowerCase (hd [] (split 32 (text m))) = name.

(** *** Timers *)

(** The state reached by a computation, and its trace. *)
Definition stateOf {A} (r : Res A * Sys * list Event) : Sys := snd (fst r).
Definition traceOf {A} (r : Res A * Sys * list Event) : list Event := snd r.

(** Nothing delivered. *)
Definition silent (t : list Event) : Prop :=
  forall e, In e t -> isDelivery e = false.

Definition sameTimers (s s' : Sys) : Prop :=
  activeTimers s' = activeTimers s
  /\ liveTimers s' = liveTimers s
  /\ nextTimer s' = nextTimer s.

(** One job was created: a timer under the next fresh handle, pushed on
    the registry. *)
Definition created (s s' : Sys) : Prop :=
  exists tm,
    activeTimers s' = activeTimers s ++ [nextTimer s]
    /\ liveTimers s' = liveTimers s ++ [tm]
    /\ timerId tm = nextTimer s
    /\ nextTimer s' = S (nextTimer s).

(** Every registered timer was stopped and the registry emptied. *)
Definition cleared (s s' : Sys) : Prop :=
  activeTimers s' = []
  /\ liveTimers s'
     = List.filter
         (fun t => negb (existsb (Nat.eqb (timerId t)) (activeTimers s)))
         (liveTimers s)
  /\ nextTimer s' = nextTimer s.

Definition TimerStep (s s' : Sys) : Prop :=
  sameTimers s s' \/ created s s' \/ cleared s s'.

(** Computations that leave the timers alone, that deliver nothing,
    that do one timer step at most. *)
Definition Quiet {A} (m : M A) : Prop :=
  forall env s, sameTimers s (stateOf (m env s)).

Definition Mute {A} (m : M A) : Prop :=
  forall env s, silent (traceOf (m env s)).

Definition Timed {A} (m : M A) : Prop :=
  forall env s, TimerStep s (stateOf (m env s)).

(** The registry mirrors the runtime: every live timer is registered,
    and every handle in use is older than the next fresh one. *)
Definition registryOk (s : Sys) : Prop :=
  (forall t, In t (liveTimers s) -> In (timerId t) (activeTimers s))
  /\ (forall id, In id (activeTimers s) -> (id < nextTimer s)%nat).

(** A handle that was given out and whose timer is not live any more. *)
Definition retired (id : nat) (s : Sys) : Prop :=
  (id < nextTimer s)%nat
  /\ (forall t, In t (liveTimers s) -> timerId t <> id).

(** *** The wizard table *)

(** No entry of the table is marked done. *)
Definition tableOk (s : Sys) : Prop :=
  forall k w, autosendStates s !! k = Some w -> done w = false.

(** Computations that leave the table alone. *)
Definition KeepsTable {A} (m : M A) : Prop :=
  forall env s, autosendStates (stateOf (m env s)) = autosendStates s.

(** *** Wizard entries *)

Definition hasGroups (w : Wizard) : bool :=
  match groups w with
  | Some (_ :: _) => true
  | _ => false
  end.

(** An entry as the steps of the wizard leave it: not marked done, with
    targets once the first step is passed, and with a parsed interval
    as well once the second is. *)
Definition wizardWf (w : Wizard) : bool :=
  negb (done w)
  && match step w with
     | StepGroups => true
     | StepInterval => hasGroups w
     | StepMessage => hasGroups w && negb (isNone (intervalInfo w))
     end.

Definition tableWf (s : Sys) : Prop :=
  forall k w, autosendStates s !! k = Some w -> wizardWf w = true.

(** The state with one more job: a timer for the targets of [grps],
    registered under the next fresh handle. *)
Definition jobOf (grps : list jsstring) (message : jsstring)
    (info : IntervalInfo) (s : Sys) : Sys :=
  pushed (nextTimer s)
         (registered (targetsOf grps) message (intervalMs info) s).

(** *** Replies of the allow-list variant *)

(** What a reply leaves in the trace when its first collaborator call
    is call [k]: the response, and the direct message that is tried
    when the response fails. *)
Definition replyTrace (env : Env) (k : nat) (peer : Z) (message : jsstring)
    : list Event :=
  match failure env k with
  | None => [Respond message true]
  | Some _ => [Respond message false;
               Direct peer message (isNone (failure env (S k)))]
  end.

(** The number of collaborator calls of that reply. *)
Definition replyCalls (env : Env) (k : nat) : nat :=
  match failure env k with
  | None => 1%nat
  | Some _ => 2%nat
  end.

(** The state after [n] more collaborator calls. *)
Fixpoint bumps (n : nat) (s : Sys) : Sys :=
  match n with
  | O => s
  | S n' => bump (bumps n' s)
  end.

(** *** The registry and the runtime *)

(** The registry lists the handles of the live timers, in the order of
    their creation. *)
Definition mirrored (s : Sys) : Prop :=
  List.map timerId (liveTimers s) = activeTimers s.

(** *** The allow-list *)

(** A handler that keeps the allow-list: to a sender outside the allow-list
    it delivers nothing, and every text it sends back is the
    redirect. *)
Definition keepsGate (handler : Message -> M unit) : Prop :=
  forall env s m,
    Gated.includes Gated.allowedUserIds (sender m) = false ->
    forall e, In e (snd (run (handler m) env s)) ->
      isDelivery e = false
      /\ forall txt, replyText e = Some txt -> txt = promoText.

(** *** Jobs and their intervals *)

(** An interval record that the parser made. *)
Definition parsed (info : IntervalInfo) : Prop :=
  exists txt, parseIntervalText (Some txt) = Some info.

(** The interval kept in a wizard entry, if any, was parsed. *)
Definition wizardParsed (w : Wizard) : Prop :=
  forall info, intervalInfo w = Some info -> parsed info.

(** Every interval kept in the wizard table was parsed, and the delay
    that every live timer was made with is the [intervalMs] of a parsed
    interval. *)
Definition jobsOk (s : Sys) : Prop :=
  (forall k w, autosendStates s !! k = Some w -> wizardParsed w)
  /\ (forall tm, In tm (liveTimers s) ->
        exists info, parsed info /\ delay tm = intervalMs info).

(** Computations that keep it so. *)
Definition KeepsJobs {A} (m : M A) : Prop :=
  forall env s, jobsOk s -> jobsOk (stateOf (m env s)).

(** *** Timers in time *)

(** The registry and the jobs are in order, and the schedule lists the
    live intervals. *)
Definition worldOk (w : Clock.World) : Prop :=
  registryOk (Clock.sys w)
  /\ jobsOk (Clock.sys w)
  /\ List.map fst (Clock.due w) = List.map timerId (liveTimers (Clock.sys w)).

(** The interval [id] is not due before [t]. *)
Definition dueAfter (id : nat) (t : Z) (w : Clock.World) : Prop :=
  forall t', In (id, t') (Clock.due w) -> (t <= t')%Z.

(** *** Witnesses *)

(** Collaborators none of whose calls fails. *)
Definition quietEnv : Env :=
  {| failure := fun _ => None; me := mkAccount [] [] 0; dialogs := [] |}.

End Spec.
Export Spec.

(** * Verified properties *)

(** Closed string comparisons are decided by evaluation. *)
Ltac eval_eqs :=
  repeat match goal with
         | |- context [eqs ?a ?b] =>
             let r := eval vm_compute in (eqs a b) in
             change (eqs a b) with r
         end.

(** ** Code units and strings *)

Lemma isDigit_range c : isDigit c = true <-> (48 <= c <= 57)%N.
Proof.
  unfold isDigit. rewrite andb_true_iff, !N.leb_le. reflexivity.
Qed.

Lemma digit_cases c :
  isDigit c = true ->
  c = 48 \/ c = 49 \/ c = 50 \/ c = 51 \/ c = 52 \/ c = 53 \/ c = 54
  \/ c = 55 \/ c = 56 \/ c = 57.
Proof. rewrite isDigit_range. lia. Qed.

Lemma digit_not_white c : isDigit c = true -> isWhiteSpace c = false.
Proof.
  intros H. apply digit_cases in H.
  repeat (destruct H as [-> | H]; [reflexivity |]). subst. reflexivity.
Qed.

Lemma digit_not_dot c : isDigit c = true -> c <> 46.
Proof. rewrite isDigit_range. lia. Qed.

Lemma unit_cases c :
  isUnitLetter c = true ->
  c = 115 \/ c = 109 \/ c = 104 \/ c = 83 \/ c = 77 \/ c = 72.
Proof.
  unfold isUnitLetter. cbn. rewrite !orb_true_iff, !N.eqb_eq.
  intuition discriminate.
Qed.

Lemma unit_not_white c : isUnitLetter c = true -> isWhiteSpace c = false.
Proof.
  intros H. apply unit_cases in H.
  repeat (destruct H as [-> | H]; [reflexivity |]). subst. reflexivity.
Qed.

Lemma unit_not_digit c : isUnitLetter c = true -> isDigit c = false.
Proof.
  intros H. apply unit_cases in H.
  repeat (destruct H as [-> | H]; [reflexivity |]). subst. reflexivity.
Qed.

Lemma white_not_digit c : isWhiteSpace c = true -> isDigit c = false.
Proof.
  intros H. destruct (isDigit c) eqn:E; [| reflexivity].
  apply digit_not_white in E. congruence.
Qed.

Lemma white_not_dot c : isWhiteSpace c = true -> c <> 46.
Proof. intros H ->. discriminate. Qed.

Lemma truthy_nonempty (s : jsstring) : truthy s = true <-> s <> [].
Proof. destruct s; cbn; split; congruence. Qed.

Lemma trimStart_app_white ws s :
  allWhite ws = true -> trimStart (ws ++ s) = trimStart s.
Proof.
  induction ws as [| c ws IH]; cbn; [reflexivity |].
  rewrite andb_true_iff. intros [-> H]. auto.
Qed.

Lemma span_app p a b :
  forallb p a = true ->
  match b with [] => True | c :: _ => p c = false end ->
  span p (a ++ b) = (a, b).
Proof.
  intros Ha Hb. induction a as [| c a IH]; cbn in *.
  - destruct b as [| c b]; [reflexivity |]. cbn. now rewrite Hb.
  - apply andb_true_iff in Ha as [-> Ha]. now rewrite IH.
Qed.

Lemma span_spec p s a b :
  span p s = (a, b) ->
  s = a ++ b /\ forallb p a = true
  /\ match b with [] => True | c :: _ => p c = false end.
Proof.
  revert a b. induction s as [| c s IH]; cbn; intros a b H.
  - inversion H. auto.
  - destruct (p c) eqn:E.
    + destruct (span p s) as [a' b'] eqn:Es. inversion H; subst.
      destruct (IH a' b eq_refl) as (-> & Ha & Hb).
      cbn. rewrite E. auto.
    + inversion H; subst. cbn. auto.
Qed.

Lemma trimStart_spec s :
  exists ws, s = ws ++ trimStart s /\ allWhite ws = true.
Proof.
  induction s as [| c s (ws & E & Hws)]; cbn.
  - now exists [].
  - destruct (isWhiteSpace c) eqn:Ec.
    + exists (c :: ws). unfold allWhite in *. cbn. rewrite Ec, Hws.
      split; [congruence | reflexivity].
    + now exists [].
Qed.

Lemma trimStart_fixed c r : isWhiteSpace c = false -> trimStart (c :: r) = c :: r.
Proof. cbn. now intros ->. Qed.

(** ** The interval pattern and the shape of the specification *)

(** The first unit after a numeric part is neither a digit nor a dot. *)
Lemma after_number ws un c r :
  allWhite ws = true -> unitOk un = true -> ws ++ un = c :: r ->
  isDigit c = false /\ (c =? 46) = false.
Proof.
  intros Hws Hun E. destruct ws as [| w ws]; cbn in *.
  - subst un. destruct r; [| discriminate].
    split; [now apply unit_not_digit |].
    apply N.eqb_neq. intros ->. discriminate.
  - injection E as -> _. apply andb_true_iff in Hws as [Hw _].
    split; [now apply white_not_digit |].
    apply N.eqb_neq. now apply white_not_dot.
Qed.

Lemma unit_suffix un :
  unitOk un = true ->
  match trimStart un with
  | [] => Some un = Some []
  | [c] => isUnitLetter c = true /\ un = [c]
  | _ => False
  end.
Proof.
  destruct un as [| c [| d r]]; cbn; try discriminate; [reflexivity |].
  intros H. now rewrite (unit_not_white _ H).
Qed.

Lemma matchInterval_shape ip fp ws un :
  wellSpaced ip fp ws un = true ->
  matchInterval (spacedText ip fp ws un) = Some (numberText ip fp, un).
Proof.
  unfold wellSpaced, numberOk. rewrite !andb_true_iff.
  intros [[[Hip Hfp] Hws] Hun].
  assert (Htail : match ws ++ un with
                  | [] => True
                  | c :: _ => isDigit c = false
                  end).
  { destruct (ws ++ un) as [| c r] eqn:E; [exact I |].
    now destruct (after_number _ _ _ _ Hws Hun E). }
  assert (Hend : forall num : jsstring,
             match trimStart (ws ++ un) with
             | [] => Some (num, [])
             | [c] => if isUnitLetter c then Some (num, [c]) else None
             | _ => None
             end = Some (num, un)).
  { intros num. rewrite (trimStart_app_white _ _ Hws).
    pose proof (unit_suffix _ Hun) as Hu.
    destruct (trimStart un) as [| c [| d r]].
    - now injection Hu as ->.
    - destruct Hu as [-> ->]. reflexivity.
    - contradiction. }
  unfold matchInterval, spacedText. destruct fp as [f |]; cbn [numberText].
  - apply andb_true_iff in Hfp as [Hf Hfd].
    rewrite <- app_assoc. cbn [app].
    rewrite (span_app isDigit ip (46 :: f ++ ws ++ un) Hip) by reflexivity.
    cbn [N.eqb Pos.eqb].
    rewrite (span_app isDigit f (ws ++ un) Hfd Htail).
    rewrite Hf. apply Hend.
  - rewrite (span_app isDigit ip (ws ++ un) Hip Htail). rewrite Hfp.
    destruct (ws ++ un) as [| c r] eqn:E.
    + apply (Hend ip).
    + destruct (after_number _ _ _ _ Hws Hun E) as [_ ->]. apply (Hend ip).
Qed.

Lemma matchInterval_sound s num un :
  matchInterval s = Some (num, un) ->
  exists ip fp ws,
    wellSpaced ip fp ws un = true /\ s = spacedText ip fp ws un
    /\ num = numberText ip fp.
Proof.
  unfold matchInterval.
  destruct (span isDigit s) as [ip r1] eqn:Es.
  apply span_spec in Es as (-> & Hip & Hr1).
  assert (Hfin : forall (n rest : jsstring) (fp : option jsstring),
    n = numberText ip fp ->
    match fp with None => truthy ip | Some f => truthy f && allDigits f end
      = true ->
    match trimStart rest with
    | [] => Some (n, [])
    | [c] => if isUnitLetter c then Some (n, [c]) else None
    | _ => None
    end = Some (num, un) ->
    exists ws, wellSpaced ip fp ws un = true
               /\ n ++ rest = spacedText ip fp ws un /\ num = n).
  { intros n rest fp -> Hfp H.
    destruct (trimStart_spec rest) as (ws & E & Hws).
    exists ws. unfold wellSpaced, numberOk, spacedText.
    change (allDigits ip) with (forallb isDigit ip). rewrite Hip, Hfp, Hws.
    destruct (trimStart rest) as [| c [| d t]]; try discriminate.
    - injection H as <- <-. rewrite E. auto.
    - destruct (isUnitLetter c) eqn:Ec; [| discriminate].
      injection H as <- <-. unfold unitOk. rewrite Ec, E. auto. }
  assert (Hplain :
    match (if truthy ip then Some (ip, r1) else None) with
    | None => None
    | Some (n, rest) =>
        match trimStart rest with
        | [] => Some (n, [])
        | [c] => if isUnitLetter c then Some (n, [c]) else None
        | _ => None
        end
    end = Some (num, un) ->
    exists ip0 fp ws, wellSpaced ip0 fp ws un = true
      /\ ip ++ r1 = spacedText ip0 fp ws un /\ num = numberText ip0 fp).
  { destruct (truthy ip) eqn:Et; [| discriminate]. intros H.
    destruct (Hfin ip r1 None eq_refl eq_refl H) as (ws & ? & ? & ?).
    exists ip, None, ws. auto. }
  destruct r1 as [| c r2]; [exact Hplain |].
  destruct (c =? 46) eqn:Ec; [| exact Hplain].
  apply N.eqb_eq in Ec. subst c.
  destruct (span isDigit r2) as [f r3] eqn:Ef.
  destruct (truthy f) eqn:Etf; [| exact Hplain].
  apply span_spec in Ef as (-> & Hf & _). intros H.
  destruct (Hfin (ip ++ 46 :: f) r3 (Some f) eq_refl) with (2 := H)
    as (ws & ? & E & ?).
  { unfold allDigits. now rewrite Etf, Hf. }
  exists ip, (Some f), ws. repeat split; try assumption.
  rewrite <- E. now rewrite <- app_assoc.
Qed.

(** ** Numbers *)

#[local] Open Scope Z_scope.

Lemma size_bounds p :
  2 ^ (Zpos (Pos.size p) - 1) <= Zpos p < 2 ^ Zpos (Pos.size p).
Proof.
  pose proof (Pos.size_le p) as Hle. pose proof (Pos.size_gt p) as Hgt.
  assert (E : Zpos (2 ^ Pos.size p) = 2 ^ Zpos (Pos.size p))
    by (rewrite Pos2Z.inj_pow; reflexivity).
  assert (H2 : 2 ^ Zpos (Pos.size p) = 2 * 2 ^ (Zpos (Pos.size p) - 1)).
  { rewrite <- Z.pow_succ_r by lia. f_equal. lia. }
  split.
  - apply Pos2Z.pos_le_pos in Hle. rewrite E, (Pos2Z.inj_xO p) in Hle. lia.
  - apply Pos2Z.pos_lt_pos in Hgt. now rewrite E in Hgt.
Qed.

(** The number of bits of a mantissa, as the rounding counts them. *)
Lemma digits_bounds m :
  0 < m -> 2 ^ (Zdigits2 m - 1) <= m < 2 ^ Zdigits2 m.
Proof.
  destruct m as [| p |]; try lia. intros _.
  change (Zdigits2 (Zpos p)) with (Zpos (Pos.size p)). apply size_bounds.
Qed.

Lemma digits_pos m : 0 < m -> 0 < Zdigits2 m.
Proof. destruct m; cbn; lia. Qed.

Lemma iter_pos_nat {A} (f : A -> A) p : forall x,
  SpecFloat.iter_pos f p x = Nat.iter (Pos.to_nat p) f x.
Proof.
  induction p as [p IH | p IH |]; intros x; cbn [SpecFloat.iter_pos].
  - rewrite !IH, Pos2Nat.inj_xI.
    replace (S (2 * Pos.to_nat p))
      with (Pos.to_nat p + (Pos.to_nat p + 1))%nat by lia.
    rewrite !Nat.iter_add. reflexivity.
  - rewrite !IH, Pos2Nat.inj_xO.
    replace (2 * Pos.to_nat p)%nat
      with (Pos.to_nat p + Pos.to_nat p)%nat by lia.
    now rewrite Nat.iter_add.
  - reflexivity.
Qed.

(** One shift to the right halves the mantissa. *)
Lemma shr_1_m mrs : 0 <= shr_m mrs -> shr_m (shr_1 mrs) = shr_m mrs / 2.
Proof.
  destruct mrs as [m r s]. cbn [shr_m shr_1]. intros H.
  rewrite <- Z.div2_div.
  destruct m as [| [p | p |] |]; try reflexivity. lia.
Qed.

Lemma shr_iter_m n : forall mrs,
  0 <= shr_m mrs ->
  shr_m (Nat.iter n shr_1 mrs) = shr_m mrs / 2 ^ Z.of_nat n.
Proof.
  induction n as [| n IH]; intros mrs H.
  - cbn. now rewrite Z.div_1_r.
  - rewrite Nat.iter_succ, shr_1_m.
    + rewrite IH by exact H. rewrite Nat2Z.inj_succ, Z.pow_succ_r by lia.
      rewrite Z.div_div by lia. f_equal. lia.
    + rewrite IH by exact H. apply Z.div_pos; lia.
Qed.

(** What [shr_fexp] does to a mantissa that is not negative: it drops
    the bits that do not fit, if any. *)
Lemma shr_fexp_spec m e l :
  0 <= m ->
  let n := fexp Num.prec Num.emax (Zdigits2 m + e) - e in
  let '(mrs, e') := shr_fexp Num.prec Num.emax m e l in
  (0 < n -> shr_m mrs = m / 2 ^ n /\ e' = e + n)
  /\ (n <= 0 -> shr_m mrs = m /\ e' = e).
Proof.
  intros Hm n. unfold shr_fexp, shr. fold n.
  assert (Hrec : shr_m (shr_record_of_loc m l) = m)
    by (destruct l as [| []]; reflexivity).
  destruct n as [| p | p] eqn:En.
  - split; [lia | intros _; now split].
  - split; [intros _ | lia]. split; [| reflexivity].
    rewrite iter_pos_nat, shr_iter_m by (rewrite Hrec; exact Hm).
    now rewrite Hrec, positive_nat_Z.
  - split; [lia | intros _; now split].
Qed.

Lemma round_nearest_even_ge m l : m <= round_nearest_even m l.
Proof. destruct l as [| []]; cbn; try destruct (Z.even m); lia. Qed.

Lemma fexp_ge e : emin Num.prec Num.emax <= fexp Num.prec Num.emax e.
Proof. unfold fexp. lia. Qed.

Lemma div_pow_pos m n : 0 <= n -> 2 ^ n <= m -> 0 < m / 2 ^ n.
Proof.
  intros Hn H. assert (0 < 2 ^ n) by (apply Z.pow_pos_nonneg; lia).
  apply Z.div_str_pos. lia.
Qed.

(** Rounding a mantissa that is not negative gives a zero, a finite
    number or an infinity of the sign asked for, never NaN, and the
    exponent of a finite result is not below the least one. *)
Lemma binary_round_aux_shape s m e l :
  0 <= m ->
  match binary_round_aux Num.prec Num.emax s m e l with
  | S754_zero s' => s' = s
  | S754_infinity s' => s' = s
  | S754_finite s' _ e' => s' = s /\ emin Num.prec Num.emax <= e'
  | S754_nan => False
  end.
Proof.
  intros Hm. unfold binary_round_aux.
  pose proof (shr_fexp_spec m e l Hm) as H1. cbv zeta in H1.
  destruct (shr_fexp Num.prec Num.emax m e l) as [mrs1 e1].
  set (m1 := round_nearest_even (shr_m mrs1) (loc_of_shr_record mrs1)).
  assert (Hs1 : 0 <= shr_m mrs1 /\ emin Num.prec Num.emax <= e1).
  { pose proof (fexp_ge (Zdigits2 m + e)).
    destruct (Z.lt_ge_cases 0 (fexp Num.prec Num.emax (Zdigits2 m + e) - e))
      as [C | C].
    - destruct H1 as [H1 _]. destruct (H1 C) as [-> ->].
      split; [apply Z.div_pos; [lia | apply Z.pow_pos_nonneg; lia] | lia].
    - destruct H1 as [_ H1]. destruct (H1 C) as [-> ->]. lia. }
  assert (Hm1 : 0 <= m1)
    by (pose proof (round_nearest_even_ge (shr_m mrs1)
                      (loc_of_shr_record mrs1)); subst m1; lia).
  pose proof (shr_fexp_spec m1 e1 loc_Exact Hm1) as H2. cbv zeta in H2.
  destruct (shr_fexp Num.prec Num.emax m1 e1 loc_Exact) as [mrs2 e2].
  assert (Hs2 : 0 <= shr_m mrs2 /\ emin Num.prec Num.emax <= e2).
  { pose proof (fexp_ge (Zdigits2 m1 + e1)).
    destruct (Z.lt_ge_cases 0
                (fexp Num.prec Num.emax (Zdigits2 m1 + e1) - e1)) as [C | C].
    - destruct H2 as [H2 _]. destruct (H2 C) as [-> ->].
      split; [apply Z.div_pos; [lia | apply Z.pow_pos_nonneg; lia] | lia].
    - destruct H2 as [_ H2]. destruct (H2 C) as [-> ->]. lia. }
  destruct (shr_m mrs2) as [| p | p]; [reflexivity | | lia].
  destruct (e2 <=? Num.emax - Num.prec);
    [split; [reflexivity | lia] | reflexivity].
Qed.

(** Rounding a value of at least [2 ^ -1074] does not give zero. *)
Lemma binary_round_aux_nonzero s m e l :
  0 < m -> 2 ^ (emin Num.prec Num.emax - e) <= m ->
  binary_round_aux Num.prec Num.emax s m e l <> S754_zero s.
Proof.
  intros Hm Hbig. unfold binary_round_aux.
  pose proof (shr_fexp_spec m e l (Z.lt_le_incl _ _ Hm)) as H1.
  cbv zeta in H1.
  destruct (shr_fexp Num.prec Num.emax m e l) as [mrs1 e1].
  set (m1 := round_nearest_even (shr_m mrs1) (loc_of_shr_record mrs1)).
  pose proof (digits_bounds m Hm) as Hd. pose proof (digits_pos m Hm) as Hdp.
  assert (Hs1 : 0 < shr_m mrs1 /\ emin Num.prec Num.emax <= e1).
  { pose proof (fexp_ge (Zdigits2 m + e)).
    destruct (Z.lt_ge_cases 0 (fexp Num.prec Num.emax (Zdigits2 m + e) - e))
      as [C | C].
    - destruct H1 as [H1 _]. destruct (H1 C) as [-> ->].
      split; [| lia]. apply div_pow_pos; [lia |].
      unfold fexp in *.
      destruct (Z.max_spec (Zdigits2 m + e - Num.prec)
                           (emin Num.prec Num.emax))
        as [[_ E] | [_ E]]; rewrite E in *; [exact Hbig |].
      apply Z.le_trans with (2 ^ (Zdigits2 m - 1)); [| lia].
      apply Z.pow_le_mono_r; unfold Num.prec; lia.
    - destruct H1 as [_ H1]. destruct (H1 C) as [-> ->]. lia. }
  assert (Hm1 : 0 < m1)
    by (pose proof (round_nearest_even_ge (shr_m mrs1)
                      (loc_of_shr_record mrs1)); subst m1; lia).
  pose proof (shr_fexp_spec m1 e1 loc_Exact (Z.lt_le_incl _ _ Hm1)) as H2.
  cbv zeta in H2.
  destruct (shr_fexp Num.prec Num.emax m1 e1 loc_Exact) as [mrs2 e2].
  pose proof (digits_bounds m1 Hm1) as Hd1.
  pose proof (digits_pos m1 Hm1) as Hdp1.
  assert (Hs2 : 0 < shr_m mrs2).
  { destruct (Z.lt_ge_cases 0
                (fexp Num.prec Num.emax (Zdigits2 m1 + e1) - e1)) as [C | C].
    - destruct H2 as [H2 _]. destruct (H2 C) as [-> _].
      apply div_pow_pos; [lia |]. unfold fexp in *.
      destruct (Z.max_spec (Zdigits2 m1 + e1 - Num.prec)
                           (emin Num.prec Num.emax))
        as [[_ E] | [_ E]]; rewrite E in *; [lia |].
      apply Z.le_trans with (2 ^ (Zdigits2 m1 - 1)); [| lia].
      apply Z.pow_le_mono_r; unfold Num.prec; lia.
    - destruct H2 as [_ H2]. destruct (H2 C) as [-> _]. exact Hm1. }
  destruct (shr_m mrs2); [lia | | lia].
  destruct (e2 <=? Num.emax - Num.prec); discriminate.
Qed.

(** A positive number: finite with a mantissa and no sign, or
    [Infinity]. *)
Lemma lt_zero_cases x :
  Num.lt Num.zero x <->
  (exists m e, x = S754_finite false m e) \/ x = S754_infinity false.
Proof.
  unfold Num.lt, Num.ltb, SFltb.
  destruct x as [[] | [] | | [] m e]; cbn; split;
    try discriminate; try (intros [(? & ? & ?) | ?]; discriminate);
    intros _; eauto.
Qed.

Lemma mul_regular x y : Num.regular (Num.mul x y) = true.
Proof.
  unfold Num.mul, SFmul.
  destruct x as [sx | sx | | sx mx ex], y as [sy | sy | | sy my ey];
    try reflexivity.
  pose proof (binary_round_aux_shape (xorb sx sy) (Zpos (mx * my)) (ex + ey)
                loc_Exact ltac:(lia)) as H.
  destruct (binary_round_aux _ _ _ _ _ _) as [| | | s m e]; try reflexivity.
  destruct H as [_ H]. cbn. now apply Z.leb_le.
Qed.

(** The product of a positive number and a number that is at least 1
    is positive: nothing is lost to underflow. *)
Lemma mul_positive x mc ec :
  Num.lt Num.zero x -> Num.regular x = true ->
  ec <= 0 -> 2 ^ (- ec) <= Zpos mc ->
  Num.lt Num.zero (Num.mul x (S754_finite false mc ec)).
Proof.
  intros Hx Hreg Hec Hone. apply lt_zero_cases in Hx.
  destruct Hx as [(m & e & ->) | ->]; [| reflexivity].
  cbn [Num.regular] in Hreg. apply Z.leb_le in Hreg.
  unfold Num.mul, SFmul. cbn [xorb].
  assert (Hbig : 2 ^ (emin Num.prec Num.emax - (e + ec)) <= Zpos (m * mc)).
  { apply Z.le_trans with (2 ^ (- ec)).
    - apply Z.pow_le_mono_r; lia.
    - rewrite Pos2Z.inj_mul. nia. }
  pose proof (binary_round_aux_shape false (Zpos (m * mc)) (e + ec)
                loc_Exact ltac:(lia)) as Hs.
  pose proof (binary_round_aux_nonzero false (Zpos (m * mc)) (e + ec)
                loc_Exact ltac:(lia) Hbig) as Hnz.
  apply lt_zero_cases.
  destruct (binary_round_aux _ _ _ _ _ _) as [s | s | | s m' e'].
  - subst s. now destruct Hnz.
  - subst s. now right.
  - contradiction.
  - destruct Hs as [-> _]. left. eauto.
Qed.

Lemma div_eucl_nonneg a b : 0 <= a -> 0 < b -> 0 <= fst (Z.div_eucl a b).
Proof.
  intros Ha Hb. change (fst (Z.div_eucl a b)) with (a / b).
  apply Z.div_pos; lia.
Qed.

(** The number nearest to a quotient has a regular exponent. *)
Lemma nearest_regular n d : Num.regular (Num.nearest n d) = true.
Proof.
  assert (H : forall s p,
    Num.regular (SFdiv Num.prec Num.emax (S754_finite s p 0)
                       (S754_finite false d 0)) = true).
  { intros s p. unfold SFdiv, SFdiv_core_binary.
    set (e' := Z.min _ _). set (m' := match _ with 0 => _ | _ => _ end).
    assert (Hm' : 0 <= m').
    { subst m'. destruct (0 - 0 - e') as [| q | q]; try lia.
      rewrite Z.shiftl_mul_pow2 by lia.
      assert (0 < 2 ^ Zpos q) by (apply Z.pow_pos_nonneg; lia). lia. }
    pose proof (div_eucl_nonneg m' (Zpos d) Hm' ltac:(lia)) as Hq.
    destruct (Z.div_eucl m' (Zpos d)) as [q r]. cbn [fst] in Hq.
    pose proof (binary_round_aux_shape (xorb s false) q e'
                  (new_location (Zpos d) r) Hq) as Hs.
    destruct (binary_round_aux _ _ _ _ _ _) as [| | | s' m e];
      try reflexivity.
    destruct Hs as [_ Hs]. cbn. now apply Z.leb_le. }
  destruct n as [| p | p]; [reflexivity | apply H | apply H].
Qed.

Lemma ofDecimal_regular s p : Num.regular (Num.ofDecimal s p) = true.
Proof. destruct p; apply nearest_regular. Qed.

(** *** Whole numbers *)

Lemma shiftl_nat_S p n :
  Pos.shiftl_nat p (S n) = ((Pos.shiftl_nat p n)~0)%positive.
Proof. reflexivity. Qed.

Lemma shiftl_nat_add p n m :
  Pos.shiftl_nat p (n + m) = Pos.shiftl_nat (Pos.shiftl_nat p n) m.
Proof.
  induction m as [| m IH].
  - now rewrite Nat.add_0_r.
  - now rewrite Nat.add_succ_r, !shiftl_nat_S, IH.
Qed.

Lemma shiftl_nat_Z p n :
  Zpos (Pos.shiftl_nat p n) = Zpos p * 2 ^ Z.of_nat n.
Proof.
  induction n as [| n IH].
  - cbn. lia.
  - rewrite shiftl_nat_S, Pos2Z.inj_xO, IH, Nat2Z.inj_succ,
      Z.pow_succ_r by lia. ring.
Qed.

Lemma size_shiftl_nat p n :
  Zpos (Pos.size (Pos.shiftl_nat p n)) = Zpos (Pos.size p) + Z.of_nat n.
Proof.
  induction n as [| n IH].
  - cbn. lia.
  - rewrite shiftl_nat_S. cbn [Pos.size].
    rewrite Pos2Z.inj_succ, IH. lia.
Qed.

(** Shifting out bits that are all zero loses nothing. *)
Lemma shr_iter_exact n : forall p,
  Nat.iter n shr_1 (Build_shr_record (Zpos (Pos.shiftl_nat p n)) false false)
  = Build_shr_record (Zpos p) false false.
Proof.
  induction n as [| n IH]; intros p; [reflexivity |].
  rewrite Nat.iter_succ_r, shiftl_nat_S. cbn [shr_1 orb]. apply IH.
Qed.

(** Rounding a whole number below [2 ^ 53], however it is scaled,
    gives the number itself. *)
Lemma round_whole N j :
  Zpos (Pos.size N) <= Num.prec ->
  Num.prec - Zpos (Pos.size N) <= Z.of_nat j ->
  binary_round_aux Num.prec Num.emax false (Zpos (Pos.shiftl_nat N j))
                   (- Z.of_nat j) loc_Exact
  = Num.whole N.
Proof.
  intros Hsize Hj. unfold Num.whole.
  set (k := Z.to_nat (Num.prec - Zpos (Pos.size N))).
  assert (Hk : Z.of_nat k = Num.prec - Zpos (Pos.size N)) by (subst k; lia).
  clearbody k.
  assert (Hsplit : exists d, j = (k + d)%nat) by (exists (j - k)%nat; lia).
  destruct Hsplit as [d ->].
  unfold binary_round_aux, shr_fexp.
  change (Zdigits2 (Zpos (Pos.shiftl_nat N (k + d))))
    with (Zpos (Pos.size (Pos.shiftl_nat N (k + d)))).
  rewrite size_shiftl_nat.
  replace (Zpos (Pos.size N) + Z.of_nat (k + d) + - Z.of_nat (k + d))
    with (Zpos (Pos.size N)) by lia.
  assert (Hf : fexp Num.prec Num.emax (Zpos (Pos.size N))
               = Zpos (Pos.size N) - Num.prec).
  { unfold fexp, emin, Num.prec, Num.emax in *. lia. }
  rewrite Hf. cbn [shr_record_of_loc].
  assert (Hfirst :
    shr (Build_shr_record (Zpos (Pos.shiftl_nat N (k + d))) false false)
        (- Z.of_nat (k + d))
        (Zpos (Pos.size N) - Num.prec - - Z.of_nat (k + d))
    = (Build_shr_record (Zpos (Pos.shiftl_nat N k)) false false,
       Zpos (Pos.size N) - Num.prec)).
  { unfold shr.
    destruct (Zpos (Pos.size N) - Num.prec - - Z.of_nat (k + d))
      as [| q | q] eqn:En.
    - assert (d = O) by lia. subst d. rewrite Nat.add_0_r. f_equal. lia.
    - rewrite iter_pos_nat.
      assert (Eq : Pos.to_nat q = d) by lia.
      rewrite Eq. f_equal; [| lia].
      rewrite shiftl_nat_add. apply shr_iter_exact.
    - lia. }
  rewrite Hfirst. cbn [shr_m loc_of_shr_record round_nearest_even].
  change (Zdigits2 (Zpos (Pos.shiftl_nat N k)))
    with (Zpos (Pos.size (Pos.shiftl_nat N k))).
  rewrite size_shiftl_nat, Hk.
  replace (Zpos (Pos.size N) + (Num.prec - Zpos (Pos.size N))
           + (Zpos (Pos.size N) - Num.prec))
    with (Zpos (Pos.size N)) by lia.
  rewrite Hf, Z.sub_diag. cbn [shr shr_m].
  destruct (Zpos (Pos.size N) - Num.prec <=? Num.emax - Num.prec) eqn:E;
    [reflexivity |].
  apply Z.leb_gt in E. unfold Num.prec, Num.emax in *. lia.
Qed.

Lemma size_le_prec N :
  Zpos N < 2 ^ Num.prec -> Zpos (Pos.size N) <= Num.prec.
Proof.
  intros H. pose proof (size_bounds N) as [Hlo _].
  destruct (Z.le_gt_cases (Zpos (Pos.size N)) Num.prec) as [C | C];
    [exact C |].
  exfalso. assert (2 ^ Num.prec <= 2 ^ (Zpos (Pos.size N) - 1))
    by (apply Z.pow_le_mono_r; unfold Num.prec in *; lia).
  lia.
Qed.

(** A whole number below [2 ^ 53] is a number. *)
Lemma ofZ_whole N : Zpos N < 2 ^ Num.prec -> Num.ofZ (Zpos N) = Num.whole N.
Proof.
  intros H. pose proof (size_le_prec N H) as Hs.
  set (j := Z.to_nat (Num.prec + 1 - Zpos (Pos.size N))).
  assert (Hj : Z.of_nat j = Num.prec + 1 - Zpos (Pos.size N))
    by (subst j; lia).
  clearbody j.
  assert (Hcore : SFdiv_core_binary Num.prec Num.emax (Zpos N) 0 1 0
                  = (Zpos (Pos.shiftl_nat N j), - Z.of_nat j, loc_Exact)).
  { unfold SFdiv_core_binary.
    change (Zdigits2 (Zpos N)) with (Zpos (Pos.size N)).
    change (Zdigits2 1) with 1.
    assert (E : Z.min (fexp Num.prec Num.emax
                         (Zpos (Pos.size N) + 0 - (1 + 0)))
                      (0 - 0) = - Z.of_nat j)
      by (unfold fexp, emin, Num.prec, Num.emax in *; lia).
    rewrite E.
    replace (0 - 0 - - Z.of_nat j) with (Z.of_nat j) by lia.
    destruct (Z.of_nat j) as [| q | q] eqn:Eq; try lia.
    rewrite <- Eq, Z.shiftl_mul_pow2, <- shiftl_nat_Z by lia.
    assert (Ediv : Z.div_eucl (Zpos (Pos.shiftl_nat N j)) 1
                   = (Zpos (Pos.shiftl_nat N j), 0)).
    { pose proof (Z.div_1_r (Zpos (Pos.shiftl_nat N j))) as H1.
      pose proof (Z.mod_1_r (Zpos (Pos.shiftl_nat N j))) as H2.
      unfold Z.div, Z.modulo in H1, H2.
      destruct (Z.div_eucl (Zpos (Pos.shiftl_nat N j)) 1).
      cbn in *. congruence. }
    rewrite Ediv. reflexivity. }
  unfold Num.ofZ, Num.nearest, SFdiv. rewrite Hcore. cbn [xorb].
  apply round_whole; lia.
Qed.

Lemma size_mul_ge a b :
  Zpos (Pos.size a) + Zpos (Pos.size b) - 1 <= Zpos (Pos.size (a * b)).
Proof.
  pose proof (size_bounds a) as [Ha _]. pose proof (size_bounds b) as [Hb _].
  pose proof (size_bounds (a * b)) as [_ Hab].
  rewrite Pos2Z.inj_mul in Hab.
  assert (H : 2 ^ (Zpos (Pos.size a) - 1 + (Zpos (Pos.size b) - 1))
              < 2 ^ Zpos (Pos.size (a * b))).
  { rewrite Z.pow_add_r by lia.
    apply Z.le_lt_trans with (Zpos a * Zpos b); [| exact Hab].
    apply Z.mul_le_mono_nonneg; try lia; apply Z.pow_nonneg; lia. }
  apply Z.pow_lt_mono_r_iff in H; lia.
Qed.

(** The product of two whole numbers is exact when it is below
    [2 ^ 53]. *)
Lemma mul_whole a b :
  Zpos (a * b) < 2 ^ Num.prec ->
  Num.mul (Num.whole a) (Num.whole b) = Num.whole (a * b).
Proof.
  intros H. pose proof (size_le_prec _ H) as Hs.
  pose proof (size_mul_ge a b) as Hge.
  assert (Ha : Zpos a < 2 ^ Num.prec).
  { apply Z.le_lt_trans with (Zpos (a * b)); [| exact H].
    rewrite Pos2Z.inj_mul. nia. }
  assert (Hb : Zpos b < 2 ^ Num.prec).
  { apply Z.le_lt_trans with (Zpos (a * b)); [| exact H].
    rewrite Pos2Z.inj_mul. nia. }
  pose proof (size_le_prec _ Ha) as Hsa. pose proof (size_le_prec _ Hb) as Hsb.
  unfold Num.mul, Num.whole at 1 2, SFmul. cbn [xorb].
  set (ja := Z.to_nat (Num.prec - Zpos (Pos.size a))).
  set (jb := Z.to_nat (Num.prec - Zpos (Pos.size b))).
  assert (Em : (Pos.shiftl_nat a ja * Pos.shiftl_nat b jb)%positive
               = Pos.shiftl_nat (a * b) (ja + jb)).
  { apply Pos2Z.inj. rewrite Pos2Z.inj_mul, !shiftl_nat_Z, Pos2Z.inj_mul.
    rewrite Nat2Z.inj_add, Z.pow_add_r by lia. ring. }
  rewrite Em.
  replace (Zpos (Pos.size a) - Num.prec + (Zpos (Pos.size b) - Num.prec))
    with (- Z.of_nat (ja + jb)) by lia.
  apply round_whole; [exact Hs | lia].
Qed.

Lemma toQ_whole N :
  Zpos N < 2 ^ Num.prec -> (Num.toQ (Num.whole N) == inject_Z (Zpos N))%Q.
Proof.
  intros H. pose proof (size_le_prec N H) as Hs. unfold Num.whole, Num.toQ.
  set (j := Z.to_nat (Num.prec - Zpos (Pos.size N))).
  assert (Hj : Z.of_nat j = Num.prec - Zpos (Pos.size N)) by (subst j; lia).
  replace (Zpos (Pos.size N) - Num.prec) with (- Z.of_nat j) by lia.
  clearbody j. destruct j as [| j].
  - change (- Z.of_nat 0) with 0. change (Pos.shiftl_nat N 0) with N.
    unfold Qeq. cbn [Qnum Qden inject_Z]. rewrite Z.pow_0_r. lia.
  - rewrite Nat2Z.inj_succ.
    destruct (- Z.succ (Z.of_nat j)) as [| q | q] eqn:E; try lia.
    unfold Qeq. cbn [Qnum Qden inject_Z].
    rewrite shiftl_nat_Z, Pos2Z.inj_pow.
    replace (Zpos q) with (Z.of_nat (S j)) by lia.
    change (Zpos 2) with 2. lia.
Qed.

(** Decimals are read to the nearest number: [0.1]; a whole number
    half way between two numbers, which goes to the even one; the
    least number; a decimal below half of it; a decimal past the
    greatest number. *)
Example nearest_examples :
  Num.ofDecimal 1 (-1) = S754_finite false 7205759403792794 (-56)
  /\ Num.ofZ 9007199254740993 = Num.ofZ 9007199254740992
  /\ Num.ofDecimal 5 (-324) = S754_finite false 1 (-1074)
  /\ Num.ofDecimal 2 (-324) = Num.zero
  /\ Num.ofDecimal 18 307 = S754_infinity false.
Proof. repeat split; vm_compute; reflexivity. Qed.

(** Numbers as texts: the shortest decimal that reads back as the
    number, with an exponent from [1e21] up and below [1e-6]. *)
Example numberToString_examples :
  Num.numberToString (Num.ofDecimal 57 (-2)) = u "0.57"
  /\ Num.numberToString (Num.ofDecimal 5 (-1)) = u "0.5"
  /\ Num.numberToString (Num.ofZ 600) = u "600"
  /\ Num.numberToString (Num.ofDecimal 1 (-6)) = u "0.000001"
  /\ Num.numberToString (Num.ofDecimal 1 (-7)) = u "1e-7"
  /\ Num.numberToString (Num.ofDecimal 1 21) = u "1e+21"
  /\ Num.numberToString (Num.ofZ 123456789012345678901)
     = u "123456789012345680000"
  /\ Num.numberToString
       (Num.mul (Num.mul (Num.ofDecimal 57 (-2)) (Num.ofZ 60)) (Num.ofZ 1000))
     = u "34199.99999999999"
  /\ Num.numberToString (Num.ofDecimal 1 400) = u "Infinity".
Proof. repeat split; vm_compute; reflexivity. Qed.

#[local] Close Scope Z_scope.

(** ** The interval parser *)

Lemma scanDecimal_digits ds : forall acc scale seen rest,
  allDigits ds = true ->
  scanDecimal acc scale seen (ds ++ rest)
  = scanDecimal (acc * 10 ^ Z.of_nat (List.length ds) + digitsValue ds)%Z
                (match scale with
                 | Some k => Some (k + List.length ds)%nat
                 | None => None
                 end)
                (seen || truthy ds) rest.
Proof.
  induction ds as [| d ds IH]; intros acc scale seen rest Hd.
  - cbn [app List.length digitsValue truthy Z.of_nat].
    rewrite orb_false_r, Z.pow_0_r, Z.mul_1_r, Z.add_0_r.
    destruct scale as [k |]; [now rewrite Nat.add_0_r | reflexivity].
  - unfold allDigits in Hd. cbn [forallb] in Hd.
    apply andb_true_iff in Hd as [Hd Hds].
    cbn [app scanDecimal]. rewrite Hd, (IH _ _ _ _ Hds).
    cbn [List.length digitsValue truthy]. rewrite orb_true_r.
    rewrite Nat2Z.inj_succ, Z.pow_succ_r by lia.
    f_equal.
    + ring.
    + destruct scale as [k |]; [f_equal; lia | reflexivity].
Qed.

Lemma scanDecimal_all ds acc scale seen :
  allDigits ds = true ->
  scanDecimal acc scale seen ds
  = ((acc * 10 ^ Z.of_nat (List.length ds) + digitsValue ds)%Z,
     match scale with
     | Some k => Some (k + List.length ds)%nat
     | None => None
     end,
     seen || truthy ds).
Proof.
  intros H. rewrite <- (app_nil_r ds) at 1.
  now rewrite (scanDecimal_digits ds _ _ _ [] H).
Qed.

Lemma scanDecimal_dot acc seen r :
  scanDecimal acc None seen (46%N :: r) = scanDecimal acc (Some O) seen r.
Proof. reflexivity. Qed.

Lemma digitsValue_app a b :
  digitsValue (a ++ b)
  = (digitsValue a * 10 ^ Z.of_nat (List.length b) + digitsValue b)%Z.
Proof.
  induction a as [| d a IH]; cbn [app digitsValue]; [lia |].
  rewrite IH, length_app, Nat2Z.inj_add, Z.pow_add_r by lia. ring.
Qed.

(** [parseFloat] reads a numeric part as the number nearest to the
    value it denotes. *)
Lemma parseFloat_number ip fp ws un :
  wellSpaced ip fp ws un = true ->
  parseFloat (numberText ip fp) = numberOf ip fp.
Proof.
  unfold wellSpaced, numberOk. rewrite !andb_true_iff.
  intros [[[Hip Hfp] _] _].
  unfold parseFloat, numberOf, allDigitsOf, fractionLength.
  destruct fp as [f |]; cbn [numberText default].
  - apply andb_true_iff in Hfp as [Hf Hfd].
    rewrite (scanDecimal_digits ip _ _ _ (46%N :: f) Hip).
    rewrite scanDecimal_dot, (scanDecimal_all f _ _ _ Hfd).
    rewrite Hf, orb_true_r. cbn [Nat.add].
    now rewrite Z.mul_0_l, Z.add_0_l, digitsValue_app.
  - rewrite (scanDecimal_all ip _ _ _ Hip). cbn [orb].
    rewrite Hfp, app_nil_r. now rewrite Z.mul_0_l, Z.add_0_l.
Qed.

Lemma notPositive_false v : notPositive v = false <-> Num.lt Num.zero v.
Proof.
  unfold notPositive, Num.lt.
  destruct v as [[] | [] | | [] m e]; cbn; split; congruence.
Qed.

Lemma notPositive_falsy v : Num.falsy v = true -> notPositive v = true.
Proof. unfold notPositive. now intros ->. Qed.

Lemma parseFloat_regular s : Num.regular (parseFloat s) = true.
Proof.
  unfold parseFloat.
  destruct (scanDecimal 0 None false s) as [[acc scale] seen].
  destruct seen; [apply ofDecimal_regular | reflexivity].
Qed.

Lemma ofZ_1000 : Num.ofZ 1000 = S754_finite false 8796093022208000 (-43).
Proof. vm_compute. reflexivity. Qed.

Lemma ofZ_60 : Num.ofZ 60 = S754_finite false 8444249301319680 (-47).
Proof. vm_compute. reflexivity. Qed.

Lemma times_1000_positive v :
  Num.lt Num.zero v -> Num.regular v = true ->
  Num.lt Num.zero (Num.mul v (Num.ofZ 1000)).
Proof.
  intros H R. rewrite ofZ_1000.
  apply mul_positive; [exact H | exact R | lia | vm_compute; discriminate].
Qed.

Lemma times_60_positive v :
  Num.lt Num.zero v -> Num.regular v = true ->
  Num.lt Num.zero (Num.mul v (Num.ofZ 60)).
Proof.
  intros H R. rewrite ofZ_60.
  apply mul_positive; [exact H | exact R | lia | vm_compute; discriminate].
Qed.

(** The milliseconds of a positive value are positive: the products
    with 60 and 1000 do not underflow, and an overflow gives
    [Infinity]. *)
Lemma msOf_positive v un :
  Num.lt Num.zero v -> Num.regular v = true -> Num.lt Num.zero (msOf v un).
Proof.
  intros H R. unfold msOf.
  destruct (eqs un (u "s")); [| destruct (eqs un (u "m"))];
    repeat first [ apply times_1000_positive
                 | apply times_60_positive
                 | apply mul_regular
                 | assumption ].
Qed.

Lemma msOf_steps v un :
  unitOk un = true ->
  msOf v (toLowerCase (if truthy un then un else u "h"))
  = timesAll v (unitSteps un).
Proof.
  destruct un as [| c [| d r]]; cbn [unitOk]; try discriminate.
  - intros _. reflexivity.
  - intros H. apply unit_cases in H.
    repeat (destruct H as [-> | H]; [reflexivity |]). subst. reflexivity.
Qed.

Lemma unitSteps_factor un :
  fold_left Z.mul (unitSteps un) 1%Z = unitFactor un.
Proof.
  unfold unitSteps, unitFactor. destruct un as [| c [| d r]]; try reflexivity.
  destruct (lowerUnit c =? 115); [reflexivity |].
  destruct (lowerUnit c =? 109); reflexivity.
Qed.

(** A whole number times a whole factor, below [2 ^ 53]. *)
Lemma mul_whole_ofZ n c :
  (Zpos (n * c) < 2 ^ Num.prec)%Z ->
  Num.mul (Num.whole n) (Num.ofZ (Zpos c)) = Num.whole (n * c).
Proof.
  intros H. rewrite ofZ_whole; [now apply mul_whole |].
  apply Z.le_lt_trans with (Zpos (n * c)); [| exact H].
  rewrite Pos2Z.inj_mul. nia.
Qed.

(** The milliseconds of a whole number of units are exact as long as
    they stay below [2 ^ 53]. *)
Lemma timesAll_whole n un :
  (Zpos n * unitFactor un < 2 ^ 53)%Z ->
  timesAll (Num.whole n) (unitSteps un)
  = Num.whole (n * Z.to_pos (unitFactor un)).
Proof.
  intros H. unfold timesAll.
  assert (Hcases : (unitSteps un = [1000%Z] /\ unitFactor un = 1000%Z)
                   \/ (unitSteps un = [60%Z; 1000%Z]
                       /\ unitFactor un = 60000%Z)
                   \/ (unitSteps un = [60%Z; 60%Z; 1000%Z]
                       /\ unitFactor un = 3600000%Z)).
  { unfold unitSteps, unitFactor. destruct un as [| c [| d r]]; auto.
    destruct (lowerUnit c =? 115); [auto |].
    destruct (lowerUnit c =? 109); auto. }
  destruct Hcases as [[-> E] | [[-> E] | [-> E]]]; rewrite E in *;
    cbn [fold_left Z.to_pos].
  - apply mul_whole_ofZ. rewrite Pos2Z.inj_mul. exact H.
  - rewrite mul_whole_ofZ by (rewrite Pos2Z.inj_mul; unfold Num.prec; lia).
    rewrite mul_whole_ofZ
      by (rewrite !Pos2Z.inj_mul; unfold Num.prec; lia).
    f_equal. lia.
  - rewrite mul_whole_ofZ by (rewrite Pos2Z.inj_mul; unfold Num.prec; lia).
    rewrite mul_whole_ofZ
      by (rewrite !Pos2Z.inj_mul; unfold Num.prec; lia).
    rewrite mul_whole_ofZ
      by (rewrite !Pos2Z.inj_mul; unfold Num.prec; lia).
    f_equal. lia.
Qed.

Lemma unitFactor_pos un : (0 < unitFactor un)%Z.
Proof.
  unfold unitFactor. destruct un as [| c [| d r]]; try lia.
  destruct (lowerUnit c =? 115); [lia |].
  destruct (lowerUnit c =? 109); lia.
Qed.

Lemma wellShaped_spaced ip fp un :
  wellShaped ip fp un = wellSpaced ip fp [] un.
Proof. unfold wellShaped, wellSpaced. cbn. now rewrite andb_true_r. Qed.

Lemma shapeText_spaced ip fp un :
  shapeText ip fp un = spacedText ip fp [] un.
Proof. reflexivity. Qed.

(** The four conversions quoted by the specification. *)
Example interval_examples :
  (exists r, parseIntervalText (Some (u "30s")) = Some r
             /\ intervalMs r = Num.ofZ 30000)
  /\ (exists r, parseIntervalText (Some (u "5m")) = Some r
                /\ intervalMs r = Num.ofZ 300000)
  /\ (exists r, parseIntervalText (Some (u "4h")) = Some r
                /\ intervalMs r = Num.ofZ 14400000)
  /\ (exists r, parseIntervalText (Some (u "2")) = Some r
                /\ intervalMs r = Num.ofZ 7200000).
Proof.
  repeat split; eexists; (split; [reflexivity | vm_compute; reflexivity]).
Qed.

(** The claim C4 as it stands fails: the products are rounded, so the
    milliseconds of [0.57m] are 34199.99999999999 and not 0.57 times
    60000; and a text of the shape whose value is positive and below
    half the least number reads as zero and is refused. *)
Lemma interval_rounding_counterexample :
  (wellShaped (u "0") (Some (u "57")) (u "m") = true
   /\ u "0.57m" = shapeText (u "0") (Some (u "57")) (u "m")
   /\ (decimalValue (u "0") (Some (u "57")) * inject_Z 60000 == 34200)%Q
   /\ exists r,
        parseIntervalText (Some (u "0.57m")) = Some r
        /\ (Num.toQ (intervalMs r) < 34200)%Q
        /\ label r = u "0.57m")
  /\ (let tiny := Some (repeat 48 400 ++ u "1") in
      wellShaped (u "0") tiny (u "s") = true
      /\ (0 < decimalValue (u "0") tiny)%Q
      /\ parseIntervalText (Some (shapeText (u "0") tiny (u "s"))) = None).
Proof.
  split.
  - split; [reflexivity |]. split; [reflexivity |].
    split; [vm_compute; reflexivity |].
    eexists. split; [vm_compute; reflexivity |].
    split; vm_compute; reflexivity.
  - cbv zeta. split; [vm_compute; reflexivity |].
    split; vm_compute; reflexivity.
Qed.

(** C4, amended. Every interval text of the numeric+optional-unit shape
    whose number reads as a positive number is accepted; its value is
    the number nearest to the decimal, and its milliseconds are the
    value times 1000 for [s], times 60 and 1000 for [m], times 60, 60
    and 1000 for [h], each product rounded; a text without unit counts
    in hours.  For a whole number of units these milliseconds are the
    value times 1000, 60000 or 3600000 exactly, as long as they stay
    below [2 ^ 53]. *)
Theorem parseIntervalText_converts text ip fp un :
  wellShaped ip fp un = true ->
  trim text = shapeText ip fp un ->
  Num.lt Num.zero (numberOf ip fp) ->
  exists r,
    parseIntervalText (Some text) = Some r
    /\ value r = numberOf ip fp
    /\ intervalMs r = timesAll (value r) (unitSteps un)
    /\ unitName r = toLowerCase (if truthy un then un else u "h")
    /\ (forall n,
          fp = None -> digitsValue ip = Zpos n ->
          (Zpos n * unitFactor un < 2 ^ 53)%Z ->
          (Num.toQ (intervalMs r) == inject_Z (Zpos n * unitFactor un))%Q).
Proof.
  intros Hshape Htext Hpos.
  rewrite wellShaped_spaced in Hshape. rewrite shapeText_spaced in Htext.
  unfold parseIntervalText.
  change (default [] (Some text)) with text.
  rewrite Htext, (matchInterval_shape _ _ _ _ Hshape). cbv zeta.
  rewrite (parseFloat_number _ _ _ _ Hshape).
  assert (Hnp : notPositive (numberOf ip fp) = false)
    by now apply notPositive_false.
  rewrite Hnp. eexists. split; [reflexivity |]. cbn [value intervalMs unitName].
  assert (Hun : unitOk un = true).
  { unfold wellSpaced in Hshape. now apply andb_true_iff in Hshape as [_ ?]. }
  split; [reflexivity |]. split; [now apply msOf_steps |].
  split; [reflexivity |].
  intros n -> Hn Hsmall. rewrite (msOf_steps _ _ Hun).
  unfold numberOf, allDigitsOf, fractionLength. cbn [default List.length].
  rewrite app_nil_r, Hn.
  change (Num.ofDecimal (Zpos n) (- Z.of_nat 0)) with (Num.ofZ (Zpos n * 1)).
  rewrite Z.mul_1_r.
  pose proof (unitFactor_pos un) as Hf.
  rewrite ofZ_whole by (unfold Num.prec; nia).
  rewrite (timesAll_whole _ _ Hsmall).
  rewrite toQ_whole
    by (rewrite Pos2Z.inj_mul, Z2Pos.id by lia; exact Hsmall).
  now rewrite Pos2Z.inj_mul, Z2Pos.id by lia.
Qed.

Lemma parseIntervalText_converts_witness :
  exists r,
    parseIntervalText (Some (u " 90M ")) = Some r
    /\ value r = numberOf (u "90") None
    /\ intervalMs r = timesAll (value r) (unitSteps (u "M"))
    /\ unitName r = toLowerCase (if truthy (u "M") then u "M" else u "h")
    /\ (forall n,
          @None jsstring = None -> digitsValue (u "90") = Zpos n ->
          (Zpos n * unitFactor (u "M") < 2 ^ 53)%Z ->
          (Num.toQ (intervalMs r)
           == inject_Z (Zpos n * unitFactor (u "M")))%Q).
Proof.
  apply (parseIntervalText_converts (u " 90M ") (u "90") None (u "M"));
    reflexivity.
Defined.

(** Texts of the shape of the specification hold no white space. *)
Lemma shapeText_solid ip fp un :
  wellShaped ip fp un = true ->
  forallb (fun c => negb (isWhiteSpace c)) (shapeText ip fp un) = true.
Proof.
  unfold wellShaped, numberOk, shapeText. rewrite !andb_true_iff.
  intros [[Hip Hfp] Hun].
  assert (Hd : forall ds, allDigits ds = true ->
                 forallb (fun c => negb (isWhiteSpace c)) ds = true).
  { intros ds H. apply forallb_forall. intros c Hc.
    unfold allDigits in H. rewrite forallb_forall in H.
    now rewrite (digit_not_white c (H c Hc)). }
  assert (Hu : forallb (fun c => negb (isWhiteSpace c)) un = true).
  { destruct un as [| c [| d r]]; cbn in *; try discriminate; [reflexivity |].
    now rewrite (unit_not_white c Hun). }
  rewrite forallb_app, Hu, andb_true_r.
  destruct fp as [f |]; cbn [numberText].
  - apply andb_true_iff in Hfp as [_ Hf].
    rewrite forallb_app. cbn [forallb]. rewrite (Hd ip Hip), (Hd f Hf).
    reflexivity.
  - now apply Hd.
Qed.

(** The claim C7 as it stands fails: [5 m], with white space before the
    unit letter, is not of the numeric+optional-unit shape, and the
    parser reads it as five minutes. *)
Lemma interval_space_counterexample :
  notShaped (trim (u "5 m"))
  /\ exists r,
       parseIntervalText (Some (u "5 m")) = Some r
       /\ intervalMs r = Num.ofZ 300000.
Proof.
  split.
  - intros ip fp un Hs E. apply shapeText_solid in Hs.
    rewrite <- E in Hs. vm_compute in Hs. discriminate.
  - eexists. split; [reflexivity | vm_compute; reflexivity].
Qed.

(** C7, amended. A text that is not of the numeric+optional-unit shape,
    white space before the unit letter allowed, or whose number reads
    as zero, or that carries a minus sign, is refused. *)
Theorem parseIntervalText_rejects text :
  Malformed (trim text) -> parseIntervalText (Some text) = None.
Proof.
  intros H. unfold parseIntervalText.
  change (default [] (Some text)) with text.
  destruct H as [Hno | ip fp ws un Hshape -> Hzero | r ->].
  - destruct (matchInterval (trim text)) as [[num un] |] eqn:E;
      [| reflexivity].
    apply matchInterval_sound in E as (ip & fp & ws & Hs & Ht & _).
    now destruct (Hno ip fp ws un Hs).
  - rewrite (matchInterval_shape _ _ _ _ Hshape). cbv zeta.
    rewrite (parseFloat_number _ _ _ _ Hshape).
    now rewrite notPositive_falsy.
  - reflexivity.
Qed.

Lemma not_shaped_by_match t :
  matchInterval t = None ->
  forall ip fp ws un,
    wellSpaced ip fp ws un = true -> t <> spacedText ip fp ws un.
Proof.
  intros Hm ip fp ws un Hs ->.
  rewrite (matchInterval_shape _ _ _ _ Hs) in Hm. discriminate.
Qed.

Lemma parseIntervalText_rejects_witness :
  parseIntervalText (Some (u "abc")) = None
  /\ parseIntervalText (Some (u "-5m")) = None
  /\ parseIntervalText (Some (u "0h")) = None
  /\ parseIntervalText (Some (u "5  ms")) = None.
Proof.
  split; [| split; [| split]].
  - apply parseIntervalText_rejects. apply NotShaped.
    apply not_shaped_by_match. reflexivity.
  - apply parseIntervalText_rejects. apply (Negative _ (u "5m")). reflexivity.
  - apply parseIntervalText_rejects.
    apply (ZeroValue _ (u "0") None [] (u "h")); reflexivity.
  - apply parseIntervalText_rejects. apply NotShaped.
    apply not_shaped_by_match. reflexivity.
Defined.

(** C9. The interval parser is total: on every text, and on an absent
    one, it returns [null] or a record whose [intervalMs] is strictly
    positive. *)
Theorem parseIntervalText_total (input : option jsstring) :
  parseIntervalText input = None
  \/ exists r,
       parseIntervalText input = Some r /\ Num.lt Num.zero (intervalMs r).
Proof.
  unfold parseIntervalText.
  destruct (matchInterval (trim (default [] input))) as [[m1 m2] |];
    [| now left].
  cbv zeta. destruct (notPositive (parseFloat m1)) eqn:E; [now left |].
  right. eexists. split; [reflexivity |]. cbn [intervalMs].
  apply msOf_positive; [now apply notPositive_false |].
  apply parseFloat_regular.
Qed.

(** ** Computations *)

Lemma bind_run {A B} (m : M A) (f : A -> M B) env s :
  (m ≫= f) env s
  = match m env s with
    | (Returned a, s1, t1) =>
        let '(r, s2, t2) := f a env s1 in (r, s2, t1 ++ t2)
    | (Thrown e, s1, t1) => (Thrown e, s1, t1)
    end.
Proof. reflexivity. Qed.

Lemma sendMessageToGroup_run g msg env s :
  sendMessageToGroup g msg env s
  = (Returned (isNone (failure env (calls s))), bump s,
     [Delivery g msg (isNone (failure env (calls s)))]).
Proof. reflexivity. Qed.

Lemma respond_run msg env s :
  respond msg env s
  = (match failure env (calls s) with
     | None => Returned tt
     | Some e => Thrown e
     end, bump s, [Respond msg (isNone (failure env (calls s)))]).
Proof.
  unfold respond. rewrite bind_run. cbn.
  destruct (failure env (calls s)); reflexivity.
Qed.

Lemma sendDirect_run peer msg env s :
  sendDirect peer msg env s
  = (match failure env (calls s) with
     | None => Returned tt
     | Some e => Thrown e
     end, bump s, [Direct peer msg (isNone (failure env (calls s)))]).
Proof.
  unfold sendDirect. rewrite bind_run. cbn.
  destruct (failure env (calls s)); reflexivity.
Qed.

(** ** The broadcast loops *)

Lemma paced_cons d d' rest :
  paced (d :: d' :: rest) = d :: Sleep messageDelay :: paced (d' :: rest).
Proof. reflexivity. Qed.

Lemma attempts_deliveries env k message targets :
  List.filter isDelivery (attempts env k message targets)
  = attempts env k message targets.
Proof.
  revert k. induction targets as [| t r IH]; intros k; cbn;
    [reflexivity | now rewrite IH].
Qed.

Lemma attempts_length env k message targets :
  List.length (attempts env k message targets) = List.length targets.
Proof.
  revert k. induction targets as [| t r IH]; intros k; cbn;
    [reflexivity | now rewrite IH].
Qed.

Lemma attempts_no_sleep env k message targets :
  Forall (fun e => isSleep e = false) (attempts env k message targets).
Proof.
  revert k. induction targets as [| t r IH]; intros k; cbn; constructor;
    [reflexivity | apply IH].
Qed.

Lemma paced_deliveries ds :
  Forall (fun e => isDelivery e = true) ds ->
  List.filter isDelivery (paced ds) = ds.
Proof.
  induction ds as [| d [| d' r] IH]; intros H; [reflexivity | |].
  - cbn. inversion H as [| ? ? Hd _]; subst. now rewrite Hd.
  - rewrite paced_cons. inversion H as [| ? ? Hd Hr]; subst.
    cbn [List.filter isDelivery]. rewrite Hd. f_equal. now apply IH.
Qed.

Lemma paced_sleeps ds :
  Forall (fun e => isSleep e = false) ds ->
  List.length (List.filter isSleep (paced ds)) = (List.length ds - 1)%nat.
Proof.
  induction ds as [| d [| d' r] IH]; intros H; [reflexivity | |].
  - cbn. inversion H as [| ? ? Hd _]; subst. now rewrite Hd.
  - rewrite paced_cons. inversion H as [| ? ? Hd Hr]; subst.
    cbn [List.filter isSleep]. rewrite Hd. cbn [List.length].
    rewrite (IH Hr). cbn. lia.
Qed.

Lemma paced_last ds :
  Forall (fun e => isSleep e = false) ds ->
  forall t ms, paced ds <> t ++ [Sleep ms].
Proof.
  induction ds as [| d [| d' r] IH]; intros H t ms E.
  - now destruct t.
  - cbn in E. inversion H as [| ? ? Hd _]; subst.
    destruct t as [| x [| y t]]; try discriminate.
    injection E as ->. discriminate.
  - rewrite paced_cons in E. inversion H as [| ? ? Hd Hr]; subst.
    destruct t as [| x [| y t]]; try discriminate.
    + cbn in E. injection E as _ _ E. now destruct r.
    + cbn in E. injection E as _ _ E. now apply (IH Hr t ms).
Qed.

Lemma attempts_are_deliveries env k message targets :
  Forall (fun e => isDelivery e = true) (attempts env k message targets).
Proof.
  revert k. induction targets as [| t r IH]; intros k; cbn; constructor;
    [reflexivity | apply IH].
Qed.

Lemma endsNonBlank_tail g g' rest :
  endsNonBlank (g :: g' :: rest) = endsNonBlank (g' :: rest).
Proof. reflexivity. Qed.

Lemma targetsOf_cons g rest :
  targetsOf (g :: rest)
  = if nonBlank g then trim g :: targetsOf rest else targetsOf rest.
Proof. unfold targetsOf, nonBlank. cbn. now destruct (truthy (trim g)). Qed.

Lemma targets_nonempty grps :
  grps <> [] -> endsNonBlank grps = true -> targetsOf grps <> [].
Proof.
  induction grps as [| g [| g' r] IH]; intros Hne H; [congruence | |].
  - cbn in H. rewrite targetsOf_cons, H. discriminate.
  - rewrite endsNonBlank_tail in H. rewrite targetsOf_cons.
    destruct (nonBlank g); [discriminate |]. now apply IH.
Qed.

(** The state after [n] more collaborator calls. *)
Lemma bump_calls s : calls (bump s) = S (calls s).
Proof. reflexivity. Qed.

Lemma sendLoop_run message grps : forall env s,
  endsNonBlank grps = true ->
  exists s',
    sendLoop message grps env s
    = (Returned tt, s',
       paced (attempts env (calls s) message (targetsOf grps)))
    /\ calls s' = (calls s + List.length (targetsOf grps))%nat
    /\ activeTimers s' = activeTimers s /\ liveTimers s' = liveTimers s
    /\ nextTimer s' = nextTimer s /\ autosendStates s' = autosendStates s.
Proof.
  induction grps as [| g rest IH]; intros env s H.
  - exists s. cbn. rewrite Nat.add_0_r. repeat split; reflexivity.
  - rewrite targetsOf_cons. cbn [sendLoop]. unfold nonBlank in *.
    destruct (truthy (trim g)) eqn:Eg.
    + destruct rest as [| g' rest'].
      * exists (bump s). cbn. rewrite Nat.add_1_r. repeat split; reflexivity.
      * rewrite endsNonBlank_tail in H.
        destruct (IH env (bump s) H) as (s' & E & Hc & Ha & Hl & Hn & Hw).
        exists s'. rewrite bind_run, sendMessageToGroup_run. cbv beta iota.
        rewrite bind_run. cbn [sleep emit]. cbv beta iota.
        rewrite E. cbn [app attempts List.length].
        pose proof (targets_nonempty (g' :: rest') ltac:(discriminate) H)
          as Hne.
        change (calls (bump s)) with (S (calls s)) in *.
        destruct (targetsOf (g' :: rest')) as [| t ts];
          [congruence |].
        split; [reflexivity |].
        cbn [List.length] in *.
        repeat split; try assumption; lia.
    + destruct rest as [| g' rest']; [cbn in H; unfold nonBlank in H;
                                      congruence |].
      rewrite endsNonBlank_tail in H. now apply IH.
Qed.

Lemma all_targets grps :
  forallb nonBlank grps = true ->
  endsNonBlank grps = true /\ targetsOf grps = List.map trim grps.
Proof.
  induction grps as [| g [| g' r] IH]; cbn [forallb]; intros H.
  - now split.
  - apply andb_true_iff in H as [Hg _]. rewrite targetsOf_cons, Hg. now split.
  - apply andb_true_iff in H as [Hg Hr]. destruct (IH Hr) as [He Ht].
    rewrite endsNonBlank_tail, targetsOf_cons, Hg, Ht. now split.
Qed.

(** C2. The broadcast loop attempts every target of its list exactly
    once and in list order; the outcome of each attempt, delivered or
    failed, is recorded and the loop goes on; the pacing delay is
    observed between consecutive attempts only: one time fewer than
    there are targets, and never after the last attempt. *)
Theorem broadcast_runner env s message grps :
  endsNonBlank grps = true ->
  let trace := snd (run (sendLoop message grps) env s) in
  let outcomes := attempts env (calls s) message (targetsOf grps) in
  trace = paced outcomes
  /\ List.filter isDelivery trace = outcomes
  /\ List.length outcomes = List.length (targetsOf grps)
  /\ List.length (List.filter isSleep trace)
     = (List.length (targetsOf grps) - 1)%nat
  /\ (forall t ms, trace <> t ++ [Sleep ms]).
Proof.
  intros H trace outcomes.
  destruct (sendLoop_run message grps env s H) as (s' & E & _).
  assert (Ht : trace = paced outcomes).
  { unfold trace, run. now rewrite E. }
  rewrite Ht. split; [reflexivity |].
  split; [apply paced_deliveries, attempts_are_deliveries |].
  split; [apply attempts_length |].
  split.
  - rewrite paced_sleeps by apply attempts_no_sleep.
    unfold outcomes. now rewrite attempts_length.
  - apply paced_last, attempts_no_sleep.
Qed.

(** Three targets, the second of which fails. *)
Lemma broadcast_runner_witness :
  let env := {| failure := fun n => if Nat.eqb n 1 then Some (u "flood")
                                    else None;
                me := mkAccount [] [] 0; dialogs := [] |} in
  snd (run (sendLoop (u "Hi") [u "@t1"; u "@t2"; u "@t3"]) env initial)
  = [Delivery (u "@t1") (u "Hi") true; Sleep 5000;
     Delivery (u "@t2") (u "Hi") false; Sleep 5000;
     Delivery (u "@t3") (u "Hi") true].
Proof.
  intros env.
  destruct (broadcast_runner env initial (u "Hi")
              [u "@t1"; u "@t2"; u "@t3"] eq_refl) as [H _].
  exact H.
Defined.

(** The callback of [createAutoSendTimer] paces its attempts the same
    way. *)
Lemma tickLoop_run message grps : forall env s,
  exists s',
    tickLoop message grps env s
    = (Returned tt, s', paced (attempts env (calls s) message grps))
    /\ activeTimers s' = activeTimers s /\ liveTimers s' = liveTimers s
    /\ nextTimer s' = nextTimer s /\ autosendStates s' = autosendStates s.
Proof.
  induction grps as [| g rest IH]; intros env s.
  - exists s. repeat split; reflexivity.
  - destruct rest as [| g' rest'].
    + exists (bump s). repeat split; reflexivity.
    + destruct (IH env (bump s)) as (s' & E & Ha & Hl & Hn & Hw).
      exists s'. cbn [tickLoop] in *.
      rewrite bind_run, sendMessageToGroup_run. cbv beta iota.
      rewrite bind_run. cbn [sleep emit]. cbv beta iota.
      rewrite E. split; [reflexivity |]. now repeat split.
Qed.

(** ** The allow-list *)

Lemma tryCatch_run {A} (m : M A) h env s :
  tryCatch m h env s
  = match m env s with
    | (Returned a, s1, t1) => (Returned a, s1, t1)
    | (Thrown e, s1, t1) =>
        let '(r, s2, t2) := h e env s1 in (r, s2, t1 ++ t2)
    end.
Proof. reflexivity. Qed.

(** The redirect to a sender outside the allow-list: one direct
    message, whose failure is swallowed. *)
Lemma redirect_run peer env s :
  tryCatch (sendDirect peer promoText) Gated.ignore env s
  = (Returned tt, bump s,
     [Direct peer promoText (isNone (failure env (calls s)))]).
Proof.
  rewrite tryCatch_run, sendDirect_run.
  destruct (failure env (calls s)); reflexivity.
Qed.

(** C1, amended. In the variant with the allow-list, a message from a
    sender outside the allow-list never reaches the broadcast loop: the
    handler attempts no delivery, observes no pacing delay and leaves
    the timers alone, whatever the text; every text it sends back is
    the promotional redirect, and a command text, a well-formed [/send]
    included, is answered by exactly that redirect. *)
Theorem unauthorized_never_broadcasts env s m :
  Gated.includes Gated.allowedUserIds (sender m) = false ->
  let s' := fst (run (Gated.handler m) env s) in
  let trace := snd (run (Gated.handler m) env s) in
  (forall e, In e trace -> isDelivery e = false /\ isSleep e = false)
  /\ (forall e txt, In e trace -> replyText e = Some txt -> txt = promoText)
  /\ activeTimers s' = activeTimers s
  /\ liveTimers s' = liveTimers s
  /\ (out m = false ->
      startsWithSlash (text m) = true ->
      truthy (Gated.dropOneSlash (toLowerCase (hd [] (split 32 (text m)))))
        = true ->
      trace = [Direct (sender m) promoText (isNone (failure env (calls s)))]).
Proof.
  intros Hdenied s' trace. subst s' trace.
  assert (Hquiet : forall s0 : Sys,
    (forall e, In e (@nil Event) ->
               isDelivery e = false /\ isSleep e = false)
    /\ (forall e txt, In e (@nil Event) ->
                      replyText e = Some txt -> txt = promoText)
    /\ activeTimers s0 = activeTimers s0
    /\ liveTimers s0 = liveTimers s0).
  { intros s0. repeat split; intros; contradiction. }
  unfold Gated.handler, run. rewrite tryCatch_run. cbv zeta.
  destruct (out m).
  { cbn. destruct (Hquiet s) as (Q1 & Q2 & Q3 & Q4).
    repeat (split; [assumption |]). intros Hc. discriminate Hc. }
  destruct (startsWithSlash (text m)); cbn [negb].
  2: { cbn. destruct (Hquiet s) as (Q1 & Q2 & Q3 & Q4).
       repeat (split; [assumption |]). intros _ Hc. discriminate Hc. }
  destruct (truthy _); cbn [negb].
  2: { cbn. destruct (Hquiet s) as (Q1 & Q2 & Q3 & Q4).
       repeat (split; [assumption |]). intros _ _ Hc. discriminate Hc. }
  rewrite Hdenied. cbn [negb]. rewrite redirect_run. cbn [fst snd].
  split; [| split; [| repeat split]].
  - intros e [<- | []]. now split.
  - intros e txt [<- | []] H. cbn [replyText] in H. now injection H as <-.
Qed.

(** A stranger sends a well-formed [/send]. *)
Lemma unauthorized_never_broadcasts_witness :
  snd (run (Gated.handler (mkMessage false (u "/send @g hello world") 42))
           {| failure := fun _ => None; me := mkAccount [] [] 0;
              dialogs := [] |} initial)
  = [Direct 42 promoText true].
Proof.
  apply (unauthorized_never_broadcasts
           {| failure := fun _ => None; me := mkAccount [] [] 0;
              dialogs := [] |} initial
           (mkMessage false (u "/send @g hello world") 42));
    reflexivity.
Defined.

(** The claim C1 as it stands fails on the handler of src/bot.js, which
    has no allow-list: it acts on the commands of every sender, and a
    well-formed [/send] of a sender outside the allow-list of the
    variant is delivered. *)
Lemma open_dispatcher_counterexample :
  Gated.includes Gated.allowedUserIds 42 = false
  /\ snd (run (Bot.handler (mkMessage false (u "/send @g hello world") 42))
              quietEnv initial)
     = [Delivery (u "@g") (u "hello world") true;
        Respond (sentToText (u "@g")) true]
  /\ ~ keepsGate Bot.handler.
Proof.
  split; [reflexivity |]. split; [reflexivity |].
  intros H.
  destruct (H quietEnv initial
              (mkMessage false (u "/send @g hello world") 42) eq_refl
              (Delivery (u "@g") (u "hello world") true)) as [Hd _].
  - left. reflexivity.
  - discriminate Hd.
Qed.

(** ** Commands of src/bot.js *)

Lemma hd_split_cons sep c r :
  (c =? sep) = false -> exists p, hd [] (split sep (c :: r)) = c :: p.
Proof.
  intros H. cbn [split]. rewrite H.
  destruct (split sep r) as [| p ps]; eauto.
Qed.

Lemma lowerUnit_slash c : lowerUnit c = 47 -> c = 47.
Proof.
  unfold lowerUnit.
  destruct ((65 <=? c) && (c <=? 90)) eqn:E; [| auto].
  apply andb_true_iff in E as [H1 H2].
  apply N.leb_le in H1, H2. lia.
Qed.

(** A text whose first token is a command name starts with a slash. *)
Lemma command_starts_with_slash t name :
  toLowerCase (hd [] (split 32 t)) = 47 :: name ->
  startsWithSlash t = true.
Proof.
  destruct t as [| c r]; [discriminate |].
  destruct (c =? 32) eqn:E.
  - cbn [split]. rewrite E. discriminate.
  - destruct (hd_split_cons 32 c r E) as (p & ->). cbn.
    intros H. injection H as H _. apply lowerUnit_slash in H. now subst.
Qed.

(** On a text that starts with a slash the handler goes to the command
    branches, whatever the wizard table holds. *)
Lemma handler_command m env s :
  out m = false -> startsWithSlash (text m) = true ->
  Bot.handler m env s = tryCatch (Bot.dispatch m) Bot.ignore env s.
Proof.
  intros Ho Hs. unfold Bot.handler. rewrite Ho, !tryCatch_run, bind_run.
  cbn [get]. cbv beta iota. rewrite Hs. cbn [negb].
  destruct (autosendStates s !! sender m);
    destruct (Bot.dispatch m env s) as [[[a | e] s1] t1];
    cbn; rewrite ?app_nil_r; reflexivity.
Qed.

Lemma respond_caught msg env s :
  tryCatch (respond msg) Bot.ignore env s
  = (Returned tt, bump s, [Respond msg (isNone (failure env (calls s)))]).
Proof.
  rewrite tryCatch_run, respond_run.
  destruct (failure env (calls s)); reflexivity.
Qed.



Example send_without_message :
  snd (run (Bot.handler (mkMessage false (u "/send @g") 7))
           {| failure := fun _ => None; me := mkAccount [] [] 0;
              dialogs := [] |} initial)
  = [Respond unknownText true].
Proof. reflexivity. Qed.

Lemma split_none sep s : ~ In sep s -> split sep s = [s].
Proof.
  induction s as [| c r IH]; intros H; [reflexivity |].
  cbn [split]. destruct (c =? sep) eqn:E.
  - apply N.eqb_eq in E. subst. exfalso. apply H. now left.
  - rewrite IH; [reflexivity |]. intros Hr. apply H. now right.
Qed.

Lemma split_app_sep sep a b :
  ~ In sep a -> split sep (a ++ sep :: b) = a :: split sep b.
Proof.
  induction a as [| c r IH]; intros H.
  - cbn. now rewrite N.eqb_refl.
  - cbn [app split]. destruct (c =? sep) eqn:E.
    + apply N.eqb_eq in E. subst. exfalso. apply H. now left.
    + rewrite IH; [reflexivity |]. intros Hr. apply H. now right.
Qed.

Lemma stripPrefix_app pat x : stripPrefix pat (pat ++ x) = Some x.
Proof.
  induction pat as [| p r IH]; [now destruct x |].
  cbn. now rewrite N.eqb_refl.
Qed.

Lemma removeFirst_prefix pat x : removeFirst pat (pat ++ x) = x.
Proof.
  destruct pat as [| p r]; [now destruct x |].
  cbn [app removeFirst]. change (p :: r ++ x) with ((p :: r) ++ x).
  now rewrite stripPrefix_app.
Qed.

Lemma sendLoop_returns message grps : forall env s,
  exists s' t, sendLoop message grps env s = (Returned tt, s', t).
Proof.
  induction grps as [| g rest IH]; intros env s; [cbn; eauto |].
  cbn [sendLoop]. destruct (truthy (trim g)); [| apply IH].
  rewrite bind_run, sendMessageToGroup_run. cbv beta iota.
  rewrite bind_run.
  destruct (IH env (bump s)) as (s' & t & E).
  destruct rest as [| g' rest']; cbn [sleep emit mret M_ret];
    cbv beta iota; rewrite E; eauto.
Qed.

Lemma direct_caught peer msg env s :
  tryCatch (sendDirect peer msg) Bot.ignore env s
  = (Returned tt, bump s, [Direct peer msg (isNone (failure env (calls s)))]).
Proof.
  rewrite tryCatch_run, sendDirect_run.
  destruct (failure env (calls s)); reflexivity.
Qed.

Lemma no_space_in_sendmulti : ~ In 32 (u "/sendmulti").
Proof. cbn. intuition discriminate. Qed.

Lemma no_pipe_in_sendmulti : ~ In 124 (u "/sendmulti").
Proof. cbn. intuition discriminate. Qed.

(** The claim C5 as it stands fails on src/bot.js: what follows a second
    ['|'] is dropped from the message; a text with nothing behind its
    ['|'] is answered like one without ['|']; a command token that is
    not in lower case is taken for a target; targets separated by a tab
    are taken for one. *)
Lemma sendmulti_message_counterexample :
  let env := {| failure := fun _ => None; me := mkAccount [] [] 0;
                dialogs := [] |} in
  let t1 := u "/sendmulti @a|hello|world" in
  let t2 := u "/sendmulti @a|" in
  let t3 := u "/SENDMULTI @a|hello" in
  let t4 := u "/sendmulti @a" ++ 9 :: u "@b|hello" in
  afterFirstPipe t1 = Some (u "hello|world")
  /\ deliveredMessages (snd (run (Bot.handler (mkMessage false t1 7))
                                env initial))
     = [u "hello"]
  /\ u "hello" <> trim (u "hello|world")
  /\ afterFirstPipe t2 = Some []
  /\ snd (run (Bot.handler (mkMessage false t2 7)) env initial)
     = [Respond sendmultiFormatText true]
  /\ snd (run (Bot.handler (mkMessage false t3 7)) env initial)
     = [Delivery (u "/SENDMULTI") (u "hello") true; Sleep 5000;
        Delivery (u "@a") (u "hello") true;
        Direct 7 (sentMultiText 2) true]
  /\ snd (run (Bot.handler (mkMessage false t4 7)) env initial)
     = [Delivery (u "@a" ++ 9 :: u "@b") (u "hello") true;
        Direct 7 (sentMultiText 1) true].
Proof. repeat split; try reflexivity. discriminate. Qed.

(** C5, amended. In a text [/sendmulti <left>|<message>] with a single
    ['|'] and something behind it, the message sent is the text behind
    the ['|'], trimmed, and it goes to the pieces between single spaces
    of the trimmed left side, empty pieces left out; a [/sendmulti]
    text with nothing behind its ['|'], or without ['|'], is answered
    by the format error and nothing is delivered. *)
Theorem sendmulti_parse env s who :
  (forall rest content,
      ~ In 124 rest -> ~ In 124 content -> content <> [] ->
      let m := mkMessage false
                 (u "/sendmulti" ++ 32 :: rest ++ 124 :: content) who in
      let grps := filterTruthy (split 32 (trim rest)) in
      exists ok,
        snd (run (Bot.handler m) env s)
        = snd (run (sendLoop (trim content) grps) env s)
          ++ [Direct who (sentMultiText (List.length grps)) ok])
  /\ (forall rest,
         ~ In 124 rest ->
         snd (run (Bot.handler
                     (mkMessage false (u "/sendmulti" ++ 32 :: rest ++ [124])
                                who)) env s)
         = [Respond sendmultiFormatText (isNone (failure env (calls s)))])
  /\ (forall t,
         ~ In 124 t ->
         toLowerCase (hd [] (split 32 t)) = u "/sendmulti" ->
         snd (run (Bot.handler (mkMessage false t who)) env s)
         = [Respond sendmultiFormatText (isNone (failure env (calls s)))]).
Proof.
  assert (Hpipe : forall rest content,
    ~ In 124 rest -> ~ In 124 content ->
    split 124 (u "/sendmulti" ++ 32 :: rest ++ 124 :: content)
    = [u "/sendmulti" ++ 32 :: rest; content]).
  { intros rest content Hr Hc.
    change (u "/sendmulti" ++ 32 :: rest ++ 124 :: content)
      with (u "/sendmulti" ++ (32 :: rest) ++ 124 :: content).
    rewrite app_assoc, split_app_sep, (split_none _ _ Hc); [reflexivity |].
    intros Hin. apply in_app_or in Hin as [Hin | [Hin | Hin]];
      [now apply no_pipe_in_sendmulti | discriminate | contradiction]. }
  assert (Hhd : forall tail,
    hd [] (split 32 (u "/sendmulti" ++ 32 :: tail)) = u "/sendmulti").
  { intros tail.
    now rewrite (split_app_sep 32 _ _ no_space_in_sendmulti). }
  split; [| split].
  - intros rest content Hr Hc Hne m grps.
    unfold run.
    rewrite (handler_command m env s eq_refl eq_refl), tryCatch_run.
    unfold Bot.dispatch. cbv zeta. unfold m. cbn [text].
    rewrite Hhd, (Hpipe _ _ Hr Hc).
    change (toLowerCase (u "/sendmulti")) with (u "/sendmulti").
    eval_eqs. cbn [andb hd nth_error].
    destruct content as [| c r]; [congruence |].
    rewrite removeFirst_prefix.
    change (trim (32 :: rest)) with (trim rest). fold grps.
    cbn [sender]. rewrite bind_run.
    destruct (sendLoop_returns (trim (c :: r)) grps env s) as (s1 & t1 & E).
    rewrite E. cbv beta iota. rewrite direct_caught. cbn [snd]. eauto.
  - intros rest Hr. unfold run.
    rewrite (handler_command
               (mkMessage false (u "/sendmulti" ++ 32 :: rest ++ [124]) who)
               env s eq_refl eq_refl), tryCatch_run.
    unfold Bot.dispatch. cbv zeta. cbn [text].
    rewrite Hhd, (Hpipe rest [] Hr ltac:(intros [])).
    change (toLowerCase (u "/sendmulti")) with (u "/sendmulti").
    eval_eqs. cbn [andb hd nth_error].
    now rewrite respond_caught.
  - intros t Ht Hc.
    pose proof (command_starts_with_slash _ _ Hc) as Hs.
    unfold run.
    rewrite (handler_command (mkMessage false t who) env s eq_refl Hs),
      tryCatch_run.
    unfold Bot.dispatch. cbv zeta. cbn [text]. rewrite Hc.
    eval_eqs. cbn [andb]. rewrite (split_none _ _ Ht). cbn [nth_error].
    now rewrite respond_caught.
Qed.

Lemma sendmulti_parse_witness :
  let env := {| failure := fun _ => None; me := mkAccount [] [] 0;
                dialogs := [] |} in
  (exists ok,
      snd (run (Bot.handler
                  (mkMessage false (u "/sendmulti @a @b| Hi there ") 7))
               env initial)
      = snd (run (sendLoop (u "Hi there") [u "@a"; u "@b"]) env initial)
        ++ [Direct 7 (sentMultiText 2) ok])
  /\ snd (run (Bot.handler (mkMessage false (u "/sendmulti @a @b|") 7))
              env initial)
     = [Respond sendmultiFormatText true]
  /\ snd (run (Bot.handler (mkMessage false (u "/sendmulti @a @b") 7))
              env initial)
     = [Respond sendmultiFormatText true].
Proof.
  intros env.
  destruct (sendmulti_parse env initial 7) as (H1 & H2 & H3).
  split; [| split].
  - apply (H1 (u "@a @b") (u " Hi there ")); cbn; intuition discriminate.
  - apply (H2 (u "@a @b")). cbn. intuition discriminate.
  - apply (H3 (u "/sendmulti @a @b"));
      [cbn; intuition discriminate | reflexivity].
Defined.

(** ** The [/has] listing *)

Lemma chunkLines_spec lines : forall chunks current,
  current <> [] ->
  (List.length current < 4096)%nat ->
  Forall (fun l : jsstring => l <> [] /\ (List.length l < 4096)%nat) lines ->
  exists first rest,
    lines = first ++ List.concat rest
    /\ Forall (fun p : list jsstring => p <> []) rest
    /\ Gated.chunkLines chunks current lines
       = chunks ++ (current ++ List.concat first)
                   :: List.map (@List.concat codeunit) rest
    /\ (List.length (current ++ List.concat first) < 4096)%nat
    /\ Forall (fun p : list jsstring =>
                 (List.length (List.concat p) < 4096)%nat) rest.
Proof.
  induction lines as [| line lines IH]; intros chunks current Hne Hlen Hall.
  - exists [], []. cbn. rewrite app_nil_r.
    destruct current; [congruence |]. cbn. repeat split; auto.
  - inversion Hall as [| ? ? [Hl Hline] Hrest]; subst.
    cbn [Gated.chunkLines].
    destruct (4000 <? List.length (current ++ line))%nat eqn:E.
    + destruct (IH (chunks ++ [current]) line Hl Hline Hrest)
        as (first & rest & -> & Hr & -> & Hb & Hbs).
      exists [], ((line :: first) :: rest). cbn [List.concat List.map app].
      rewrite app_nil_r, <- app_assoc. cbn [app].
      repeat split; auto.
    + apply Nat.ltb_ge in E.
      assert (Hc : current ++ line <> []).
      { destruct current; [congruence | discriminate]. }
      destruct (IH chunks (current ++ line) Hc ltac:(lia) Hrest)
        as (first & rest & -> & Hr & -> & Hb & Hbs).
      exists (line :: first), rest. cbn [List.concat app].
      rewrite <- !app_assoc in *. repeat split; auto.
Qed.

Lemma formatLine_nonempty idx g : Gated.formatLine idx g <> [].
Proof.
  unfold Gated.formatLine. destruct (natToString (idx + 1)); discriminate.
Qed.

Lemma formatLines_nonempty gs : forall idx,
  Forall (fun l : jsstring => l <> []) (Gated.formatLines idx gs).
Proof.
  induction gs as [| g gs IH]; intros idx; cbn [Gated.formatLines];
    constructor; [apply formatLine_nonempty | apply IH].
Qed.



(** ** Timers: what computations do to them *)

Lemma sameTimers_refl s : sameTimers s s.
Proof. now repeat split. Qed.

Lemma sameTimers_trans s1 s2 s3 :
  sameTimers s1 s2 -> sameTimers s2 s3 -> sameTimers s1 s3.
Proof.
  intros (A1 & L1 & N1) (A2 & L2 & N2). repeat split; congruence.
Qed.

Lemma TimerStep_same_l s1 s2 s3 :
  sameTimers s1 s2 -> TimerStep s2 s3 -> TimerStep s1 s3.
Proof.
  intros (A1 & L1 & N1) [(A2 & L2 & N2) | [(tm & A2 & L2 & I2 & N2)
                                           | (A2 & L2 & N2)]].
  - left. repeat split; congruence.
  - right; left. exists tm. repeat split; congruence.
  - right; right. split; [exact A2 |]. split; [| congruence].
    now rewrite <- A1, <- L1.
Qed.

Lemma TimerStep_same_r s1 s2 s3 :
  TimerStep s1 s2 -> sameTimers s2 s3 -> TimerStep s1 s3.
Proof.
  intros [(A1 & L1 & N1) | [(tm & A1 & L1 & I1 & N1) | (A1 & L1 & N1)]]
         (A2 & L2 & N2).
  - left. repeat split; congruence.
  - right; left. exists tm. repeat split; congruence.
  - right; right. repeat split; congruence.
Qed.

Lemma silent_nil : silent [].
Proof. intros e []. Qed.

Lemma silent_app t1 t2 : silent t1 -> silent t2 -> silent (t1 ++ t2).
Proof.
  intros H1 H2 e He. apply in_app_or in He as [He | He]; auto.
Qed.

Lemma silent_one e : isDelivery e = false -> silent [e].
Proof. intros H x [<- | []]. exact H. Qed.

Section Closure.

Context {A B : Type}.

Lemma Quiet_bind (m : M A) (f : A -> M B) :
  Quiet m -> (forall a, Quiet (f a)) -> Quiet (m ≫= f).
Proof.
  intros Hm Hf env s. unfold stateOf. rewrite bind_run.
  pose proof (Hm env s) as H1. unfold stateOf in H1.
  destruct (m env s) as [[[a | e] s1] t1]; cbn in H1 |- *; [| exact H1].
  pose proof (Hf a env s1) as H2. unfold stateOf in H2.
  destruct (f a env s1) as [[r s2] t2]; cbn in H2 |- *.
  now apply sameTimers_trans with s1.
Qed.

Lemma Mute_bind (m : M A) (f : A -> M B) :
  Mute m -> (forall a, Mute (f a)) -> Mute (m ≫= f).
Proof.
  intros Hm Hf env s. unfold traceOf. rewrite bind_run.
  pose proof (Hm env s) as H1. unfold traceOf in H1.
  destruct (m env s) as [[[a | e] s1] t1]; cbn in H1 |- *; [| exact H1].
  pose proof (Hf a env s1) as H2. unfold traceOf in H2.
  destruct (f a env s1) as [[r s2] t2]; cbn in H2 |- *.
  now apply silent_app.
Qed.

Lemma Timed_bind_l (m : M A) (f : A -> M B) :
  Quiet m -> (forall a, Timed (f a)) -> Timed (m ≫= f).
Proof.
  intros Hm Hf env s. unfold stateOf. rewrite bind_run.
  pose proof (Hm env s) as H1. unfold stateOf in H1.
  destruct (m env s) as [[[a | e] s1] t1]; cbn in H1 |- *;
    [| now left].
  pose proof (Hf a env s1) as H2. unfold stateOf in H2.
  destruct (f a env s1) as [[r s2] t2]; cbn in H2 |- *.
  now apply TimerStep_same_l with s1.
Qed.

Lemma Timed_bind_r (m : M A) (f : A -> M B) :
  Timed m -> (forall a, Quiet (f a)) -> Timed (m ≫= f).
Proof.
  intros Hm Hf env s. unfold stateOf. rewrite bind_run.
  pose proof (Hm env s) as H1. unfold stateOf in H1.
  destruct (m env s) as [[[a | e] s1] t1]; cbn in H1 |- *;
    [| exact H1].
  pose proof (Hf a env s1) as H2. unfold stateOf in H2.
  destruct (f a env s1) as [[r s2] t2]; cbn in H2 |- *.
  now apply TimerStep_same_r with s1.
Qed.

Lemma Quiet_tryCatch (m : M A) (h : jsstring -> M A) :
  Quiet m -> (forall e, Quiet (h e)) -> Quiet (tryCatch m h).
Proof.
  intros Hm Hh env s. unfold stateOf. rewrite tryCatch_run.
  pose proof (Hm env s) as H1. unfold stateOf in H1.
  destruct (m env s) as [[[a | e] s1] t1]; cbn in H1 |- *; [exact H1 |].
  pose proof (Hh e env s1) as H2. unfold stateOf in H2.
  destruct (h e env s1) as [[r s2] t2]; cbn in H2 |- *.
  now apply sameTimers_trans with s1.
Qed.

Lemma Mute_tryCatch (m : M A) (h : jsstring -> M A) :
  Mute m -> (forall e, Mute (h e)) -> Mute (tryCatch m h).
Proof.
  intros Hm Hh env s. unfold traceOf. rewrite tryCatch_run.
  pose proof (Hm env s) as H1. unfold traceOf in H1.
  destruct (m env s) as [[[a | e] s1] t1]; cbn in H1 |- *; [exact H1 |].
  pose proof (Hh e env s1) as H2. unfold traceOf in H2.
  destruct (h e env s1) as [[r s2] t2]; cbn in H2 |- *.
  now apply silent_app.
Qed.

Lemma Timed_tryCatch (m : M A) (h : jsstring -> M A) :
  Timed m -> (forall e, Quiet (h e)) -> Timed (tryCatch m h).
Proof.
  intros Hm Hh env s. unfold stateOf. rewrite tryCatch_run.
  pose proof (Hm env s) as H1. unfold stateOf in H1.
  destruct (m env s) as [[[a | e] s1] t1]; cbn in H1 |- *; [exact H1 |].
  pose proof (Hh e env s1) as H2. unfold stateOf in H2.
  destruct (h e env s1) as [[r s2] t2]; cbn in H2 |- *.
  now apply TimerStep_same_r with s1.
Qed.

Lemma Quiet_ret (a : A) : Quiet (mret a).
Proof. intros env s. apply sameTimers_refl. Qed.

Lemma Mute_ret (a : A) : Mute (mret a).
Proof. intros env s. apply silent_nil. Qed.

Lemma Quiet_throw e : Quiet (@throw A e).
Proof. intros env s. apply sameTimers_refl. Qed.

Lemma Mute_throw e : Mute (@throw A e).
Proof. intros env s. apply silent_nil. Qed.

Lemma Timed_Quiet (m : M A) : Quiet m -> Timed m.
Proof. intros H env s. left. apply H. Qed.

End Closure.

Lemma Quiet_call : Quiet call.
Proof. intros env s. now repeat split. Qed.

Lemma Mute_call : Mute call.
Proof. intros env s. apply silent_nil. Qed.

Lemma Quiet_emit e : Quiet (emit e).
Proof. intros env s. apply sameTimers_refl. Qed.

Lemma Mute_emit e : isDelivery e = false -> Mute (emit e).
Proof. intros H env s. now apply silent_one. Qed.

Lemma Quiet_get : Quiet get.
Proof. intros env s. apply sameTimers_refl. Qed.

Lemma Mute_get : Mute get.
Proof. intros env s. apply silent_nil. Qed.

Lemma Quiet_ask : Quiet ask.
Proof. intros env s. apply sameTimers_refl. Qed.

Lemma Mute_ask : Mute ask.
Proof. intros env s. apply silent_nil. Qed.

Lemma Quiet_setTable f : Quiet (setTable f).
Proof. intros env s. now repeat split. Qed.

Lemma Mute_modify f : Mute (modify f).
Proof. intros env s. apply silent_nil. Qed.

Lemma Mute_setInterval grps message ms : Mute (setInterval grps message ms).
Proof. intros env s. apply silent_nil. Qed.

Lemma Quiet_respond msg : Quiet (respond msg).
Proof.
  intros env s. unfold stateOf. rewrite respond_run. now repeat split.
Qed.

Lemma Mute_respond msg : Mute (respond msg).
Proof.
  intros env s. unfold traceOf. rewrite respond_run. now apply silent_one.
Qed.

Lemma Quiet_sendDirect peer msg : Quiet (sendDirect peer msg).
Proof.
  intros env s. unfold stateOf. rewrite sendDirect_run. now repeat split.
Qed.

Lemma Mute_sendDirect peer msg : Mute (sendDirect peer msg).
Proof.
  intros env s. unfold traceOf. rewrite sendDirect_run.
  now apply silent_one.
Qed.

Lemma Quiet_sendMessageToGroup g msg : Quiet (sendMessageToGroup g msg).
Proof. intros env s. now repeat split. Qed.

Lemma Quiet_sleep ms : Quiet (sleep ms).
Proof. intros env s. apply sameTimers_refl. Qed.

Lemma Quiet_getMe : Quiet getMe.
Proof.
  unfold getMe. apply Quiet_bind; [apply Quiet_call | intros r].
  apply Quiet_bind; [apply Quiet_emit | intros _].
  destruct r; [apply Quiet_throw |].
  apply Quiet_bind; [apply Quiet_ask | intros; apply Quiet_ret].
Qed.

Lemma Mute_getMe : Mute getMe.
Proof.
  unfold getMe. apply Mute_bind; [apply Mute_call | intros r].
  apply Mute_bind; [now apply Mute_emit | intros _].
  destruct r; [apply Mute_throw |].
  apply Mute_bind; [apply Mute_ask | intros; apply Mute_ret].
Qed.

Lemma Quiet_sendLoop message grps : Quiet (sendLoop message grps).
Proof.
  induction grps as [| g rest IH]; cbn [sendLoop]; [apply Quiet_ret |].
  destruct (truthy (trim g)); [| exact IH].
  apply Quiet_bind; [apply Quiet_sendMessageToGroup | intros _].
  apply Quiet_bind; [| intros _; exact IH].
  destruct rest; [apply Quiet_ret | apply Quiet_sleep].
Qed.

Lemma Quiet_tickLoop message grps : Quiet (tickLoop message grps).
Proof.
  induction grps as [| g rest IH]; cbn [tickLoop]; [apply Quiet_ret |].
  apply Quiet_bind; [apply Quiet_sendMessageToGroup | intros _].
  apply Quiet_bind; [| intros _; exact IH].
  destruct rest; [apply Quiet_ret | apply Quiet_sleep].
Qed.

Lemma createAutoSendTimer_run grps info message env s :
  Bot.createAutoSendTimer grps info message env s
  = (Returned (nextTimer s),
     pushed (nextTimer s)
            (registered (filterTruthy (List.map trim grps)) message
                        (intervalMs info) s),
     []).
Proof. reflexivity. Qed.

Lemma created_by_timer grps message ms s :
  created s (pushed (nextTimer s) (registered grps message ms s)).
Proof. eexists. cbn. repeat split; reflexivity. Qed.

Lemma Timed_createAutoSendTimer grps info message :
  Timed (Bot.createAutoSendTimer grps info message).
Proof.
  intros env s. rewrite createAutoSendTimer_run. right; left.
  apply created_by_timer.
Qed.

Lemma Mute_createAutoSendTimer grps info message :
  Mute (Bot.createAutoSendTimer grps info message).
Proof. intros env s. apply silent_nil. Qed.

Lemma clear_all_live ids : forall s,
  liveTimers (fold_left (fun acc id => clearInterval id acc) ids s)
  = List.filter (fun t => negb (existsb (Nat.eqb (timerId t)) ids))
                (liveTimers s).
Proof.
  induction ids as [| id ids IH]; intros s; cbn [fold_left existsb].
  - generalize (liveTimers s) as l.
    induction l as [| t l IHl]; simpl; [reflexivity | now f_equal].
  - rewrite IH. cbn [clearInterval liveTimers].
    generalize (liveTimers s) as l.
    induction l as [| t l IHl]; simpl; [reflexivity |].
    destruct (Nat.eqb (timerId t) id); simpl; [exact IHl |].
    destruct (existsb _ ids); simpl; [exact IHl | now f_equal].
Qed.

Lemma clear_all_next ids : forall s,
  nextTimer (fold_left (fun acc id => clearInterval id acc) ids s)
  = nextTimer s.
Proof.
  induction ids as [| id ids IH]; intros s; cbn [fold_left];
    [reflexivity | now rewrite IH].
Qed.

Lemma cleared_by_stop s : cleared s (stopped s).
Proof.
  unfold cleared, stopped. cbn.
  rewrite clear_all_live, clear_all_next. now repeat split.
Qed.

Lemma Timed_stopTimers : Timed stopTimers.
Proof. intros env s. right; right. apply cleared_by_stop. Qed.

Lemma Quiet_updateWizard key f : Quiet (Bot.updateWizard key f).
Proof. apply Quiet_setTable. Qed.

Lemma Mute_updateWizard key f : Mute (Bot.updateWizard key f).
Proof. apply Mute_modify. Qed.

Lemma Quiet_ignore {A} (a : A) : Quiet (Bot.ignore a).
Proof. apply Quiet_ret. Qed.

Lemma Mute_ignore {A} (a : A) : Mute (Bot.ignore a).
Proof. apply Mute_ret. Qed.

(** Computations built from quiet parts are quiet; likewise for mute
    parts. *)
Ltac quiet :=
  repeat first
    [ apply Quiet_ret | apply Quiet_throw | apply Quiet_ignore
    | apply Quiet_respond | apply Quiet_sendDirect | apply Quiet_getMe
    | apply Quiet_sendLoop | apply Quiet_tickLoop
    | apply Quiet_sendMessageToGroup | apply Quiet_updateWizard
    | apply Quiet_setTable | apply Quiet_sleep | apply Quiet_get
    | apply Quiet_bind; [| intros ?]
    | apply Quiet_tryCatch; [| intros ?]
    | match goal with
      | |- Quiet (if ?b then _ else _) => destruct b
      | |- Quiet (match ?x with _ => _ end) => destruct x
      end ].

Ltac mute :=
  repeat first
    [ apply Mute_ret | apply Mute_throw | apply Mute_ignore
    | apply Mute_respond | apply Mute_sendDirect | apply Mute_getMe
    | apply Mute_createAutoSendTimer | apply Mute_updateWizard
    | apply Mute_modify | apply Mute_setInterval | apply Mute_get
    | apply Mute_bind; [| intros ?]
    | apply Mute_tryCatch; [| intros ?]
    | match goal with
      | |- Mute (if ?b then _ else _) => destruct b
      | |- Mute (match ?x with _ => _ end) => destruct x
      end ].

Ltac timed_leaf :=
  first
    [ solve [apply Timed_Quiet; quiet]
    | solve [apply Timed_bind_r;
             [apply Timed_createAutoSendTimer | intros ?; quiet]]
    | solve [apply Timed_tryCatch;
             [apply Timed_bind_r; [apply Timed_stopTimers | intros ?; quiet]
             | intros ?; quiet]] ].

Ltac timed :=
  repeat first
    [ timed_leaf
    | match goal with
      | |- Timed (if ?b then _ else _) => destruct b
      | |- Timed (match ?x with _ => _ end) => destruct x
      end ].

Lemma Mute_wizard key w txt :
  Mute (Bot.processAutosendWizardInput key w txt).
Proof. unfold Bot.processAutosendWizardInput. cbv zeta. mute. Qed.

Lemma Timed_wizard key w txt :
  Timed (Bot.processAutosendWizardInput key w txt).
Proof. unfold Bot.processAutosendWizardInput. cbv zeta. timed. Qed.

Lemma Timed_dispatch m : Timed (Bot.dispatch m).
Proof. unfold Bot.dispatch. cbv zeta. timed. Qed.

Lemma dispatch_quiet_or_mute m :
  Quiet (Bot.dispatch m) \/ Mute (Bot.dispatch m).
Proof.
  unfold Bot.dispatch. cbv zeta.
  repeat match goal with
         | |- Quiet (if ?b then _ else _) \/ _ => destruct b
         | |- Quiet (match ?x with _ => _ end) \/ _ => destruct x
         end;
    first [left; solve [quiet] | right; solve [mute]].
Qed.

Lemma Timed_handler m : Timed (Bot.handler m).
Proof.
  unfold Bot.handler. apply Timed_tryCatch; [| intros ?; quiet].
  destruct (out m); [timed |].
  apply Timed_bind_l; [apply Quiet_get | intros a].
  destruct (autosendStates a !! sender m);
    destruct (negb (startsWithSlash (text m)));
    try apply Timed_dispatch; [| timed].
  apply Timed_bind_r; [apply Timed_wizard | intros ?; quiet].
Qed.

(** A handler run that touches the timers delivers nothing. *)
Lemma handler_quiet_or_mute m env s :
  sameTimers s (stateOf (Bot.handler m env s))
  \/ silent (traceOf (Bot.handler m env s)).
Proof.
  assert (Hbody : forall a : Sys,
    let body :=
      match autosendStates a !! sender m with
      | Some existingAutosendState =>
          if negb (startsWithSlash (text m)) then
            Bot.processAutosendWizardInput (sender m) existingAutosendState
                                           (text m);;
            s' ← get;
            if Bot.wizardDone (sender m) s'
            then setTable (delete (sender m))
            else mret tt
          else Bot.dispatch m
      | None =>
          if negb (startsWithSlash (text m)) then mret tt
          else Bot.dispatch m
      end in
    Quiet body \/ Mute body).
  { intros a.
    destruct (autosendStates a !! sender m);
      destruct (negb (startsWithSlash (text m))); cbv zeta;
      try apply dispatch_quiet_or_mute.
    - right. apply Mute_bind; [apply Mute_wizard | intros ?; mute].
    - left. quiet. }
  unfold Bot.handler, stateOf, traceOf. rewrite tryCatch_run.
  destruct (out m); [left; apply sameTimers_refl |].
  rewrite bind_run. cbn [get]. cbv beta iota.
  specialize (Hbody s). cbv zeta in Hbody.
  match type of Hbody with
  | Quiet ?b \/ _ => set (body := b) in *
  end.
  assert (Hat : sameTimers s (stateOf (body env s))
                \/ silent (traceOf (body env s))).
  { destruct Hbody as [Q | Mu]; [left; apply Q | right; apply Mu]. }
  unfold stateOf, traceOf in Hat.
  destruct (body env s) as [[[a | e] s1] t1]; cbn in Hat |- *;
    rewrite ?app_nil_r; exact Hat.
Qed.

Lemma Quiet_fireTimer id : Quiet (Bot.fireTimer id).
Proof. unfold Bot.fireTimer. quiet. Qed.

Lemma Timed_react i : Timed (Bot.react i).
Proof.
  destruct i; cbn [Bot.react];
    [apply Timed_handler | apply Timed_Quiet, Quiet_fireTimer].
Qed.

(** ** Timers: the registry invariant *)

Lemma registryOk_initial : registryOk initial.
Proof. split; intros ? []. Qed.

Lemma cleared_live_empty s s' :
  registryOk s -> cleared s s' -> liveTimers s' = [].
Proof.
  intros [Hreg _] (_ & -> & _).
  induction (liveTimers s) as [| t l IH]; [reflexivity |].
  cbn [List.filter].
  assert (Ht : existsb (Nat.eqb (timerId t)) (activeTimers s) = true).
  { apply existsb_exists. exists (timerId t).
    split; [apply Hreg; now left | apply Nat.eqb_refl]. }
  rewrite Ht. cbn [negb]. apply IH. intros t' Ht'. apply Hreg. now right.
Qed.

Lemma registryOk_step s s' :
  registryOk s -> TimerStep s s' -> registryOk s'.
Proof.
  intros Hok [(A & L & N) | [(tm & A & L & I & N) | Hc]].
  - destruct Hok as [H1 H2]. split.
    + intros t Ht. rewrite A. apply H1. now rewrite <- L.
    + intros id Hid. rewrite N. apply H2. now rewrite <- A.
  - destruct Hok as [H1 H2]. split.
    + intros t Ht. rewrite A. rewrite L in Ht.
      apply in_or_app. apply in_app_or in Ht as [Ht | [<- | []]];
        [left; now apply H1 | right; left; now rewrite I].
    + intros id Hid. rewrite N. rewrite A in Hid.
      apply in_app_or in Hid as [Hid | [<- | []]];
        [specialize (H2 _ Hid) |]; lia.
  - pose proof (cleared_live_empty _ _ Hok Hc) as Hl.
    destruct Hc as (A & _ & _). split.
    + rewrite Hl. intros ? [].
    + rewrite A. intros ? [].
Qed.

Lemma retired_step id s s' :
  retired id s -> TimerStep s s' -> retired id s'.
Proof.
  intros [Hlt Hnot] [(A & L & N) | [(tm & A & L & I & N) | (A & L & N)]].
  - split; [now rewrite N | now rewrite L].
  - split; [rewrite N; lia |]. rewrite L. intros t Ht.
    apply in_app_or in Ht as [Ht | [<- | []]]; [now apply Hnot | lia].
  - split; [now rewrite N |]. rewrite L. intros t Ht.
    apply filter_In in Ht as [Ht _]. now apply Hnot.
Qed.

Lemma reactAll_cons env s i rest :
  Bot.reactAll env s (i :: rest)
  = (fst (Bot.reactAll env (stateOf (Bot.react i env s)) rest),
     traceOf (Bot.react i env s)
     ++ snd (Bot.reactAll env (stateOf (Bot.react i env s)) rest)).
Proof.
  cbn [Bot.reactAll]. unfold run, stateOf, traceOf.
  destruct (Bot.react i env s) as [[r s1] t1]. cbn [fst snd].
  now destruct (Bot.reactAll env s1 rest).
Qed.

Lemma reactAll_registryOk env inputs : forall s,
  registryOk s -> registryOk (fst (Bot.reactAll env s inputs)).
Proof.
  induction inputs as [| i rest IH]; intros s H; [exact H |].
  rewrite reactAll_cons. cbn [fst]. apply IH.
  apply (registryOk_step s); [exact H | apply Timed_react].
Qed.

Lemma reactAll_retired id env inputs : forall s,
  retired id s -> retired id (fst (Bot.reactAll env s inputs)).
Proof.
  induction inputs as [| i rest IH]; intros s H; [exact H |].
  rewrite reactAll_cons. cbn [fst]. apply IH.
  apply (retired_step id s); [exact H | apply Timed_react].
Qed.

Lemma reactAll_monotone env inputs : forall s id,
  (id < nextTimer s)%nat ->
  (id < nextTimer (fst (Bot.reactAll env s inputs)))%nat.
Proof.
  induction inputs as [| i rest IH]; intros s id H; [exact H |].
  rewrite reactAll_cons. cbn [fst]. apply IH.
  destruct (Timed_react i env s)
    as [(_ & _ & N) | [(tm & _ & _ & _ & N) | (_ & _ & N)]];
    rewrite N; lia.
Qed.

(** A retired timer does not fire. *)
Lemma fireTimer_retired id env s :
  retired id s -> run (Bot.fireTimer id) env s = (s, []).
Proof.
  intros [_ Hnot]. unfold run, Bot.fireTimer. rewrite bind_run. cbn [get].
  cbv beta iota.
  destruct (List.find _ (liveTimers s)) as [t |] eqn:E; [| reflexivity].
  apply find_some in E as [Hin Heq]. apply Nat.eqb_eq in Heq.
  now destruct (Hnot t Hin).
Qed.

Lemma stop_command m env s :
  isCommand (u "/stoptimers") m ->
  cleared s (stateOf (Bot.handler m env s))
  /\ silent (traceOf (Bot.handler m env s)).
Proof.
  intros [Ho Hc].
  pose proof (command_starts_with_slash _ _ Hc) as Hs.
  rewrite (handler_command _ _ _ Ho Hs), tryCatch_run.
  unfold Bot.dispatch. cbv zeta. rewrite Hc. eval_eqs. cbn [andb].
  rewrite tryCatch_run, bind_run.
  change (stopTimers env s) with (Returned tt, stopped s, @nil Event).
  cbv beta iota. rewrite respond_run.
  pose proof (cleared_by_stop s) as (A & L & N).
  destruct (failure env (calls (stopped s))); cbn;
    (split; [repeat split; assumption |]);
    intros e [<- | []]; reflexivity.
Qed.

Lemma run_state {A} (m : M A) env s : fst (run m env s) = stateOf (m env s).
Proof. unfold run, stateOf. now destruct (m env s) as [[r s1] t1]. Qed.

Lemma run_trace {A} (m : M A) env s : snd (run m env s) = traceOf (m env s).
Proof. unfold run, traceOf. now destruct (m env s) as [[r s1] t1]. Qed.

(** A timer step that lengthens the registry by one handle is the
    creation of a job under the next fresh handle. *)
Lemma step_that_registers s s' id :
  TimerStep s s' -> activeTimers s' = activeTimers s ++ [id] ->
  id = nextTimer s
  /\ (exists tm, liveTimers s' = liveTimers s ++ [tm] /\ timerId tm = id)
  /\ nextTimer s' = S (nextTimer s).
Proof.
  intros [(A & _ & _) | [(tm & A & L & I & N) | (A & _ & _)]] H.
  - rewrite A in H. apply (f_equal (@List.length nat)) in H.
    rewrite length_app in H. cbn in H. lia.
  - rewrite A in H. apply app_inv_head in H. injection H as <-.
    split; [reflexivity |]. split; [now exists tm | exact N].
  - rewrite A in H. now destruct (activeTimers s).
Qed.

(** ** The wizard *)

Lemma updateWizard_run key f env s :
  Bot.updateWizard key f env s
  = (Returned tt, withTable (alter f key) s, []).
Proof. reflexivity. Qed.

(** Replies of the wizard: the state moves by one call. *)
Lemma respond_state msg env s : stateOf (respond msg env s) = bump s.
Proof. unfold stateOf. now rewrite respond_run. Qed.

(** What a wizard step does to the table: the entry of the sender stays
    in place, it is marked done only by a step that returns, and the
    other entries are not touched. *)
Lemma wizard_step key w txt env s :
  autosendStates s !! key = Some w ->
  done w = false ->
  exists res s1 t1 w1,
    Bot.processAutosendWizardInput key w txt env s = (res, s1, t1)
    /\ autosendStates s1 !! key = Some w1
    /\ (done w1 = true -> res = Returned tt)
    /\ (forall k, k <> key -> autosendStates s1 !! k = autosendStates s !! k).
Proof.
  intros Hw Hd.
  assert (Hplain : forall msg,
    exists res s1 t1 w1,
      respond msg env s = (res, s1, t1)
      /\ autosendStates s1 !! key = Some w1
      /\ (done w1 = true -> res = Returned tt)
      /\ (forall k, k <> key ->
                    autosendStates s1 !! k = autosendStates s !! k)).
  { intros msg. rewrite respond_run. do 3 eexists. exists w.
    split; [reflexivity |]. cbn. split; [exact Hw |].
    split; [congruence | reflexivity]. }
  assert (Hupd : forall f msg,
    done (f w) = false ->
    exists res s1 t1 w1,
      (Bot.updateWizard key f;; respond msg) env s = (res, s1, t1)
      /\ autosendStates s1 !! key = Some w1
      /\ (done w1 = true -> res = Returned tt)
      /\ (forall k, k <> key ->
                    autosendStates s1 !! k = autosendStates s !! k)).
  { intros f msg Hf. rewrite bind_run, updateWizard_run. cbv beta iota.
    rewrite respond_run. do 3 eexists. exists (f w).
    split; [reflexivity |]. cbn.
    split; [now rewrite lookup_alter_eq, Hw |].
    split; [congruence |]. intros k Hk. now rewrite lookup_alter_ne. }
  assert (Hfin : forall (pre : M unit) s0 t0 msg,
    pre env s = (Returned tt, s0, t0) ->
    autosendStates s0 = autosendStates s ->
    exists res s1 t1 w1,
      (pre;; respond msg;; Bot.updateWizard key Bot.setDone) env s
        = (res, s1, t1)
      /\ autosendStates s1 !! key = Some w1
      /\ (done w1 = true -> res = Returned tt)
      /\ (forall k, k <> key ->
                    autosendStates s1 !! k = autosendStates s !! k)).
  { intros pre s0 t0 msg Hpre Htab.
    rewrite bind_run, Hpre. cbv beta iota.
    rewrite bind_run, respond_run.
    destruct (failure env (calls s0)) as [e |].
    - do 3 eexists. exists w. split; [reflexivity |]. cbn. rewrite Htab.
      split; [exact Hw |]. split; [congruence | reflexivity].
    - cbv beta iota. rewrite updateWizard_run. do 3 eexists.
      exists (Bot.setDone w). split; [reflexivity |]. cbn. rewrite Htab.
      split; [now rewrite lookup_alter_eq, Hw |].
      split; [reflexivity |]. intros k Hk. now rewrite lookup_alter_ne. }
  unfold Bot.processAutosendWizardInput. cbv zeta.
  destruct (step w).
  - destruct (filterTruthy _) as [| g gs]; [apply Hplain |].
    now apply Hupd.
  - destruct (parseIntervalText _) as [info |]; [| apply Hplain].
    now apply Hupd.
  - destruct (negb (truthy (trim txt))); [apply Hplain |].
    destruct (default [] (groups w)) as [| g gs] eqn:Eg.
    + assert (Hbroken : exists res s1 t1 w1,
        (respond wizardBrokenText;; Bot.updateWizard key Bot.setDone) env s
          = (res, s1, t1)
        /\ autosendStates s1 !! key = Some w1
        /\ (done w1 = true -> res = Returned tt)
        /\ (forall k, k <> key ->
                      autosendStates s1 !! k = autosendStates s !! k)).
      { destruct (Hfin (mret tt) s [] wizardBrokenText eq_refl eq_refl)
          as (res & s1 & t1 & w1 & E & H).
        exists res, s1, t1, w1. split; [| exact H].
        rewrite bind_run in E. cbn [mret M_ret] in E. cbv beta iota in E.
        destruct ((respond wizardBrokenText;;
                   Bot.updateWizard key Bot.setDone) env s)
          as [[r0 s0] t0].
        exact E. }
      destruct (match intervalInfo w with
                | Some i => Some i
                | None => parseIntervalText (Some (Bot.intervalTextOr1h w))
                end); exact Hbroken.
    + destruct (match intervalInfo w with
                | Some i => Some i
                | None => parseIntervalText (Some (Bot.intervalTextOr1h w))
                end) as [i |].
      * assert (Hpre : (Bot.createAutoSendTimer (g :: gs) i (trim txt);;
                        mret tt) env s
                       = (Returned tt,
                          pushed (nextTimer s)
                                 (registered
                                    (filterTruthy (List.map trim (g :: gs)))
                                    (trim txt) (intervalMs i) s), []))
          by reflexivity.
        destruct (Hfin _ _ _ (startedText (List.length (g :: gs)) (label i))
                       Hpre eq_refl)
          as (res & s1 & t1 & w1 & E & H).
        exists res, s1, t1, w1. split; [| exact H].
        rewrite <- E. rewrite !bind_run, createAutoSendTimer_run.
        cbn [mret M_ret]. cbv beta iota.
        now destruct ((respond _;; Bot.updateWizard key Bot.setDone) env _)
          as [[r0 s0] t0].
      * destruct (Hfin (mret tt) s [] wizardBrokenText eq_refl eq_refl)
          as (res & s1 & t1 & w1 & E & H).
        exists res, s1, t1, w1. split; [| exact H].
        rewrite bind_run in E. cbn [mret M_ret] in E. cbv beta iota in E.
        destruct ((respond wizardBrokenText;;
                   Bot.updateWizard key Bot.setDone) env s)
          as [[r0 s0] t0].
        exact E.
Qed.

(** Without an entry in the table, a text that is not a command is
    ignored. *)
Lemma ignored_without_entry env s m :
  autosendStates s !! sender m = None ->
  startsWithSlash (text m) = false ->
  run (Bot.handler m) env s = (s, []).
Proof.
  intros Hn Hs. unfold run, Bot.handler. rewrite tryCatch_run.
  destruct (out m); [reflexivity |].
  rewrite bind_run. cbn [get]. cbv beta iota. rewrite Hn, Hs. reflexivity.
Qed.

(** The handler on a text for the wizard: the step, then the removal of
    an entry marked done. *)
Lemma handler_wizard_run env s m w :
  tableOk s ->
  out m = false ->
  startsWithSlash (text m) = false ->
  autosendStates s !! sender m = Some w ->
  exists res s1 t1 w1,
    Bot.processAutosendWizardInput (sender m) w (text m) env s
    = (res, s1, t1)
    /\ autosendStates s1 !! sender m = Some w1
    /\ (forall k, k <> sender m ->
                  autosendStates s1 !! k = autosendStates s !! k)
    /\ Bot.wizardDone (sender m) s1 = done w1
    /\ run (Bot.handler m) env s
       = (if done w1 then withTable (delete (sender m)) s1 else s1, t1).
Proof.
  intros Hok Ho Hs Hw.
  destruct (wizard_step (sender m) w (text m) env s Hw (Hok _ _ Hw))
    as (res & s1 & t1 & w1 & E & Hw1 & Hdone & Hother).
  exists res, s1, t1, w1.
  assert (Hd : Bot.wizardDone (sender m) s1 = done w1)
    by (unfold Bot.wizardDone; now rewrite Hw1).
  repeat (split; [assumption |]).
  unfold run, Bot.handler. rewrite tryCatch_run, Ho, bind_run.
  cbn [get]. cbv beta iota. rewrite Hw, Hs. cbn [negb].
  rewrite bind_run, E.
  destruct res as [[] | e].
  - cbv beta iota. rewrite bind_run. cbn [get]. cbv beta iota. rewrite Hd.
    destruct (done w1); cbn; now rewrite !app_nil_r.
  - cbn. rewrite app_nil_r.
    destruct (done w1) eqn:Ed; [now specialize (Hdone eq_refl) |].
    reflexivity.
Qed.

(** C10. While a sender has an entry in the wizard table, a text of
    theirs that does not start with a slash goes to the wizard step and
    nowhere else: the handler does what the step does and delivers
    nothing.  The entry is removed exactly when the step has marked it
    done, the entries of other senders are not touched, and once the
    entry is gone such texts are ignored again. *)
Theorem wizard_routing env s m w :
  tableOk s ->
  out m = false ->
  startsWithSlash (text m) = false ->
  autosendStates s !! sender m = Some w ->
  let step := Bot.processAutosendWizardInput (sender m) w (text m) env s in
  let s1 := stateOf step in
  let s' := fst (run (Bot.handler m) env s) in
  snd (run (Bot.handler m) env s) = traceOf step
  /\ silent (traceOf step)
  /\ (Bot.wizardDone (sender m) s1 = true ->
      s' = withTable (delete (sender m)) s1)
  /\ (Bot.wizardDone (sender m) s1 = false -> s' = s1)
  /\ (autosendStates s' !! sender m = None
      <-> Bot.wizardDone (sender m) s1 = true)
  /\ (forall k, k <> sender m ->
                autosendStates s' !! k = autosendStates s !! k)
  /\ (autosendStates s' !! sender m = None ->
      forall env2 m2,
        sender m2 = sender m -> startsWithSlash (text m2) = false ->
        run (Bot.handler m2) env2 s' = (s', [])).
Proof.
  intros Hok Ho Hs Hw step s1 s'.
  pose proof (Mute_wizard (sender m) w (text m) env s) as Hmute.
  destruct (handler_wizard_run env s m w Hok Ho Hs Hw)
    as (res & s1' & t1 & w1 & E & Hw1 & Hother & Hd & Hrun).
  subst step s1 s'. unfold stateOf, traceOf in *. rewrite Hrun, E in *.
  cbn [fst snd] in *. rewrite Hd.
  split; [reflexivity |]. split; [exact Hmute |].
  assert (Hlook : autosendStates
                    (if done w1
                     then withTable (delete (sender m)) s1' else s1')
                  !! sender m = None
                  <-> done w1 = true).
  { destruct (done w1) eqn:Ed.
    - cbn. now rewrite lookup_delete_eq.
    - rewrite Hw1. split; discriminate. }
  split; [now intros -> |]. split; [now intros -> |].
  split; [exact Hlook |]. split.
  - intros k Hk. rewrite <- (Hother k Hk).
    destruct (done w1); [| reflexivity].
    cbn. now rewrite lookup_delete_ne.
  - intros Hgone env2 m2 Hsame Hs2. apply ignored_without_entry;
      [now rewrite Hsame | exact Hs2].
Qed.

(** The third step of a wizard: the text becomes the message of a new
    job and the entry goes away. *)
Lemma wizard_routing_witness :
  let env := {| failure := fun _ => None; me := mkAccount [] [] 0;
                dialogs := [] |} in
  let w := {| step := StepMessage; groups := Some [u "@a"];
              intervalText := Some (u "5m");
              intervalInfo := parseIntervalText (Some (u "5m"));
              done := false |} in
  let s := withTable (insert 7%Z w) initial in
  let m := mkMessage false (u "hello") 7 in
  autosendStates (fst (run (Bot.handler m) env s)) !! 7%Z = None
  /\ run (Bot.handler m) env (fst (run (Bot.handler m) env s))
     = (fst (run (Bot.handler m) env s), []).
Proof.
  intros env w s m.
  assert (Hok : tableOk s).
  { intros k w0 H. unfold s in H. cbn in H.
    destruct (decide (k = 7%Z)) as [-> | Hk].
    - rewrite lookup_insert_eq in H. now injection H as <-.
    - rewrite lookup_insert_ne in H by congruence.
      now rewrite lookup_empty in H. }
  assert (Hw : autosendStates s !! sender m = Some w)
    by apply lookup_insert_eq.
  destruct (wizard_routing env s m w Hok eq_refl eq_refl Hw)
    as (_ & _ & _ & _ & Hiff & _ & Hafter).
  assert (Hgone : autosendStates (fst (run (Bot.handler m) env s))
                  !! sender m = None).
  { apply Hiff. vm_compute. reflexivity. }
  split; [exact Hgone |].
  now apply (Hafter Hgone env m).
Defined.

(** ** The lists the handlers build are lists of targets *)

Lemma truthy_trimStart s :
  truthy (trimStart s) = existsb (fun c => negb (isWhiteSpace c)) s.
Proof.
  induction s as [| c r IH]; cbn; [reflexivity |].
  destruct (isWhiteSpace c); cbn; [exact IH | reflexivity].
Qed.

Lemma existsb_trimStart p s :
  (forall c, p c = true -> isWhiteSpace c = false) ->
  existsb p (trimStart s) = existsb p s.
Proof.
  intros Hp. induction s as [| c r IH]; cbn; [reflexivity |].
  destruct (isWhiteSpace c) eqn:E; cbn; [| reflexivity].
  rewrite IH. destruct (p c) eqn:Ep; [| reflexivity].
  apply Hp in Ep. congruence.
Qed.

Lemma truthy_rev (s : jsstring) : truthy (rev s) = truthy s.
Proof.
  destruct s as [| c r]; [reflexivity |]. cbn.
  now destruct (rev r).
Qed.

Lemma existsb_rev {A} (p : A -> bool) l : existsb p (rev l) = existsb p l.
Proof.
  induction l as [| x l IH]; cbn; [reflexivity |].
  rewrite existsb_app, IH. cbn. rewrite orb_false_r. apply orb_comm.
Qed.

(** An entry is a target when one of its units is not white space. *)
Lemma nonBlank_exists s :
  nonBlank s = existsb (fun c => negb (isWhiteSpace c)) s.
Proof.
  unfold nonBlank, trim, trimEnd.
  rewrite truthy_rev, truthy_trimStart, existsb_rev.
  apply existsb_trimStart. intros c H. now apply negb_true_iff.
Qed.

Lemma trimStart_head s c r :
  trimStart s = c :: r -> isWhiteSpace c = false.
Proof.
  induction s as [| d s IH]; cbn; [discriminate |].
  destruct (isWhiteSpace d) eqn:E; [exact IH |].
  intros H. injection H as <- _. exact E.
Qed.

(** A trimmed text is empty or ends with a unit that is not white
    space. *)
Lemma trim_last s :
  trim s = [] \/ exists y c, trim s = y ++ [c] /\ isWhiteSpace c = false.
Proof.
  unfold trim, trimEnd.
  destruct (trimStart (rev (trimStart s))) as [| c r] eqn:E; [now left |].
  right. exists (rev r), c. split; [reflexivity |].
  now apply trimStart_head in E.
Qed.

Lemma split_nonempty sep s : split sep s <> [].
Proof.
  destruct s as [| c r]; cbn; [discriminate |].
  destruct (c =? sep); [discriminate |].
  now destruct (split sep r).
Qed.

Lemma endsNonBlank_cons g rest :
  rest <> [] -> endsNonBlank (g :: rest) = endsNonBlank rest.
Proof. now destruct rest. Qed.

Lemma split_ends_nonblank y c :
  isWhiteSpace c = false -> endsNonBlank (split 32 (y ++ [c])) = true.
Proof.
  intros Hc.
  assert (Hsp : (c =? 32) = false).
  { apply N.eqb_neq. intros ->. discriminate. }
  induction y as [| d y IH].
  - cbn [app split]. rewrite Hsp. cbn [endsNonBlank].
    rewrite nonBlank_exists. cbn. now rewrite Hc.
  - cbn [app split]. destruct (d =? 32).
    + rewrite endsNonBlank_cons; [exact IH | apply split_nonempty].
    + destruct (split 32 (y ++ [c])) as [| p [| p' ps]] eqn:E.
      * now apply split_nonempty in E.
      * cbn [endsNonBlank] in IH |- *. rewrite nonBlank_exists in *.
        cbn [existsb]. rewrite IH. apply orb_true_r.
      * exact IH.
Qed.

Lemma filterTruthy_ends l :
  l <> [] -> endsNonBlank l = true ->
  filterTruthy l <> [] /\ endsNonBlank (filterTruthy l) = true.
Proof.
  induction l as [| g [| g' r] IH]; intros Hne H; [congruence | |].
  - cbn [endsNonBlank] in H. assert (Hg : truthy g = true).
    { rewrite nonBlank_exists in H. destruct g; [discriminate | reflexivity]. }
    unfold filterTruthy. cbn. rewrite Hg. now split.
  - rewrite endsNonBlank_tail in H.
    destruct (IH ltac:(discriminate) H) as [Hf He].
    unfold filterTruthy in *. cbn [List.filter] in *.
    destruct (truthy g); [| now split].
    split; [discriminate |].
    now rewrite endsNonBlank_cons.
Qed.

(** The list that [/sendmulti] and [/autosend] of src/bot.js split off
    the left side of a text ends with a target, or is empty. *)
Lemma bot_groups_end x :
  endsNonBlank (filterTruthy (split 32 (trim x))) = true.
Proof.
  destruct (trim_last x) as [-> | (y & c & -> & Hc)]; [reflexivity |].
  apply filterTruthy_ends; [apply split_nonempty |].
  now apply split_ends_nonblank.
Qed.

Lemma splitWs_pieces s : forall b,
  Forall (fun p => forallb (fun c => negb (isWhiteSpace c)) p = true)
         (splitWsFrom b s).
Proof.
  induction s as [| c r IH]; intros b; cbn.
  - now repeat constructor.
  - destruct (isWhiteSpace c) eqn:E.
    + destruct b; [apply IH | constructor; [reflexivity | apply IH]].
    + specialize (IH false).
      destruct (splitWsFrom false r) as [| p ps].
      * repeat constructor. cbn. now rewrite E.
      * inversion IH; subst. constructor; [| assumption].
        cbn. now rewrite E.
Qed.

(** In the allow-list variant every entry of the list is a target. *)
Lemma gated_groups_targets x :
  forallb nonBlank (filterTruthy (splitWs x)) = true.
Proof.
  unfold splitWs, filterTruthy. apply forallb_forall. intros p Hp.
  apply filter_In in Hp as [Hin Ht].
  pose proof (splitWs_pieces x false) as Hall.
  rewrite List.Forall_forall in Hall. specialize (Hall p).
  rewrite nonBlank_exists. destruct p as [| c r]; [discriminate |].
  assert (Hc : forallb (fun c => negb (isWhiteSpace c)) (c :: r) = true).
  { apply Hall. exact Hin. }
  cbn in Hc |- *. apply andb_true_iff in Hc as [-> _]. reflexivity.
Qed.

(** ** [/autosend]: what the timer of a job is made of *)

Lemma join_cons sep (a b : jsstring) l :
  join sep (a :: b :: l) = a ++ sep ++ join sep (b :: l).
Proof. reflexivity. Qed.

Lemma join_split sep s : join [sep] (split sep s) = s.
Proof.
  induction s as [| c r IH]; [reflexivity |].
  cbn [split]. destruct (c =? sep) eqn:E.
  - apply N.eqb_eq in E. subst c.
    destruct (split sep r) as [| p ps] eqn:Es;
      [now apply split_nonempty in Es |].
    rewrite join_cons, IH. reflexivity.
  - destruct (split sep r) as [| p [| p' ps]] eqn:Es.
    + now apply split_nonempty in Es.
    + cbn in IH |- *. now rewrite IH.
    + rewrite join_cons in IH |- *. cbn [app] in IH |- *. now rewrite IH.
Qed.

Lemma no_space_in_autosend : ~ In 32 (u "/autosend").
Proof. cbn. intuition discriminate. Qed.

Lemma no_pipe_in_autosend : ~ In 124 (u "/autosend").
Proof. cbn. intuition discriminate. Qed.

(** A well-formed [/autosend <targets>|<interval>|<message>] registers
    one timer whose delay is the parsed interval, whose targets are the
    trimmed targets of the text and whose message is the trimmed
    message, and answers with the confirmation; nothing else happens. *)
Lemma autosend_registers env s who rest itv msg info :
  ~ In 124 rest -> ~ In 124 itv ->
  parseIntervalText (Some (trim itv)) = Some info ->
  filterTruthy (split 32 (trim rest)) <> [] ->
  trim msg <> [] ->
  let m := mkMessage false
             (u "/autosend" ++ 32 :: rest ++ 124 :: itv ++ 124 :: msg)
             who in
  let grps := filterTruthy (split 32 (trim rest)) in
  let s1 := pushed (nextTimer s)
              (registered (filterTruthy (List.map trim grps)) (trim msg)
                          (intervalMs info) s) in
  run (Bot.handler m) env s
  = (bump s1,
     [Respond (startedText (List.length grps) (label info))
              (isNone (failure env (calls s)))]).
Proof.
  intros Hr Hi Hinfo Hg Hm m grps s1.
  assert (Hhd : hd [] (split 32 (text m)) = u "/autosend").
  { unfold m. cbn [text].
    now rewrite (split_app_sep 32 _ _ no_space_in_autosend). }
  assert (Hpipe : split 124 (text m)
                  = (u "/autosend" ++ 32 :: rest) :: itv :: split 124 msg).
  { unfold m. cbn [text].
    change (u "/autosend" ++ 32 :: rest ++ 124 :: itv ++ 124 :: msg)
      with (u "/autosend" ++ (32 :: rest) ++ 124 :: itv ++ 124 :: msg).
    rewrite app_assoc, split_app_sep, (split_app_sep _ _ _ Hi);
      [reflexivity |].
    intros Hin. apply in_app_or in Hin as [Hin | [Hin | Hin]];
      [now apply no_pipe_in_autosend | discriminate | contradiction]. }
  unfold run.
  rewrite (handler_command m env s eq_refl eq_refl), tryCatch_run.
  unfold Bot.dispatch. cbv zeta. rewrite Hhd, Hpipe.
  change (toLowerCase (u "/autosend")) with (u "/autosend").
  eval_eqs. cbn [andb hd nth skipn].
  change (drop 0 (split 124 msg)) with (split 124 msg).
  change (u "|") with [124]. rewrite join_split, removeFirst_prefix.
  change (trim (32 :: rest)) with (trim rest). subst s1 grps.
  destruct (split 124 msg) as [| p ps] eqn:Es;
    [now apply split_nonempty in Es |].
  cbn [List.length Nat.eqb Nat.ltb Nat.leb].
  rewrite Hinfo.
  destruct (filterTruthy (split 32 (trim rest))) as [| g gs];
    [congruence |].
  destruct (trim msg) as [| c r] eqn:Et; [congruence |].
  rewrite bind_run, createAutoSendTimer_run. cbv beta iota.
  rewrite respond_caught. reflexivity.
Qed.

(** ** The wizard table: its invariant *)

Section TableClosure.

Context {A B : Type}.

Lemma KeepsTable_bind (m : M A) (f : A -> M B) :
  KeepsTable m -> (forall a, KeepsTable (f a)) -> KeepsTable (m ≫= f).
Proof.
  intros Hm Hf env s. unfold stateOf. rewrite bind_run.
  pose proof (Hm env s) as H1. unfold stateOf in H1.
  destruct (m env s) as [[[a | e] s1] t1]; cbn in H1 |- *; [| exact H1].
  pose proof (Hf a env s1) as H2. unfold stateOf in H2.
  destruct (f a env s1) as [[r s2] t2]; cbn in H2 |- *. congruence.
Qed.

Lemma KeepsTable_tryCatch (m : M A) (h : jsstring -> M A) :
  KeepsTable m -> (forall e, KeepsTable (h e)) -> KeepsTable (tryCatch m h).
Proof.
  intros Hm Hh env s. unfold stateOf. rewrite tryCatch_run.
  pose proof (Hm env s) as H1. unfold stateOf in H1.
  destruct (m env s) as [[[a | e] s1] t1]; cbn in H1 |- *; [exact H1 |].
  pose proof (Hh e env s1) as H2. unfold stateOf in H2.
  destruct (h e env s1) as [[r s2] t2]; cbn in H2 |- *. congruence.
Qed.

Lemma KeepsTable_ret (a : A) : KeepsTable (mret a).
Proof. intros env s. reflexivity. Qed.

Lemma KeepsTable_throw e : KeepsTable (@throw A e).
Proof. intros env s. reflexivity. Qed.

End TableClosure.

Lemma KeepsTable_respond msg : KeepsTable (respond msg).
Proof. intros env s. unfold stateOf. now rewrite respond_run. Qed.

Lemma KeepsTable_sendDirect peer msg : KeepsTable (sendDirect peer msg).
Proof. intros env s. unfold stateOf. now rewrite sendDirect_run. Qed.

Lemma KeepsTable_sendMessageToGroup g msg :
  KeepsTable (sendMessageToGroup g msg).
Proof. intros env s. reflexivity. Qed.

Lemma KeepsTable_sleep ms : KeepsTable (sleep ms).
Proof. intros env s. reflexivity. Qed.

Lemma KeepsTable_getMe : KeepsTable getMe.
Proof.
  intros env s. unfold stateOf, getMe. rewrite bind_run. cbn [call].
  cbv beta iota. rewrite bind_run. cbn [emit]. cbv beta iota.
  destruct (failure env (calls s)); reflexivity.
Qed.

Lemma clear_all_table ids : forall s,
  autosendStates (fold_left (fun acc id => clearInterval id acc) ids s)
  = autosendStates s.
Proof.
  induction ids as [| id ids IH]; intros s; cbn [fold_left];
    [reflexivity | now rewrite IH].
Qed.

Lemma KeepsTable_stopTimers : KeepsTable stopTimers.
Proof. intros env s. cbn. apply clear_all_table. Qed.

Lemma KeepsTable_createAutoSendTimer grps info message :
  KeepsTable (Bot.createAutoSendTimer grps info message).
Proof. intros env s. reflexivity. Qed.

Lemma KeepsTable_sendLoop message grps : KeepsTable (sendLoop message grps).
Proof.
  induction grps as [| g rest IH]; cbn [sendLoop]; [apply KeepsTable_ret |].
  destruct (truthy (trim g)); [| exact IH].
  apply KeepsTable_bind; [apply KeepsTable_sendMessageToGroup | intros _].
  apply KeepsTable_bind; [| intros _; exact IH].
  destruct rest; [apply KeepsTable_ret | apply KeepsTable_sleep].
Qed.

Lemma KeepsTable_tickLoop message grps : KeepsTable (tickLoop message grps).
Proof.
  induction grps as [| g rest IH]; cbn [tickLoop]; [apply KeepsTable_ret |].
  apply KeepsTable_bind; [apply KeepsTable_sendMessageToGroup | intros _].
  apply KeepsTable_bind; [| intros _; exact IH].
  destruct rest; [apply KeepsTable_ret | apply KeepsTable_sleep].
Qed.

Lemma KeepsTable_ignore {A} (a : A) : KeepsTable (Bot.ignore a).
Proof. apply KeepsTable_ret. Qed.

Ltac keeps :=
  repeat first
    [ apply KeepsTable_ret | apply KeepsTable_throw | apply KeepsTable_ignore
    | apply KeepsTable_respond | apply KeepsTable_sendDirect
    | apply KeepsTable_getMe | apply KeepsTable_sendLoop
    | apply KeepsTable_sendMessageToGroup | apply KeepsTable_stopTimers
    | apply KeepsTable_createAutoSendTimer | apply KeepsTable_sleep
    | apply KeepsTable_bind; [| intros ?]
    | apply KeepsTable_tryCatch; [| intros ?]
    | match goal with
      | |- KeepsTable (if ?b then _ else _) => destruct b
      | |- KeepsTable (match ?x with _ => _ end) => destruct x
      end ].

(** A command leaves the table alone, or starts a wizard for its
    sender. *)
Lemma dispatch_table m :
  KeepsTable (Bot.dispatch m)
  \/ (forall env s,
         autosendStates (stateOf (Bot.dispatch m env s))
         = <[sender m := Bot.freshWizard]> (autosendStates s)).
Proof.
  unfold Bot.dispatch. cbv zeta.
  repeat match goal with
         | |- KeepsTable (if ?b then _ else _) \/ _ => destruct b
         | |- KeepsTable (match ?x with _ => _ end) \/ _ => destruct x
         end;
    first [left; solve [keeps] | right].
  intros env s. unfold stateOf. rewrite bind_run.
  change (setTable <[sender m:=Bot.freshWizard]> env s)
    with (Returned tt, withTable <[sender m:=Bot.freshWizard]> s,
          @nil Event).
  cbv beta iota. now rewrite respond_run.
Qed.

Lemma tableOk_initial : tableOk initial.
Proof. intros k w H. cbn in H. now rewrite lookup_empty in H. Qed.

(** The handler keeps the table free of entries marked done. *)
Lemma handler_tableOk m env s :
  tableOk s -> tableOk (fst (run (Bot.handler m) env s)).
Proof.
  intros Hok.
  assert (Hcmd : tableOk (stateOf (tryCatch (Bot.dispatch m) Bot.ignore
                                            env s))).
  { assert (Ht : autosendStates
                   (stateOf (tryCatch (Bot.dispatch m) Bot.ignore env s))
                 = autosendStates (stateOf (Bot.dispatch m env s))).
    { unfold stateOf. rewrite tryCatch_run.
      now destruct (Bot.dispatch m env s) as [[[a | e] s1] t1]. }
    intros k w. rewrite Ht.
    destruct (dispatch_table m) as [Hk | Hins].
    - rewrite (Hk env s). apply Hok.
    - rewrite (Hins env s). destruct (decide (sender m = k)) as [<- | Hne].
      + rewrite lookup_insert_eq. now intros [= <-].
      + rewrite lookup_insert_ne by exact Hne. apply Hok. }
  destruct (out m) eqn:Ho.
  { unfold run, Bot.handler. rewrite tryCatch_run, Ho. exact Hok. }
  destruct (startsWithSlash (text m)) eqn:Hs.
  { rewrite run_state, (handler_command m env s Ho Hs). exact Hcmd. }
  destruct (autosendStates s !! sender m) as [w |] eqn:Hw.
  - destruct (handler_wizard_run env s m w Hok Ho Hs Hw)
      as (res & s1 & t1 & w1 & _ & Hw1 & Hother & _ & ->).
    cbn [fst]. intros k w0.
    destruct (decide (k = sender m)) as [-> | Hne].
    + destruct (done w1) eqn:Ed.
      * cbn. now rewrite lookup_delete_eq.
      * rewrite Hw1. now intros [= <-].
    + destruct (done w1).
      * cbn. rewrite lookup_delete_ne by congruence.
        rewrite (Hother k Hne). apply Hok.
      * rewrite (Hother k Hne). apply Hok.
  - now rewrite (ignored_without_entry env s m Hw Hs).
Qed.

Lemma KeepsTable_fireTimer id : KeepsTable (Bot.fireTimer id).
Proof.
  unfold Bot.fireTimer. apply KeepsTable_bind; [now intros env s |].
  intros a. destruct (List.find _ (liveTimers a));
    [apply KeepsTable_tickLoop | apply KeepsTable_ret].
Qed.

(** The invariant of the wizard table holds in every state the process
    reaches. *)
Lemma reactAll_tableOk env inputs : forall s,
  tableOk s -> tableOk (fst (Bot.reactAll env s inputs)).
Proof.
  induction inputs as [| i rest IH]; intros s H; [exact H |].
  rewrite reactAll_cons. cbn [fst]. apply IH.
  destruct i as [m | id]; cbn [Bot.react].
  - rewrite <- run_state. now apply handler_tableOk.
  - intros k w. rewrite (KeepsTable_fireTimer id env s). apply H.
Qed.

(** ** [/sendmulti] in the allow-list variant *)

Lemma trimStart_idem s : trimStart (trimStart s) = trimStart s.
Proof.
  induction s as [| c r IH]; [reflexivity |]. cbn.
  destruct (isWhiteSpace c) eqn:E; [exact IH |]. cbn. now rewrite E.
Qed.

Lemma removeCommandPrefix_sendmulti rest :
  removeCommandPrefix (u "sendmulti") (u "/sendmulti" ++ 32 :: rest)
  = trimStart rest.
Proof. reflexivity. Qed.

Lemma reply_run peer msg env s :
  exists s' tail,
    Gated.reply peer msg env s = (Returned tt, s', tail)
    /\ Forall (fun e => replyText e = Some msg) tail
    /\ autosendStates s' = autosendStates s /\ sameTimers s s'.
Proof.
  unfold Gated.reply. rewrite tryCatch_run, respond_run.
  destruct (failure env (calls s)) as [e |].
  - rewrite tryCatch_run, sendDirect_run.
    destruct (failure env (calls (bump s))); do 2 eexists;
      (split; [reflexivity |]); repeat split; repeat constructor.
  - do 2 eexists. split; [reflexivity |].
    repeat split; repeat constructor.
Qed.

(** The same parse in the handler with the allow-list, where the left
    side is split on runs of white space: an allowed sender's
    [/sendmulti <left>|<message>] with a single ['|'] sends the trimmed
    message to the pieces of the left side and then confirms. *)
Lemma gated_sendmulti_parse env s who rest content :
  Gated.includes Gated.allowedUserIds who = true ->
  ~ In 124 rest -> ~ In 124 content -> content <> [] ->
  let m := mkMessage false
             (u "/sendmulti" ++ 32 :: rest ++ 124 :: content) who in
  let grps := filterTruthy (splitWs (trim rest)) in
  exists tail,
    snd (run (Gated.handler m) env s)
    = snd (run (sendLoop (trim content) grps) env s) ++ tail
    /\ Forall (fun e => replyText e
                        = Some (sentMultiText (List.length grps))) tail.
Proof.
  intros Hallowed Hr Hc Hne m grps.
  assert (Hhd : hd [] (split 32 (text m)) = u "/sendmulti").
  { unfold m. cbn [text].
    now rewrite (split_app_sep 32 _ _ no_space_in_sendmulti). }
  assert (Hpipe : split 124 (text m)
                  = [u "/sendmulti" ++ 32 :: rest; content]).
  { unfold m. cbn [text].
    change (u "/sendmulti" ++ 32 :: rest ++ 124 :: content)
      with (u "/sendmulti" ++ (32 :: rest) ++ 124 :: content).
    rewrite app_assoc, split_app_sep, (split_none _ _ Hc); [reflexivity |].
    intros Hin. apply in_app_or in Hin as [Hin | [Hin | Hin]];
      [now apply no_pipe_in_sendmulti | discriminate | contradiction]. }
  unfold run, Gated.handler. rewrite tryCatch_run. cbv zeta.
  change (out m) with false. change (startsWithSlash (text m)) with true.
  cbn [negb]. rewrite Hhd.
  change (Gated.dropOneSlash (toLowerCase (u "/sendmulti")))
    with (u "sendmulti").
  change (truthy (u "sendmulti")) with true. cbn [negb sender m].
  rewrite Hallowed. cbn [negb].
  unfold Gated.dispatch. cbv zeta. rewrite Hpipe. eval_eqs.
  cbn [andb hd nth_error].
  destruct content as [| c r]; [congruence |].
  rewrite removeCommandPrefix_sendmulti.
  replace (trim (trimStart rest)) with (trim rest)
    by (unfold trim; now rewrite trimStart_idem).
  fold grps. cbn [sender m]. rewrite bind_run.
  destruct (sendLoop_returns (trim (c :: r)) grps env s) as (s1 & t1 & E).
  rewrite E. cbv beta iota.
  destruct (reply_run who (sentMultiText (List.length grps)) env s1)
    as (s2 & tail & -> & Htail & _).
  cbn [snd]. now exists tail.
Qed.

(** There too the message stops at a second ['|']. *)
Example gated_sendmulti_truncates :
  deliveredMessages
    (snd (run (Gated.handler
                 (mkMessage false (u "/sendmulti @a|hello|world")
                            1016048363))
              {| failure := fun _ => None; me := mkAccount [] [] 0;
                 dialogs := [] |} initial))
  = [u "hello"].
Proof. reflexivity. Qed.

(** ** [/sendmulti] of src/bot.js, end to end *)

(** A [/sendmulti] with a single ['|'] attempts each target of its left
    side once and in order, with the pacing delay between consecutive
    attempts only, then confirms to the sender. *)
Lemma sendmulti_is_paced env s who rest content :
  ~ In 124 rest -> ~ In 124 content -> content <> [] ->
  let m := mkMessage false
             (u "/sendmulti" ++ 32 :: rest ++ 124 :: content) who in
  let grps := filterTruthy (split 32 (trim rest)) in
  exists ok,
    snd (run (Bot.handler m) env s)
    = paced (attempts env (calls s) (trim content) (targetsOf grps))
      ++ [Direct who (sentMultiText (List.length grps)) ok].
Proof.
  intros Hr Hc Hne m grps.
  assert (Hpipe : split 124 (text m)
                  = [u "/sendmulti" ++ 32 :: rest; content]).
  { unfold m. cbn [text].
    change (u "/sendmulti" ++ 32 :: rest ++ 124 :: content)
      with (u "/sendmulti" ++ (32 :: rest) ++ 124 :: content).
    rewrite app_assoc, split_app_sep, (split_none _ _ Hc); [reflexivity |].
    intros Hin. apply in_app_or in Hin as [Hin | [Hin | Hin]];
      [now apply no_pipe_in_sendmulti | discriminate | contradiction]. }
  unfold run.
  rewrite (handler_command m env s eq_refl eq_refl), tryCatch_run.
  unfold Bot.dispatch. cbv zeta. rewrite Hpipe. unfold m at 1. cbn [text].
  rewrite (split_app_sep 32 _ _ no_space_in_sendmulti). cbn [hd].
  change (toLowerCase (u "/sendmulti")) with (u "/sendmulti").
  eval_eqs. cbn [andb hd nth_error].
  destruct content as [| c r]; [congruence |].
  rewrite removeFirst_prefix.
  change (trim (32 :: rest)) with (trim rest). fold grps.
  cbn [sender m]. rewrite bind_run.
  destruct (sendLoop_run (trim (c :: r)) grps env s (bot_groups_end rest))
    as (s1 & E & _).
  rewrite E. cbv beta iota. rewrite direct_caught. cbn [snd]. eauto.
Qed.

(** ** Jobs and their intervals *)

Section JobsClosure.

Context {A B : Type}.

Lemma KeepsJobs_bind (m : M A) (f : A -> M B) :
  KeepsJobs m -> (forall a, KeepsJobs (f a)) -> KeepsJobs (m ≫= f).
Proof.
  intros Hm Hf env s H. specialize (Hm env s H).
  unfold stateOf, mbind, M_bind in *.
  destruct (m env s) as [[[a | e] s1] t1]; cbn [fst snd] in *; [| exact Hm].
  specialize (Hf a env s1 Hm). unfold stateOf in Hf.
  destruct (f a env s1) as [[r s2] t2]. exact Hf.
Qed.

Lemma KeepsJobs_tryCatch (m : M A) (h : jsstring -> M A) :
  KeepsJobs m -> (forall e, KeepsJobs (h e)) -> KeepsJobs (tryCatch m h).
Proof.
  intros Hm Hh env s H. specialize (Hm env s H).
  unfold stateOf, tryCatch in *.
  destruct (m env s) as [[[a | e] s1] t1]; cbn [fst snd] in *; [exact Hm |].
  specialize (Hh e env s1 Hm). unfold stateOf in Hh.
  destruct (h e env s1) as [[r s2] t2]. exact Hh.
Qed.

(** A computation that leaves the timers and the table alone keeps the
    jobs in order. *)
Lemma KeepsJobs_still (m : M A) : Quiet m -> KeepsTable m -> KeepsJobs m.
Proof.
  intros Hq Ht env s [H1 H2]. destruct (Hq env s) as (_ & L & _).
  split.
  - intros k w. rewrite (Ht env s). apply H1.
  - intros tm. rewrite L. apply H2.
Qed.

End JobsClosure.

Lemma KeepsJobs_updateWizard key f :
  (forall w, wizardParsed w -> wizardParsed (f w)) ->
  KeepsJobs (Bot.updateWizard key f).
Proof.
  intros Hf env s [H1 H2]. split; [| exact H2].
  intros k w. cbn.
  destruct (decide (k = key)) as [-> | Hk].
  - rewrite lookup_alter_eq.
    destruct (autosendStates s !! key) as [w0 |] eqn:E; [| discriminate].
    intros [= <-]. apply Hf. now apply (H1 key).
  - rewrite lookup_alter_ne by congruence. apply H1.
Qed.

Lemma KeepsJobs_fresh key : KeepsJobs (setTable (insert key Bot.freshWizard)).
Proof.
  intros env s [H1 H2]. split; [| exact H2].
  intros k w. cbn.
  destruct (decide (k = key)) as [-> | Hk].
  - rewrite lookup_insert_eq. intros [= <-] info. discriminate.
  - rewrite lookup_insert_ne by congruence. apply H1.
Qed.

Lemma KeepsJobs_delete key : KeepsJobs (setTable (delete key)).
Proof.
  intros env s [H1 H2]. split; [| exact H2].
  intros k w. cbn.
  destruct (decide (k = key)) as [-> | Hk].
  - now rewrite lookup_delete_eq.
  - rewrite lookup_delete_ne by congruence. apply H1.
Qed.

Lemma KeepsJobs_createAutoSendTimer grps info message :
  parsed info -> KeepsJobs (Bot.createAutoSendTimer grps info message).
Proof.
  intros Hp env s [H1 H2]. unfold stateOf.
  rewrite createAutoSendTimer_run. cbn [fst snd]. split; [exact H1 |].
  intros tm Hin. cbn in Hin. apply in_app_or in Hin as [Hin | [<- | []]].
  - now apply H2.
  - exists info. now split.
Qed.

Lemma KeepsJobs_stopTimers : KeepsJobs stopTimers.
Proof.
  intros env s [H1 H2]. split.
  - intros k w. rewrite (KeepsTable_stopTimers env s). apply H1.
  - intros tm Hin. apply H2.
    change (stateOf (stopTimers env s)) with (stopped s) in Hin.
    destruct (cleared_by_stop s) as (_ & L & _). rewrite L in Hin.
    now apply List.filter_In in Hin as [Hin _].
Qed.

Lemma setGroups_parsed grps w :
  wizardParsed w -> wizardParsed (Bot.setGroups grps w).
Proof. intros H info. apply H. Qed.

Lemma setDone_parsed w : wizardParsed w -> wizardParsed (Bot.setDone w).
Proof. intros H info. apply H. Qed.

Lemma setIntervalFields_parsed txt info w :
  parsed info -> wizardParsed (Bot.setIntervalFields txt info w).
Proof. intros H i [= <-]. exact H. Qed.

Ltac jobs_still := solve [apply KeepsJobs_still; [quiet | keeps]].

Lemma KeepsJobs_wizard key w txt :
  wizardParsed w -> KeepsJobs (Bot.processAutosendWizardInput key w txt).
Proof.
  intros Hw. unfold Bot.processAutosendWizardInput. cbv zeta.
  destruct (step w).
  - destruct (filterTruthy _); [jobs_still |].
    apply KeepsJobs_bind; [| intros ?; jobs_still].
    apply KeepsJobs_updateWizard. apply setGroups_parsed.
  - destruct (parseIntervalText _) as [info |] eqn:E; [| jobs_still].
    apply KeepsJobs_bind; [| intros ?; jobs_still].
    apply KeepsJobs_updateWizard. intros w0 _.
    apply setIntervalFields_parsed. eexists; eassumption.
  - destruct (negb _); [jobs_still |].
    assert (Hdone : KeepsJobs (Bot.updateWizard key Bot.setDone))
      by (apply KeepsJobs_updateWizard; apply setDone_parsed).
    destruct (default [] (groups w)) as [| g gs].
    + apply KeepsJobs_bind; [jobs_still | intros ?; exact Hdone].
    + destruct (intervalInfo w) as [i |] eqn:Ei.
      * apply KeepsJobs_bind; [| intros ?].
        -- apply KeepsJobs_createAutoSendTimer. now apply Hw.
        -- apply KeepsJobs_bind; [jobs_still | intros ?; exact Hdone].
      * destruct (parseIntervalText _) as [i |] eqn:Ep.
        -- apply KeepsJobs_bind; [| intros ?].
           ++ apply KeepsJobs_createAutoSendTimer. eexists; eassumption.
           ++ apply KeepsJobs_bind; [jobs_still | intros ?; exact Hdone].
        -- apply KeepsJobs_bind; [jobs_still | intros ?; exact Hdone].
Qed.

Lemma KeepsJobs_dispatch m : KeepsJobs (Bot.dispatch m).
Proof.
  unfold Bot.dispatch. cbv zeta.
  repeat match goal with
         | |- KeepsJobs (if ?b then _ else _) => destruct b
         | |- KeepsJobs (match ?x with _ => _ end) => destruct x eqn:?
         end;
    try jobs_still.
  - apply KeepsJobs_bind; [apply KeepsJobs_fresh | intros ?; jobs_still].
  - apply KeepsJobs_bind; [| intros ?; jobs_still].
    apply KeepsJobs_createAutoSendTimer. eexists; eassumption.
  - apply KeepsJobs_tryCatch; [| intros ?; jobs_still].
    apply KeepsJobs_bind; [apply KeepsJobs_stopTimers | intros ?; jobs_still].
Qed.

Lemma tryCatch_get_state {B} (f : Sys -> M B) h env s :
  stateOf (tryCatch (get ≫= f) h env s) = stateOf (tryCatch (f s) h env s).
Proof.
  unfold stateOf, tryCatch, mbind, M_bind, get.
  destruct (f s env s) as [[[a | e] s1] t1]; [reflexivity |].
  cbn [app]. reflexivity.
Qed.

(** The handler keeps the jobs in order. *)
Lemma handler_jobsOk m env s :
  jobsOk s -> jobsOk (stateOf (Bot.handler m env s)).
Proof.
  intros Hok.
  assert (Hbody : KeepsJobs
    (match autosendStates s !! sender m with
     | Some existingAutosendState =>
         if negb (startsWithSlash (text m)) then
           Bot.processAutosendWizardInput (sender m) existingAutosendState
                                          (text m);;
           s' ← get;
           if Bot.wizardDone (sender m) s'
           then setTable (delete (sender m))
           else mret tt
         else Bot.dispatch m
     | None =>
         if negb (startsWithSlash (text m)) then mret tt
         else Bot.dispatch m
     end)).
  { destruct (autosendStates s !! sender m) as [w |] eqn:Hw.
    - destruct (negb _); [| apply KeepsJobs_dispatch].
      apply KeepsJobs_bind.
      + apply KeepsJobs_wizard. destruct Hok as [H1 _]. now apply (H1 _ _ Hw).
      + intros _. apply KeepsJobs_bind; [| intros s'].
        { apply KeepsJobs_still; [apply Quiet_get | intros ? ?; reflexivity]. }
        destruct (Bot.wizardDone _ _); [apply KeepsJobs_delete | jobs_still].
    - destruct (negb _); [jobs_still | apply KeepsJobs_dispatch]. }
  assert (Hret : KeepsJobs (@mret M _ unit tt)) by jobs_still.
  assert (Hign : forall e : jsstring, KeepsJobs (Bot.ignore e))
    by (intros ?; jobs_still).
  unfold Bot.handler. destruct (out m).
  { exact (KeepsJobs_tryCatch _ _ Hret Hign env s Hok). }
  cbv zeta. rewrite tryCatch_get_state.
  exact (KeepsJobs_tryCatch _ _ Hbody Hign env s Hok).
Qed.

Lemma jobsOk_initial : jobsOk initial.
Proof.
  split; [| intros ? []].
  intros k w H. cbn in H. now rewrite lookup_empty in H.
Qed.

(** ** Timers in time *)

Lemma scheduled_fst t d timers :
  List.map fst (Clock.scheduled t d timers) = List.map timerId timers.
Proof.
  unfold Clock.scheduled. rewrite List.map_map. reflexivity.
Qed.

Lemma rearmed_fst id t d :
  List.map fst (Clock.rearmed id t d) = List.map fst d.
Proof.
  unfold Clock.rearmed. rewrite List.map_map. apply List.map_ext_in.
  intros [i x] _. cbn. destruct (Nat.eqb i id) eqn:E; [| reflexivity].
  apply Nat.eqb_eq in E. now subst.
Qed.

Lemma dueOf_in id d t : Clock.dueOf id d = Some t -> In (id, t) d.
Proof.
  unfold Clock.dueOf.
  destruct (List.find _ d) as [[i x] |] eqn:E; [| discriminate].
  intros [= <-]. apply List.find_some in E as [Hin Heq].
  cbn in Heq. apply Nat.eqb_eq in Heq. now subst.
Qed.

Lemma dueOf_none id d :
  Clock.dueOf id d = None -> ~ In id (List.map fst d).
Proof.
  unfold Clock.dueOf.
  destruct (List.find _ d) as [p |] eqn:E; [discriminate |]. intros _ Hin.
  apply List.in_map_iff in Hin as ([i x] & Hi & Hp). cbn in Hi. subst i.
  pose proof (List.find_none _ _ E _ Hp) as H. cbn in H.
  now rewrite Nat.eqb_refl in H.
Qed.

Lemma findTimer_in id timers tm :
  Clock.findTimer id timers = Some tm -> In tm timers /\ timerId tm = id.
Proof.
  intros H. apply List.find_some in H as [Hin Heq].
  apply Nat.eqb_eq in Heq. now split.
Qed.

Lemma ofZ_1 : Num.ofZ 1 = S754_finite false 4503599627370496 (-52).
Proof. vm_compute. reflexivity. Qed.

(** A period is not negative. *)
Lemma period_nonneg x : (0 <= Clock.period x)%Z.
Proof.
  unfold Clock.period.
  destruct (Num.leb (Num.ofZ 1) x && Num.leb x (Num.ofZ Clock.timeoutMax))
    eqn:E; [| lia].
  apply andb_true_iff in E as [E1 _]. rewrite ofZ_1 in E1.
  destruct x as [s | s | | s m e]; cbn [Num.trunc]; try lia.
  destruct s; [discriminate E1 |].
  destruct e as [| k | k].
  - lia.
  - assert (0 < 2 ^ Zpos k)%Z by (apply Z.pow_pos_nonneg; lia). nia.
  - apply Z.shiftr_nonneg. lia.
Qed.

(** Periods: ten minutes; the greatest delay; one millisecond past it;
    a millisecond and a half; half a millisecond; [Infinity]. *)
Example period_examples :
  Clock.period (Num.ofZ 600000%Z) = 600000%Z
  /\ Clock.period (Num.ofZ 2147483647%Z) = 2147483647%Z
  /\ Clock.period (Num.ofZ 2147483648%Z) = 1%Z
  /\ Clock.period (Num.ofDecimal 15%Z (-1)%Z) = 1%Z
  /\ Clock.period (Num.ofDecimal 5%Z (-1)%Z) = 1%Z
  /\ Clock.period (S754_infinity false) = 1%Z.
Proof. repeat split; vm_compute; reflexivity. Qed.

Lemma TimerStep_next s s' :
  TimerStep s s' -> (nextTimer s <= nextTimer s')%nat.
Proof.
  intros [(_ & _ & N) | [(tm & _ & _ & _ & N) | (_ & _ & N)]]; rewrite N; lia.
Qed.

(** A timer that is live after a timer step was live before, or was
    made by the step under the next fresh handle. *)
Lemma TimerStep_live s s' tm :
  TimerStep s s' -> In tm (liveTimers s') ->
  In tm (liveTimers s) \/ timerId tm = nextTimer s.
Proof.
  intros [(_ & L & _) | [(tm0 & _ & L & I & _) | (_ & L & _)]] Hin;
    rewrite L in Hin.
  - now left.
  - apply in_app_or in Hin as [Hin | [<- | []]]; [now left | now right].
  - left. now apply List.filter_In in Hin as [Hin _].
Qed.

Lemma live_below_next s tm :
  registryOk s -> In tm (liveTimers s) -> (timerId tm < nextTimer s)%nat.
Proof. intros [H1 H2] Hin. apply H2, H1, Hin. Qed.

Lemma happen_step env w h w' t :
  Clock.happen env w h = Some (w', t) ->
  TimerStep (Clock.sys w) (Clock.sys w') /\ (Clock.now w <= Clock.now w')%Z.
Proof.
  destruct h as [m | ms | id]; cbn [Clock.happen].
  - pose proof (Timed_handler m env (Clock.sys w)) as Hs.
    rewrite <- run_state in Hs.
    destruct (run (Bot.handler m) env (Clock.sys w)) as [s' t'].
    intros [= <- <-]. cbn. split; [exact Hs | lia].
  - destruct (ms <? 0)%Z eqn:E; [discriminate |]. apply Z.ltb_ge in E.
    intros [= <- <-]. cbn. split; [left; apply sameTimers_refl | lia].
  - destruct (Clock.findTimer id _) as [tm |]; [| discriminate].
    destruct (Clock.dueOf id _) as [t0 |]; [| discriminate].
    destruct (t0 <=? Clock.now w)%Z; [| discriminate].
    pose proof (Quiet_fireTimer id env (Clock.sys w)) as Hs.
    rewrite <- run_state in Hs.
    destruct (run (Bot.fireTimer id) env (Clock.sys w)) as [s' t'].
    intros [= <- <-]. cbn. split; [now left | lia].
Qed.

Lemma happen_worldOk env w h w' t :
  worldOk w -> Clock.happen env w h = Some (w', t) -> worldOk w'.
Proof.
  intros (Hr & Hj & Hd) H. pose proof (happen_step _ _ _ _ _ H) as [Hs _].
  split; [now apply (registryOk_step (Clock.sys w)) |].
  destruct h as [m | ms | id]; cbn [Clock.happen] in H.
  - pose proof (handler_jobsOk m env (Clock.sys w) Hj) as Hj'.
    rewrite <- run_state in Hj'.
    destruct (run (Bot.handler m) env (Clock.sys w)) as [s' t'].
    injection H as <- <-. cbn. split; [exact Hj' | apply scheduled_fst].
  - destruct (ms <? 0)%Z; [discriminate |]. injection H as <- <-.
    now split.
  - destruct (Clock.findTimer id _) as [tm |]; [| discriminate].
    destruct (Clock.dueOf id _) as [t0 |]; [| discriminate].
    destruct (t0 <=? Clock.now w)%Z; [| discriminate].
    pose proof (Quiet_fireTimer id env (Clock.sys w)) as (_ & L & _).
    pose proof (KeepsJobs_still _ (Quiet_fireTimer id)
                  (KeepsTable_fireTimer id) env (Clock.sys w) Hj) as Hj'.
    rewrite <- run_state in L, Hj'.
    destruct (run (Bot.fireTimer id) env (Clock.sys w)) as [s' t'].
    injection H as <- <-. cbn in *. split; [exact Hj' |].
    now rewrite rearmed_fst, L.
Qed.

(** An interval that is not due before [t] fires at [t] at the
    earliest, and is then not due before [t] either. *)
Lemma happen_dueAfter env w h w' tr id t :
  worldOk w -> (id < nextTimer (Clock.sys w))%nat -> dueAfter id t w ->
  Clock.happen env w h = Some (w', tr) ->
  dueAfter id t w' /\ (h = Clock.Fires id -> (t <= Clock.now w)%Z).
Proof.
  intros (Hr & _ & Hd) Hlt Hdue H.
  pose proof (happen_step _ _ _ _ _ H) as [Hs _].
  destruct h as [m | ms | id']; cbn [Clock.happen] in H.
  - destruct (run (Bot.handler m) env (Clock.sys w)) as [s' t'].
    injection H as <- <-. cbn in Hs. split; [| discriminate].
    intros t1 Hin. cbn in Hin. unfold Clock.scheduled in Hin.
    apply List.in_map_iff in Hin as (tm & E & Htm). injection E as Eid Et.
    destruct (Clock.dueOf (timerId tm) (Clock.due w)) as [t2 |] eqn:Ed.
    + subst t2. apply dueOf_in in Ed. rewrite Eid in Ed. now apply Hdue.
    + exfalso. apply dueOf_none in Ed. rewrite Hd in Ed.
      destruct (TimerStep_live _ _ _ Hs Htm) as [Hold | Hnew].
      * apply Ed. now apply List.in_map.
      * lia.
  - destruct (ms <? 0)%Z; [discriminate |]. injection H as <- <-.
    split; [exact Hdue | discriminate].
  - destruct (Clock.findTimer id' _) as [tm |] eqn:Ef; [| discriminate].
    destruct (Clock.dueOf id' _) as [t0 |] eqn:Ed; [| discriminate].
    destruct (t0 <=? Clock.now w)%Z eqn:El; [| discriminate].
    apply Z.leb_le in El. apply dueOf_in in Ed.
    destruct (run (Bot.fireTimer id') env (Clock.sys w)) as [s' t'].
    injection H as <- <-. split.
    + intros t1 Hin. cbn in Hin. unfold Clock.rearmed in Hin.
      apply List.in_map_iff in Hin as ([i x] & E & Hp). cbn [fst] in E.
      destruct (Nat.eqb i id') eqn:Ei.
      * injection E as <- <-. pose proof (Hdue _ Ed).
        pose proof (period_nonneg (delay tm)). lia.
      * injection E as -> ->. now apply Hdue.
    + intros [= ->]. pose proof (Hdue _ Ed). lia.
Qed.

(** In a run, an interval that is not due before [t] does not fire
    before [t]. *)
Lemma play_dueAfter env hs : forall w w' log id t,
  worldOk w -> (id < nextTimer (Clock.sys w))%nat -> dueAfter id t w ->
  Clock.play env w hs = Some (w', log) ->
  forall at_ tr, In (at_, Clock.Fires id, tr) log -> (t <= at_)%Z.
Proof.
  induction hs as [| h hs IH]; intros w w' log id t Hok Hlt Hdue H at_ tr Hin.
  - injection H as <- <-. destruct Hin.
  - cbn [Clock.play] in H.
    destruct (Clock.happen env w h) as [[w1 t1] |] eqn:Eh; [| discriminate].
    destruct (Clock.play env w1 hs) as [[w2 log2] |] eqn:Ep; [| discriminate].
    injection H as <- <-.
    destruct (happen_dueAfter _ _ _ _ _ _ _ Hok Hlt Hdue Eh) as [Hd1 Hf].
    destruct Hin as [E | Hin].
    + injection E as E1 E2 E3. subst at_. now apply Hf.
    + refine (IH w1 w2 log2 id t _ _ Hd1 Ep at_ tr Hin).
      * now apply (happen_worldOk env w h w1 t1).
      * pose proof (happen_step _ _ _ _ _ Eh) as [Hs _].
        apply TimerStep_next in Hs. lia.
Qed.

(** What is logged happened between the start and the end of the
    run. *)
Lemma play_times env hs : forall w w' log,
  Clock.play env w hs = Some (w', log) ->
  (Clock.now w <= Clock.now w')%Z
  /\ forall at_ h tr, In (at_, h, tr) log ->
       (Clock.now w <= at_ <= Clock.now w')%Z.
Proof.
  induction hs as [| h hs IH]; intros w w' log H.
  - injection H as <- <-. split; [lia | intros ? ? ? []].
  - cbn [Clock.play] in H.
    destruct (Clock.happen env w h) as [[w1 t1] |] eqn:Eh; [| discriminate].
    destruct (Clock.play env w1 hs) as [[w2 log2] |] eqn:Ep; [| discriminate].
    injection H as <- <-.
    pose proof (happen_step _ _ _ _ _ Eh) as [_ Hn].
    destruct (IH _ _ _ Ep) as [Hn2 Hlog]. split; [lia |].
    intros at_ h' tr [E | Hin].
    + injection E as E1 E2 E3. subst at_. lia.
    + specialize (Hlog _ _ _ Hin). lia.
Qed.

Lemma play_worldOk env hs : forall w w' log,
  worldOk w -> Clock.play env w hs = Some (w', log) ->
  worldOk w' /\ (nextTimer (Clock.sys w) <= nextTimer (Clock.sys w'))%nat.
Proof.
  induction hs as [| h hs IH]; intros w w' log Hok H.
  - injection H as <- <-. split; [exact Hok | lia].
  - cbn [Clock.play] in H.
    destruct (Clock.happen env w h) as [[w1 t1] |] eqn:Eh; [| discriminate].
    destruct (Clock.play env w1 hs) as [[w2 log2] |] eqn:Ep; [| discriminate].
    injection H as <- <-.
    pose proof (happen_step _ _ _ _ _ Eh) as [Hs _].
    apply TimerStep_next in Hs.
    destruct (IH _ _ _ (happen_worldOk _ _ _ _ _ Hok Eh) Ep) as [Hok2 Hn].
    split; [exact Hok2 | lia].
Qed.

(** The runtime does not fire an interval that was cleared. *)
Lemma play_retired env hs : forall w w' log id,
  retired id (Clock.sys w) ->
  Clock.play env w hs = Some (w', log) ->
  forall at_ tr, ~ In (at_, Clock.Fires id, tr) log.
Proof.
  induction hs as [| h hs IH]; intros w w' log id Hret H at_ tr Hin.
  - injection H as <- <-. destruct Hin.
  - cbn [Clock.play] in H.
    destruct (Clock.happen env w h) as [[w1 t1] |] eqn:Eh; [| discriminate].
    destruct (Clock.play env w1 hs) as [[w2 log2] |] eqn:Ep; [| discriminate].
    injection H as <- <-.
    pose proof (happen_step _ _ _ _ _ Eh) as [Hs _].
    destruct Hin as [E | Hin].
    + injection E as _ E2 _. subst h. cbn [Clock.happen] in Eh.
      destruct (Clock.findTimer id _) as [tm |] eqn:Ef; [| discriminate].
      apply findTimer_in in Ef as [Hin Hid].
      destruct Hret as [_ Hnot]. now apply (Hnot tm).
    + apply (IH w1 w2 log2 id (retired_step _ _ _ Hret Hs) Ep at_ tr Hin).
Qed.


Lemma worldOk_start : worldOk Clock.start.
Proof.
  split; [apply registryOk_initial |].
  split; [apply jobsOk_initial | reflexivity].
Qed.



(** * Further properties of the code *)

(** ** Trimming twice *)

Lemma trimEnd_prefix s : exists ws, s = trimEnd s ++ ws /\ allWhite ws = true.
Proof.
  unfold trimEnd. destruct (trimStart_spec (rev s)) as (ws & E & Hws).
  exists (rev ws). split.
  - rewrite <- rev_app_distr, <- E. now rewrite rev_involutive.
  - unfold allWhite in *. rewrite forallb_forall in *. intros c Hc.
    apply Hws. now apply in_rev.
Qed.

Lemma trimEnd_idem s : trimEnd (trimEnd s) = trimEnd s.
Proof.
  unfold trimEnd. now rewrite rev_involutive, trimStart_idem.
Qed.

Lemma trim_idem s : trim (trim s) = trim s.
Proof.
  unfold trim at 1.
  assert (H : trimStart (trim s) = trim s).
  { unfold trim. destruct (trimEnd_prefix (trimStart s)) as (ws & E & _).
    destruct (trimEnd (trimStart s)) as [| c r] eqn:Et; [reflexivity |].
    apply trimStart_fixed. cbn [app] in E.
    now apply (trimStart_head s c (r ++ ws)). }
  rewrite H. unfold trim. apply trimEnd_idem.
Qed.

Lemma targetsOf_idem l : targetsOf (targetsOf l) = targetsOf l.
Proof.
  induction l as [| g r IH]; [reflexivity |].
  rewrite targetsOf_cons. destruct (nonBlank g) eqn:E; [| exact IH].
  rewrite targetsOf_cons. unfold nonBlank in *. rewrite trim_idem, E.
  now rewrite IH.
Qed.

Lemma targetsOf_filterTruthy l : targetsOf (filterTruthy l) = targetsOf l.
Proof.
  induction l as [| g r IH]; [reflexivity |].
  unfold filterTruthy in *. cbn [List.filter].
  destruct g as [| c g]; cbn [truthy].
  - rewrite targetsOf_cons. exact IH.
  - rewrite !targetsOf_cons. now rewrite IH.
Qed.

(** ** The wizard, step by step *)

(** The handler on a text for the wizard, from the outcome of the step. *)
Lemma handler_wizard_exact env s m w res s1 t1 :
  out m = false -> startsWithSlash (text m) = false ->
  autosendStates s !! sender m = Some w ->
  Bot.processAutosendWizardInput (sender m) w (text m) env s = (res, s1, t1) ->
  run (Bot.handler m) env s
  = (match res with
     | Returned _ =>
         if Bot.wizardDone (sender m) s1
         then withTable (delete (sender m)) s1 else s1
     | Thrown _ => s1
     end, t1).
Proof.
  intros Ho Hs Hw E.
  unfold run, Bot.handler. rewrite tryCatch_run, Ho, bind_run.
  cbn [get]. cbv beta iota. rewrite Hw, Hs. cbn [negb].
  rewrite bind_run, E.
  destruct res as [[] | e].
  - cbv beta iota. rewrite bind_run. cbn [get]. cbv beta iota.
    destruct (Bot.wizardDone (sender m) s1); cbn; now rewrite !app_nil_r.
  - cbn. now rewrite app_nil_r.
Qed.

(** A reply that changes nothing else. *)
Lemma handler_wizard_reply env s m w msg :
  out m = false -> startsWithSlash (text m) = false ->
  autosendStates s !! sender m = Some w -> done w = false ->
  Bot.processAutosendWizardInput (sender m) w (text m) env s
  = respond msg env s ->
  run (Bot.handler m) env s
  = (bump s, [Respond msg (isNone (failure env (calls s)))]).
Proof.
  intros Ho Hs Hw Hd E. rewrite respond_run in E.
  rewrite (handler_wizard_exact _ _ _ _ _ _ _ Ho Hs Hw E).
  unfold Bot.wizardDone. cbn [bump autosendStates]. rewrite Hw, Hd.
  now destruct (failure env (calls s)).
Qed.

(** A field update followed by a reply. *)
Lemma handler_wizard_update env s m w f msg :
  out m = false -> startsWithSlash (text m) = false ->
  autosendStates s !! sender m = Some w -> done (f w) = false ->
  Bot.processAutosendWizardInput (sender m) w (text m) env s
  = (Bot.updateWizard (sender m) f;; respond msg) env s ->
  run (Bot.handler m) env s
  = (bump (withTable (alter f (sender m)) s),
     [Respond msg (isNone (failure env (calls s)))]).
Proof.
  intros Ho Hs Hw Hd E.
  rewrite bind_run, updateWizard_run in E. cbv beta iota in E.
  rewrite respond_run in E. cbn [app] in E.
  rewrite (handler_wizard_exact _ _ _ _ _ _ _ Ho Hs Hw E).
  unfold Bot.wizardDone. cbn [bump withTable autosendStates calls].
  rewrite lookup_alter_eq, Hw. cbn [fmap option_fmap option_map]. rewrite Hd.
  now destruct (failure env (calls s)).
Qed.

Lemma blank_groups txt :
  trim txt = [] -> filterTruthy (List.map trim (split 32 (trim txt))) = [].
Proof. now intros ->. Qed.

(** X1. A text the wizard cannot use leaves the wizard where it is: at
    the first step a blank text, at the second a text that is not an
    interval, at the third a blank text are answered by the error of
    that step, and the entry of the sender, the other entries and the
    timers stay as they were. *)
Theorem wizard_keeps_step env s m w :
  out m = false -> startsWithSlash (text m) = false ->
  autosendStates s !! sender m = Some w -> done w = false ->
  match step w with
  | StepGroups => trim (text m) = []
  | StepInterval => parseIntervalText (Some (trim (text m))) = None
  | StepMessage => trim (text m) = []
  end ->
  run (Bot.handler m) env s
  = (bump s,
     [Respond match step w with
              | StepGroups => noGroupsText
              | StepInterval => invalidIntervalText
              | StepMessage => emptyMessageText
              end (isNone (failure env (calls s)))]).
Proof.
  intros Ho Hs Hw Hd Hbad.
  apply (handler_wizard_reply env s m w _ Ho Hs Hw Hd).
  unfold Bot.processAutosendWizardInput. cbv zeta.
  destruct (step w).
  - now rewrite (blank_groups _ Hbad).
  - now rewrite Hbad.
  - now rewrite Hbad.
Qed.

(** A blank text at the first step. *)
Lemma wizard_keeps_step_witness :
  run (Bot.handler (mkMessage false (u "   ") 7)) quietEnv
      (withTable (insert 7%Z Bot.freshWizard) initial)
  = (bump (withTable (insert 7%Z Bot.freshWizard) initial),
     [Respond noGroupsText true]).
Proof.
  apply (wizard_keeps_step quietEnv
           (withTable (insert 7%Z Bot.freshWizard) initial)
           (mkMessage false (u "   ") 7) Bot.freshWizard);
    reflexivity.
Defined.

Lemma groups_step_run key w txt g gs :
  step w = StepGroups ->
  targetsOf (split 32 (trim txt)) = g :: gs ->
  Bot.processAutosendWizardInput key w txt
  = (Bot.updateWizard key (Bot.setGroups (g :: gs));;
     respond (groupsSetText (g :: gs))).
Proof.
  intros Hst Hg. unfold Bot.processAutosendWizardInput. cbv zeta.
  rewrite Hst. unfold targetsOf in Hg. now rewrite Hg.
Qed.

Lemma interval_step_run key w txt info :
  step w = StepInterval ->
  parseIntervalText (Some (trim txt)) = Some info ->
  Bot.processAutosendWizardInput key w txt
  = (Bot.updateWizard key (Bot.setIntervalFields (trim txt) info);;
     respond (intervalSetText (label info))).
Proof.
  intros Hst Hi. unfold Bot.processAutosendWizardInput. cbv zeta.
  now rewrite Hst, Hi.
Qed.

Lemma message_step_run key w txt g gs info env s :
  step w = StepMessage -> groups w = Some (g :: gs) ->
  intervalInfo w = Some info -> trim txt <> [] ->
  Bot.processAutosendWizardInput key w txt env s
  = (match failure env (calls s) with
     | None => Returned tt
     | Some e => Thrown e
     end,
     match failure env (calls s) with
     | None => withTable (alter Bot.setDone key)
                         (bump (jobOf (g :: gs) (trim txt) info s))
     | Some _ => bump (jobOf (g :: gs) (trim txt) info s)
     end,
     [Respond (startedText (List.length (g :: gs)) (label info))
              (isNone (failure env (calls s)))]).
Proof.
  intros Hst Hg Hi Ht. unfold Bot.processAutosendWizardInput. cbv zeta.
  rewrite Hst, Hg, Hi.
  change (default [] (Some (g :: gs))) with (g :: gs).
  destruct (trim txt) as [| c r] eqn:Et; [congruence |].
  cbn [truthy negb]. cbv beta iota.
  rewrite bind_run, createAutoSendTimer_run. cbv beta iota.
  rewrite bind_run, respond_run.
  change (calls (pushed _ (registered _ _ _ s))) with (calls s).
  destruct (failure env (calls s)); reflexivity.
Qed.

(** The handler on the third step of a wizard. *)
Lemma handler_wizard_message env s m w g gs info :
  out m = false -> startsWithSlash (text m) = false ->
  autosendStates s !! sender m = Some w -> done w = false ->
  step w = StepMessage -> groups w = Some (g :: gs) ->
  intervalInfo w = Some info -> trim (text m) <> [] ->
  let job := jobOf (g :: gs) (trim (text m)) info s in
  let ok := isNone (failure env (calls s)) in
  run (Bot.handler m) env s
  = (if ok then withTable (delete (sender m)) (bump job) else bump job,
     [Respond (startedText (List.length (g :: gs)) (label info)) ok]).
Proof.
  intros Ho Hs Hw Hd Hst Hg Hi Ht job ok.
  rewrite (handler_wizard_exact _ _ _ _ _ _ _ Ho Hs Hw
             (message_step_run _ _ _ _ _ _ env s Hst Hg Hi Ht)).
  subst ok job. destruct (failure env (calls s)) as [e |]; cbn [isNone].
  - reflexivity.
  - unfold Bot.wizardDone.
    cbn [withTable bump jobOf pushed registered autosendStates].
    rewrite lookup_alter_eq, Hw. cbn.
    unfold withTable. cbn. now rewrite delete_alter_eq.
Qed.

(** ** [/autosend]: the wizard starts *)

Lemma split_length_one sep s :
  List.length (split sep s) = 1%nat -> ~ In sep s.
Proof.
  induction s as [| c r IH]; [intros _ [] |].
  cbn [split]. destruct (c =? sep) eqn:E.
  - cbn [List.length]. intros H. injection H as H.
    destruct (split sep r) eqn:Es; [now apply split_nonempty in Es |].
    discriminate.
  - destruct (split sep r) as [| p ps] eqn:Es;
      [now apply split_nonempty in Es |].
    cbn [List.length] in *. intros H [Hc | Hr].
    + subst c. now rewrite N.eqb_refl in E.
    + now apply IH.
Qed.

(** [/autosend] without ['|']: the wizard starts. *)
Lemma dispatch_autosend_wizard m env s :
  toLowerCase (hd [] (split 32 (text m))) = u "/autosend" ->
  ~ In 124 (text m) ->
  Bot.dispatch m env s
  = (match failure env (calls s) with
     | None => Returned tt
     | Some e => Thrown e
     end,
     bump (withTable (insert (sender m) Bot.freshWizard) s),
     [Respond wizardStep1Text (isNone (failure env (calls s)))]).
Proof.
  intros Hc Hp. unfold Bot.dispatch. cbv zeta. rewrite Hc. eval_eqs.
  cbn [andb]. rewrite (split_none _ _ Hp). cbn [List.length Nat.eqb].
  rewrite bind_run.
  change (setTable <[sender m:=Bot.freshWizard]> env s)
    with (Returned tt, withTable <[sender m:=Bot.freshWizard]> s,
          @nil Event).
  cbv beta iota. rewrite respond_run.
  change (calls (withTable <[sender m:=Bot.freshWizard]> s)) with (calls s).
  destruct (failure env (calls s)); reflexivity.
Qed.

Lemma handler_autosend_wizard m env s :
  out m = false ->
  toLowerCase (hd [] (split 32 (text m))) = u "/autosend" ->
  ~ In 124 (text m) ->
  run (Bot.handler m) env s
  = (bump (withTable (insert (sender m) Bot.freshWizard) s),
     [Respond wizardStep1Text (isNone (failure env (calls s)))]).
Proof.
  intros Ho Hc Hp. pose proof (command_starts_with_slash _ _ Hc) as Hs.
  unfold run. rewrite (handler_command _ _ _ Ho Hs), tryCatch_run.
  rewrite (dispatch_autosend_wizard _ _ _ Hc Hp).
  destruct (failure env (calls s)); reflexivity.
Qed.

(** X2. An [/autosend] without ['|'], whatever follows the command
    name, starts the wizard: the sender gets a fresh entry at the first
    step, which replaces an entry they had, and is asked for the
    groups; the entries of other senders and the timers are not
    touched. *)
Theorem autosend_starts_wizard env s m :
  out m = false ->
  toLowerCase (hd [] (split 32 (text m))) = u "/autosend" ->
  ~ In 124 (text m) ->
  let s' := fst (run (Bot.handler m) env s) in
  snd (run (Bot.handler m) env s)
  = [Respond wizardStep1Text (isNone (failure env (calls s)))]
  /\ autosendStates s' !! sender m = Some Bot.freshWizard
  /\ (forall k, k <> sender m ->
                autosendStates s' !! k = autosendStates s !! k)
  /\ sameTimers s s'.
Proof.
  intros Ho Hc Hp s'. subst s'.
  rewrite (handler_autosend_wizard _ _ _ Ho Hc Hp). cbn [fst snd].
  split; [reflexivity |]. cbn [bump withTable autosendStates].
  split; [apply lookup_insert_eq |].
  split; [intros k Hk; now apply lookup_insert_ne |].
  now repeat split.
Qed.

(** [/autosend] from a sender without entry. *)
Lemma autosend_starts_wizard_witness :
  autosendStates
    (fst (run (Bot.handler (mkMessage false (u "/autosend") 7)) quietEnv
              initial)) !! 7%Z
  = Some Bot.freshWizard.
Proof.
  apply (autosend_starts_wizard quietEnv initial
           (mkMessage false (u "/autosend") 7));
    [reflexivity | reflexivity | cbn; intuition discriminate].
Defined.

(** X3. The whole conversation of the wizard: [/autosend], then a list
    of groups, an interval and a message, each in a text of its own,
    deliver nothing and register exactly one job, whose targets are
    the trimmed pieces of the list, whose delay is the parsed interval
    and whose message is the trimmed text; the four texts are answered
    in turn.  The entry of the sender is removed when the last answer
    went through; when it did not, the entry stays at the third step,
    so that the next text of the sender registers a job again.  The
    entries of other senders are not touched. *)
Theorem wizard_conversation env s who gt it mt g gs info :
  startsWithSlash gt = false -> startsWithSlash it = false ->
  startsWithSlash mt = false ->
  targetsOf (split 32 (trim gt)) = g :: gs ->
  parseIntervalText (Some (trim it)) = Some info ->
  trim mt <> [] ->
  let say t := Bot.Inbound (mkMessage false t who) in
  let talk := [say (u "/autosend"); say gt; say it; say mt] in
  let ok n := isNone (failure env (n + calls s)) in
  let s' := fst (Bot.reactAll env s talk) in
  snd (Bot.reactAll env s talk)
  = [Respond wizardStep1Text (ok 0%nat);
     Respond (groupsSetText (g :: gs)) (ok 1%nat);
     Respond (intervalSetText (label info)) (ok 2%nat);
     Respond (startedText (List.length (g :: gs)) (label info)) (ok 3%nat)]
  /\ activeTimers s' = activeTimers s ++ [nextTimer s]
  /\ liveTimers s'
     = liveTimers s ++ [{| timerId := nextTimer s; delay := intervalMs info;
                           timerGroups := g :: gs;
                           timerMessage := trim mt |}]
  /\ (ok 3%nat = true -> autosendStates s' !! who = None)
  /\ (ok 3%nat = false ->
      (exists w, autosendStates s' !! who = Some w
                 /\ step w = StepMessage /\ done w = false)
      /\ forall env2 again,
           startsWithSlash again = false -> trim again <> [] ->
           created s' (fst (run (Bot.handler (mkMessage false again who))
                                env2 s')))
  /\ (forall k, k <> who -> autosendStates s' !! k = autosendStates s !! k).
Proof.
  intros Hgt Hit Hmt Hg Hi Hm say talk ok s'.
  set (s1 := bump (withTable (insert who Bot.freshWizard) s)).
  set (w2 := Bot.setGroups (g :: gs) Bot.freshWizard).
  set (s2 := bump (withTable (alter (Bot.setGroups (g :: gs)) who) s1)).
  set (w3 := Bot.setIntervalFields (trim it) info w2).
  set (s3 := bump (withTable (alter (Bot.setIntervalFields (trim it) info)
                                    who) s2)).
  assert (H1 : run (Bot.handler (mkMessage false (u "/autosend") who)) env s
               = (s1, [Respond wizardStep1Text (ok 0%nat)])).
  { apply handler_autosend_wizard; [reflexivity | reflexivity |].
    cbn. intuition discriminate. }
  assert (L1 : autosendStates s1 !! who = Some Bot.freshWizard)
    by apply lookup_insert_eq.
  assert (H2 : run (Bot.handler (mkMessage false gt who)) env s1
               = (s2, [Respond (groupsSetText (g :: gs)) (ok 1%nat)])).
  { apply (handler_wizard_update env s1 (mkMessage false gt who)
             Bot.freshWizard); try reflexivity; try assumption.
    cbn [sender text].
    now rewrite (groups_step_run who Bot.freshWizard gt g gs eq_refl Hg). }
  assert (L2 : autosendStates s2 !! who = Some w2).
  { unfold s2. cbn [bump withTable autosendStates].
    now rewrite lookup_alter_eq, L1. }
  assert (H3 : run (Bot.handler (mkMessage false it who)) env s2
               = (s3, [Respond (intervalSetText (label info)) (ok 2%nat)])).
  { apply (handler_wizard_update env s2 (mkMessage false it who) w2);
      try reflexivity; try assumption.
    cbn [sender text].
    now rewrite (interval_step_run who w2 it info eq_refl Hi). }
  assert (L3 : autosendStates s3 !! who = Some w3).
  { unfold s3. cbn [bump withTable autosendStates].
    now rewrite lookup_alter_eq, L2. }
  pose proof (handler_wizard_message env s3 (mkMessage false mt who) w3 g gs
                info eq_refl Hmt L3 eq_refl eq_refl eq_refl eq_refl Hm) as H4.
  cbv zeta in H4. cbn [text sender] in H4.
  subst s' talk say. cbn [Bot.reactAll Bot.react].
  rewrite H1, H2, H3, H4. cbn [fst snd app].
  change (calls s3) with (3 + calls s)%nat. fold (ok 3%nat).
  split; [reflexivity |].
  assert (Hgs : targetsOf (g :: gs) = g :: gs)
    by (rewrite <- Hg; apply targetsOf_idem).
  set (job := jobOf (g :: gs) (trim mt) info s3).
  assert (Hact : activeTimers (bump job) = activeTimers s ++ [nextTimer s])
    by reflexivity.
  assert (Hlive : liveTimers (bump job)
                  = liveTimers s
                    ++ [{| timerId := nextTimer s; delay := intervalMs info;
                           timerGroups := g :: gs;
                           timerMessage := trim mt |}]).
  { unfold job, jobOf. now rewrite Hgs. }
  assert (Hother : forall k, k <> who ->
                     autosendStates (bump job) !! k = autosendStates s !! k).
  { intros k Hk. unfold job, jobOf, s3, s2, s1.
    cbn [bump withTable pushed registered autosendStates].
    rewrite !lookup_alter_ne by congruence. now apply lookup_insert_ne. }
  destruct (ok 3%nat); cbv beta iota.
  - split; [exact Hact |]. split; [exact Hlive |].
    split; [intros _; apply lookup_delete_eq |].
    split; [discriminate |].
    intros k Hk. cbn [withTable autosendStates].
    rewrite lookup_delete_ne by (intros Heq; apply Hk; now symmetry).
    now apply Hother.
  - split; [exact Hact |]. split; [exact Hlive |].
    split; [discriminate |]. split; [| exact Hother].
    intros _. split; [exists w3; split; [exact L3 | now split] |].
    intros env2 again Hs2 Ht2.
    pose proof (handler_wizard_message env2 (bump job)
                  (mkMessage false again who) w3 g gs info eq_refl Hs2 L3
                  eq_refl eq_refl eq_refl eq_refl Ht2) as Hrun.
    cbv zeta in Hrun. rewrite Hrun. cbn [fst].
    exists {| timerId := nextTimer (bump job); delay := intervalMs info;
              timerGroups := targetsOf (g :: gs);
              timerMessage := trim again |}.
    destruct (isNone (failure env2 (calls (bump job)))); cbn;
      repeat split.
Qed.

(** Two groups, five minutes, one message. *)
Lemma wizard_conversation_witness :
  activeTimers
    (fst (Bot.reactAll quietEnv initial
            [Bot.Inbound (mkMessage false (u "/autosend") 7);
             Bot.Inbound (mkMessage false (u "@a  @b") 7);
             Bot.Inbound (mkMessage false (u "5m") 7);
             Bot.Inbound (mkMessage false (u " Ping ") 7)]))
  = [0%nat].
Proof.
  assert (E : exists info,
             parseIntervalText (Some (trim (u "5m"))) = Some info)
    by (eexists; reflexivity).
  destruct E as [info E].
  apply (wizard_conversation quietEnv initial 7 (u "@a  @b") (u "5m")
           (u " Ping ") (u "@a") [u "@b"] info);
    try reflexivity; [exact E | discriminate].
Defined.

(** ** Commands and the wizard table *)

Lemma dispatch_keeps_table m :
  (toLowerCase (hd [] (split 32 (text m))) = u "/autosend" ->
   In 124 (text m)) ->
  KeepsTable (Bot.dispatch m).
Proof.
  intros H. unfold Bot.dispatch. cbv zeta.
  destruct (eqs _ (u "/send") && _); [keeps |].
  destruct (eqs _ (u "/sendmulti")); [keeps |].
  destruct (eqs _ (u "/autosend")) eqn:E; [| keeps].
  apply bool_decide_eq_true in E. specialize (H E).
  destruct (List.length (split 124 (text m)) =? 1)%nat eqn:E1; [| keeps].
  apply Nat.eqb_eq in E1. apply split_length_one in E1. contradiction.
Qed.

(** X4. A command does not disturb a wizard: a text that starts with a
    slash leaves the whole wizard table as it is, unless it is an
    [/autosend] without ['|'], which starts one. *)
Theorem commands_keep_wizard env s m :
  startsWithSlash (text m) = true ->
  (toLowerCase (hd [] (split 32 (text m))) = u "/autosend" ->
   In 124 (text m)) ->
  autosendStates (fst (run (Bot.handler m) env s)) = autosendStates s.
Proof.
  intros Hs Hc. rewrite run_state.
  destruct (out m) eqn:Ho.
  { unfold Bot.handler, stateOf. now rewrite tryCatch_run, Ho. }
  rewrite (handler_command _ _ _ Ho Hs).
  apply (KeepsTable_tryCatch (Bot.dispatch m) Bot.ignore).
  - now apply dispatch_keeps_table.
  - intros e. apply KeepsTable_ignore.
Qed.

(** [/help] in the middle of a wizard. *)
Lemma commands_keep_wizard_witness :
  autosendStates
    (fst (run (Bot.handler (mkMessage false (u "/help") 7)) quietEnv
              (withTable (insert 7%Z Bot.freshWizard) initial)))
  = autosendStates (withTable (insert 7%Z Bot.freshWizard) initial).
Proof.
  apply (commands_keep_wizard quietEnv
           (withTable (insert 7%Z Bot.freshWizard) initial)
           (mkMessage false (u "/help") 7));
    [reflexivity | intros H; vm_compute in H; discriminate H].
Defined.

(** ** The wizard table: its entries are consistent *)

Lemma wizardWf_done w : wizardWf w = true -> done w = false.
Proof.
  unfold wizardWf. intros H. apply andb_true_iff in H as [H _].
  now apply negb_true_iff.
Qed.

Lemma wizardWf_groups w :
  wizardWf w = true -> step w <> StepGroups ->
  exists g gs, groups w = Some (g :: gs).
Proof.
  unfold wizardWf, hasGroups. intros H Hst.
  apply andb_true_iff in H as [_ H].
  destruct (step w); [congruence | |];
    destruct (groups w) as [[| g gs] |]; try discriminate; eauto.
Qed.

Lemma wizardWf_message w :
  wizardWf w = true -> step w = StepMessage ->
  exists g gs info,
    groups w = Some (g :: gs) /\ intervalInfo w = Some info.
Proof.
  intros H Hst.
  destruct (wizardWf_groups w H) as (g & gs & Hg); [congruence |].
  exists g, gs. unfold wizardWf in H. rewrite Hst in H.
  destruct (intervalInfo w) as [info |]; [now exists info |].
  rewrite !andb_true_iff in H. now destruct H as [_ [_ H]].
Qed.

Lemma tableWf_initial : tableWf initial.
Proof. intros k w H. cbn in H. now rewrite lookup_empty in H. Qed.

Lemma tableWf_same s s' :
  autosendStates s' = autosendStates s -> tableWf s -> tableWf s'.
Proof. intros E H k w. rewrite E. apply H. Qed.

Lemma tableWf_alter s key f w :
  tableWf s -> autosendStates s !! key = Some w -> wizardWf (f w) = true ->
  tableWf (bump (withTable (alter f key) s)).
Proof.
  intros H Hw Hf k w0. cbn [bump withTable autosendStates].
  destruct (decide (k = key)) as [-> | Hk].
  - rewrite lookup_alter_eq, Hw. cbn. now intros [= <-].
  - rewrite lookup_alter_ne by congruence. apply H.
Qed.

(** The handler keeps the entries of the table consistent. *)
Lemma handler_tableWf m env s :
  tableWf s -> tableWf (fst (run (Bot.handler m) env s)).
Proof.
  intros Hok.
  destruct (out m) eqn:Ho.
  { unfold run, Bot.handler. rewrite tryCatch_run, Ho. exact Hok. }
  destruct (startsWithSlash (text m)) eqn:Hs.
  { rewrite run_state, (handler_command m env s Ho Hs).
    assert (Ht : autosendStates
                   (stateOf (tryCatch (Bot.dispatch m) Bot.ignore env s))
                 = autosendStates (stateOf (Bot.dispatch m env s))).
    { unfold stateOf. rewrite tryCatch_run.
      now destruct (Bot.dispatch m env s) as [[[a | e] s1] t1]. }
    intros k w. rewrite Ht.
    destruct (dispatch_table m) as [Hk | Hins].
    - rewrite (Hk env s). apply Hok.
    - rewrite (Hins env s). destruct (decide (sender m = k)) as [<- | Hne].
      + rewrite lookup_insert_eq. now intros [= <-].
      + rewrite lookup_insert_ne by exact Hne. apply Hok. }
  destruct (autosendStates s !! sender m) as [w |] eqn:Hw;
    [| now rewrite (ignored_without_entry env s m Hw Hs)].
  pose proof (Hok _ _ Hw) as Hwf.
  pose proof (wizardWf_done _ Hwf) as Hd.
  assert (Hreply : forall msg,
    Bot.processAutosendWizardInput (sender m) w (text m) env s
    = respond msg env s ->
    tableWf (fst (run (Bot.handler m) env s))).
  { intros msg E.
    now rewrite (handler_wizard_reply env s m w msg Ho Hs Hw Hd E). }
  destruct (step w) eqn:Hst.
  - destruct (targetsOf (split 32 (trim (text m)))) as [| g gs] eqn:Hg.
    + apply (Hreply noGroupsText).
      unfold Bot.processAutosendWizardInput. cbv zeta. rewrite Hst.
      unfold targetsOf in Hg. now rewrite Hg.
    + rewrite (handler_wizard_update env s m w (Bot.setGroups (g :: gs))
                 (groupsSetText (g :: gs)) Ho Hs Hw Hd).
      * apply (tableWf_alter s _ _ w Hok Hw).
        unfold wizardWf. cbn. now rewrite Hd.
      * now rewrite (groups_step_run _ w _ g gs Hst Hg).
  - destruct (parseIntervalText (Some (trim (text m)))) as [info |] eqn:Hi.
    + rewrite (handler_wizard_update env s m w
                 (Bot.setIntervalFields (trim (text m)) info)
                 (intervalSetText (label info)) Ho Hs Hw Hd).
      * apply (tableWf_alter s _ _ w Hok Hw).
        destruct (wizardWf_groups w Hwf) as (g & gs & Hg); [congruence |].
        unfold wizardWf, hasGroups. cbn. now rewrite Hd, Hg.
      * now rewrite (interval_step_run _ w _ info Hst Hi).
    + apply (Hreply invalidIntervalText).
      unfold Bot.processAutosendWizardInput. cbv zeta. now rewrite Hst, Hi.
  - destruct (trim (text m)) as [| c r] eqn:Ht.
    + apply (Hreply emptyMessageText).
      unfold Bot.processAutosendWizardInput. cbv zeta. now rewrite Hst, Ht.
    + destruct (wizardWf_message w Hwf Hst) as (g & gs & info & Hg & Hi).
      pose proof (handler_wizard_message env s m w g gs info Ho Hs Hw Hd
                    Hst Hg Hi) as H.
      rewrite Ht in H. cbv zeta in H. rewrite H by discriminate.
      destruct (isNone (failure env (calls s))); cbn [fst].
      * intros k w0. cbn [withTable bump jobOf pushed registered
                          autosendStates].
        destruct (decide (k = sender m)) as [-> | Hk].
        -- now rewrite lookup_delete_eq.
        -- rewrite lookup_delete_ne by congruence. apply Hok.
      * exact Hok.
Qed.

Lemma reactAll_tableWf env inputs : forall s,
  tableWf s -> tableWf (fst (Bot.reactAll env s inputs)).
Proof.
  induction inputs as [| i rest IH]; intros s H; [exact H |].
  rewrite reactAll_cons. cbn [fst]. apply IH.
  destruct i as [m | id]; cbn [Bot.react].
  - rewrite <- run_state. now apply handler_tableWf.
  - intros k w. rewrite (KeepsTable_fireTimer id env s). apply H.
Qed.

(** X5. In every state the process of src/bot.js reaches, every entry
    of the wizard table is consistent: it is not marked done, past the
    first step it has targets, and past the second a parsed interval.
    So a text with a message at the third step always registers a job:
    the reply that something went wrong with the wizard is never
    sent. *)
Theorem wizard_entries_consistent env inputs :
  let s := fst (Bot.reactAll env initial inputs) in
  (forall k w, autosendStates s !! k = Some w -> wizardWf w = true)
  /\ (forall env' m w,
         out m = false -> startsWithSlash (text m) = false ->
         autosendStates s !! sender m = Some w ->
         step w = StepMessage -> trim (text m) <> [] ->
         created s (fst (run (Bot.handler m) env' s))
         /\ silent (snd (run (Bot.handler m) env' s))).
Proof.
  intros s.
  assert (Hok : tableWf s) by apply reactAll_tableWf, tableWf_initial.
  split; [exact Hok |].
  intros env' m w Ho Hs Hw Hst Ht.
  pose proof (Hok _ _ Hw) as Hwf.
  destruct (wizardWf_message w Hwf Hst) as (g & gs & info & Hg & Hi).
  pose proof (handler_wizard_message env' s m w g gs info Ho Hs Hw
                (wizardWf_done _ Hwf) Hst Hg Hi Ht) as H.
  cbv zeta in H. rewrite H. cbn [fst snd]. split.
  - exists {| timerId := nextTimer s; delay := intervalMs info;
              timerGroups := targetsOf (g :: gs);
              timerMessage := trim (text m) |}.
    destruct (isNone (failure env' (calls s))); cbn; repeat split.
  - intros e [<- | []]. reflexivity.
Qed.

(** The third step, after the first two. *)
Lemma wizard_entries_consistent_witness :
  let talk := [Bot.Inbound (mkMessage false (u "/autosend") 7);
               Bot.Inbound (mkMessage false (u "@a @b") 7);
               Bot.Inbound (mkMessage false (u "5m") 7)] in
  let s := fst (Bot.reactAll quietEnv initial talk) in
  created s (fst (run (Bot.handler (mkMessage false (u " Ping ") 7))
                      quietEnv s))
  /\ silent (snd (run (Bot.handler (mkMessage false (u " Ping ") 7))
                      quietEnv s)).
Proof.
  intros talk s.
  destruct (wizard_entries_consistent quietEnv talk) as [_ H].
  assert (E : exists w, autosendStates s !! 7%Z = Some w
                        /\ step w = StepMessage)
    by (eexists; split; reflexivity).
  destruct E as (w & Hw & Hst).
  apply (H quietEnv (mkMessage false (u " Ping ") 7) w);
    [reflexivity | reflexivity | exact Hw | exact Hst | discriminate].
Defined.

(** ** [/send], word for word *)

Lemma no_space_in_send : ~ In 32 (u "/send").
Proof. cbn. intuition discriminate. Qed.

(** X6. [/send <target> <message>] delivers the message as it was
    typed, every space of it included, to the text between the first
    two spaces, and then confirms: splitting on spaces and joining
    with spaces gives the message back.  A second space right after
    the command name makes the target empty. *)
Theorem send_verbatim env s who g msg :
  ~ In 32 g ->
  run (Bot.handler (mkMessage false (u "/send" ++ 32 :: g ++ 32 :: msg) who))
      env s
  = (bump (bump s),
     [Delivery g msg (isNone (failure env (calls s)));
      Respond (sentToText g) (isNone (failure env (S (calls s))))]).
Proof.
  intros Hg.
  set (m := mkMessage false (u "/send" ++ 32 :: g ++ 32 :: msg) who).
  assert (Hparts : split 32 (text m) = u "/send" :: g :: split 32 msg).
  { unfold m. cbn [text].
    now rewrite (split_app_sep 32 _ _ no_space_in_send),
      (split_app_sep 32 _ _ Hg). }
  unfold run.
  rewrite (handler_command m env s eq_refl eq_refl), tryCatch_run.
  unfold Bot.dispatch. cbv zeta. rewrite Hparts. cbn [hd].
  change (toLowerCase (u "/send")) with (u "/send"). eval_eqs.
  destruct (split 32 msg) as [| p ps] eqn:Es;
    [now apply split_nonempty in Es |].
  cbn [List.length Nat.leb andb nth skipn]. rewrite <- Es.
  change (drop 0 (split 32 msg)) with (split 32 msg).
  change (u " ") with [32]. rewrite join_split.
  rewrite bind_run, sendMessageToGroup_run. cbv beta iota.
  rewrite respond_caught. reflexivity.
Qed.

(** A message with two spaces in a row and one at its end. *)
Lemma send_verbatim_witness :
  run (Bot.handler (mkMessage false (u "/send @g a  b ") 7)) quietEnv initial
  = (bump (bump initial),
     [Delivery (u "@g") (u "a  b ") true; Respond (sentToText (u "@g")) true]).
Proof.
  apply (send_verbatim quietEnv initial 7 (u "@g") (u "a  b ")).
  cbn. intuition discriminate.
Defined.

(** ** [/stats] *)

(** X7. [/stats] asks for the account and answers with its name and
    id; when the account cannot be read nothing is sent back.  Neither
    way is anything delivered or any timer touched. *)
Theorem stats_command env s m :
  isCommand (u "/stats") m ->
  run (Bot.handler m) env s
  = match failure env (calls s) with
    | None =>
        (bump (bump s),
         [GetMe true;
          Respond (statsText (me env)) (isNone (failure env (S (calls s))))])
    | Some _ => (bump s, [GetMe false])
    end.
Proof.
  intros [Ho Hc]. pose proof (command_starts_with_slash _ _ Hc) as Hs.
  unfold run. rewrite (handler_command _ _ _ Ho Hs), tryCatch_run.
  unfold Bot.dispatch. cbv zeta. rewrite Hc. eval_eqs. cbn [andb].
  rewrite tryCatch_run, bind_run. unfold getMe. rewrite bind_run.
  cbn [call]. cbv beta iota. rewrite bind_run. cbn [emit]. cbv beta iota.
  destruct (failure env (calls s)) as [e |]; [reflexivity |].
  rewrite bind_run. cbn [ask]. cbv beta iota. cbn [mret M_ret].
  cbv beta iota. rewrite respond_run.
  change (calls (bump s)) with (S (calls s)).
  destruct (failure env (S (calls s))); reflexivity.
Qed.

(** The account cannot be read. *)
Lemma stats_command_witness :
  run (Bot.handler (mkMessage false (u "/stats") 7))
      {| failure := fun _ => Some (u "offline");
         me := mkAccount [] [] 0; dialogs := [] |} initial
  = (bump initial, [GetMe false]).
Proof.
  apply (stats_command
           {| failure := fun _ => Some (u "offline");
              me := mkAccount [] [] 0; dialogs := [] |} initial
           (mkMessage false (u "/stats") 7)).
  split; reflexivity.
Defined.

(** ** [/autosend] that is refused *)

(** X8. An [/autosend] that is not well formed registers nothing: with
    a single ['|'] it is answered by the format text, and with an
    interval that does not parse, without target or with a blank
    message by the text for an invalid format; the state only counts
    one more collaborator call. *)
Theorem autosend_refused env s who rest itv :
  ~ In 124 rest -> ~ In 124 itv ->
  run (Bot.handler (mkMessage false (u "/autosend" ++ 32 :: rest ++ 124 :: itv)
                              who)) env s
  = (bump s, [Respond autosendFormatText (isNone (failure env (calls s)))])
  /\ (forall msg,
         parseIntervalText (Some (trim itv)) = None
         \/ filterTruthy (split 32 (trim rest)) = []
         \/ trim msg = [] ->
         run (Bot.handler
                (mkMessage false
                   (u "/autosend" ++ 32 :: rest ++ 124 :: itv ++ 124 :: msg)
                   who)) env s
         = (bump s,
            [Respond autosendInvalidText (isNone (failure env (calls s)))])).
Proof.
  intros Hr Hi.
  assert (Hcmd : ~ In 124 (u "/autosend" ++ 32 :: rest)).
  { intros Hin. apply in_app_or in Hin as [Hin | [Hin | Hin]];
      [now apply no_pipe_in_autosend | discriminate | contradiction]. }
  assert (Hhd : forall tail,
    hd [] (split 32 (u "/autosend" ++ 32 :: tail)) = u "/autosend").
  { intros tail. now rewrite (split_app_sep 32 _ _ no_space_in_autosend). }
  split.
  - set (m := mkMessage false (u "/autosend" ++ 32 :: rest ++ 124 :: itv) who).
    assert (Hpipe : split 124 (text m) = [u "/autosend" ++ 32 :: rest; itv]).
    { unfold m. cbn [text].
      change (u "/autosend" ++ 32 :: rest ++ 124 :: itv)
        with (u "/autosend" ++ (32 :: rest) ++ 124 :: itv).
      now rewrite app_assoc, (split_app_sep _ _ _ Hcmd), (split_none _ _ Hi). }
    unfold run.
    rewrite (handler_command m env s eq_refl eq_refl), tryCatch_run.
    unfold Bot.dispatch. cbv zeta. rewrite Hpipe. unfold m at 1. cbn [text].
    rewrite Hhd.
    change (toLowerCase (u "/autosend")) with (u "/autosend").
    eval_eqs. cbn [andb List.length Nat.eqb Nat.ltb Nat.leb].
    now rewrite respond_caught.
  - intros msg Hbad.
    set (m := mkMessage false
                (u "/autosend" ++ 32 :: rest ++ 124 :: itv ++ 124 :: msg) who).
    assert (Hpipe : split 124 (text m)
                    = (u "/autosend" ++ 32 :: rest) :: itv :: split 124 msg).
    { unfold m. cbn [text].
      change (u "/autosend" ++ 32 :: rest ++ 124 :: itv ++ 124 :: msg)
        with (u "/autosend" ++ (32 :: rest) ++ 124 :: itv ++ 124 :: msg).
      now rewrite app_assoc, (split_app_sep _ _ _ Hcmd),
        (split_app_sep _ _ _ Hi). }
    unfold run.
    rewrite (handler_command m env s eq_refl eq_refl), tryCatch_run.
    unfold Bot.dispatch. cbv zeta. rewrite Hpipe. unfold m at 1. cbn [text].
    rewrite Hhd.
    change (toLowerCase (u "/autosend")) with (u "/autosend").
    eval_eqs. cbn [andb hd nth skipn].
    change (drop 0 (split 124 msg)) with (split 124 msg).
    change (u "|") with [124]. rewrite join_split, removeFirst_prefix.
    change (trim (32 :: rest)) with (trim rest).
    destruct (split 124 msg) as [| p ps] eqn:Es;
      [now apply split_nonempty in Es |].
    cbn [List.length Nat.eqb Nat.ltb Nat.leb].
    destruct (parseIntervalText (Some (trim itv))) as [info |];
      [| now rewrite respond_caught].
    destruct (filterTruthy (split 32 (trim rest))) as [| g gs];
      [now rewrite respond_caught |].
    destruct (trim msg) as [| c r]; [now rewrite respond_caught |].
    destruct Hbad as [Hb | [Hb | Hb]]; discriminate Hb.
Qed.

(** An interval that is not one. *)
Lemma autosend_refused_witness :
  run (Bot.handler (mkMessage false (u "/autosend @a|soon") 7)) quietEnv
      initial
  = (bump initial, [Respond autosendFormatText true])
  /\ run (Bot.handler (mkMessage false (u "/autosend @a|soon|Ping") 7))
         quietEnv initial
     = (bump initial, [Respond autosendInvalidText true]).
Proof.
  destruct (autosend_refused quietEnv initial 7 (u "@a") (u "soon"))
    as [H1 H2]; [cbn; intuition discriminate | cbn; intuition discriminate |].
  split; [exact H1 |]. apply (H2 (u "Ping")). left. reflexivity.
Defined.

(** ** A job that fires *)

Lemma find_fresh_timer s tm :
  registryOk s -> timerId tm = nextTimer s ->
  List.find (fun t => Nat.eqb (timerId t) (nextTimer s)) (liveTimers s ++ [tm])
  = Some tm.
Proof.
  intros [Hlive Hold] Hid.
  assert (H : forall l, (forall t, In t l -> In t (liveTimers s)) ->
    List.find (fun t => Nat.eqb (timerId t) (nextTimer s)) (l ++ [tm])
    = Some tm).
  { induction l as [| t l IH]; intros Hl.
    - cbn. now rewrite Hid, Nat.eqb_refl.
    - cbn [app List.find].
      assert (Ht : (timerId t < nextTimer s)%nat)
        by (apply Hold, Hlive, Hl; now left).
      destruct (Nat.eqb_spec (timerId t) (nextTimer s)) as [E | _]; [lia |].
      apply IH. intros t' Ht'. apply Hl. now right. }
  now apply H.
Qed.

(** A timer whose list holds targets only fires like the loop of
    [/sendmulti] on the list it was made from. *)
Lemma fire_run id tm env s :
  List.find (fun t => Nat.eqb (timerId t) id) (liveTimers s) = Some tm ->
  exists s',
    run (Bot.fireTimer id) env s
    = (s', paced (attempts env (calls s) (timerMessage tm) (timerGroups tm)))
    /\ sameTimers s s' /\ autosendStates s' = autosendStates s.
Proof.
  intros Hf. unfold run, Bot.fireTimer. rewrite bind_run. cbn [get].
  cbv beta iota. rewrite Hf.
  destruct (tickLoop_run (timerMessage tm) (timerGroups tm) env s)
    as (s' & -> & Ha & Hl & Hn & Hw).
  exists s'. cbn [app]. repeat split; assumption.
Qed.

(** X9. In a state whose live timers are all registered, a well-formed
    [/autosend <targets>|<interval>|<message>] registers one timer,
    under the next fresh handle, with the parsed interval for delay.
    Every firing of that timer attempts the message, trimmed and with
    the ['|'] it contains, on each target of the text once and in
    order, with the pacing delay between consecutive attempts, and
    leaves the timers as they are: the job goes on firing that way as
    long as the timers are not touched. *)
Theorem job_fires env s who rest itv msg info :
  registryOk s ->
  ~ In 124 rest -> ~ In 124 itv ->
  parseIntervalText (Some (trim itv)) = Some info ->
  filterTruthy (split 32 (trim rest)) <> [] ->
  trim msg <> [] ->
  let m := mkMessage false
             (u "/autosend" ++ 32 :: rest ++ 124 :: itv ++ 124 :: msg)
             who in
  let targets := targetsOf (split 32 (trim rest)) in
  let s1 := fst (run (Bot.handler m) env s) in
  liveTimers s1
  = liveTimers s ++ [{| timerId := nextTimer s; delay := intervalMs info;
                        timerGroups := targets; timerMessage := trim msg |}]
  /\ activeTimers s1 = activeTimers s ++ [nextTimer s]
  /\ (forall env' s2,
         liveTimers s2 = liveTimers s1 ->
         snd (run (Bot.fireTimer (nextTimer s)) env' s2)
         = paced (attempts env' (calls s2) (trim msg) targets)
         /\ liveTimers (fst (run (Bot.fireTimer (nextTimer s)) env' s2))
            = liveTimers s1).
Proof.
  intros Hok Hr Hi Hinfo Hg Hm m targets s1.
  pose proof (autosend_registers env s who rest itv msg info Hr Hi Hinfo Hg Hm)
    as Hrun.
  cbv zeta in Hrun. subst s1 m. rewrite Hrun. cbn [fst].
  cbn [bump pushed registered liveTimers activeTimers].
  change (filterTruthy (List.map trim (filterTruthy (split 32 (trim rest)))))
    with (targetsOf (filterTruthy (split 32 (trim rest)))).
  rewrite targetsOf_filterTruthy. fold targets.
  split; [reflexivity |]. split; [reflexivity |].
  intros env' s2 Hlive.
  set (tm := {| timerId := nextTimer s; delay := intervalMs info;
                timerGroups := targets; timerMessage := trim msg |}) in *.
  assert (Hf : List.find (fun t => Nat.eqb (timerId t) (nextTimer s))
                         (liveTimers s2) = Some tm).
  { rewrite Hlive. now apply find_fresh_timer. }
  destruct (fire_run (nextTimer s) tm env' s2 Hf)
    as (s' & -> & (_ & Hl & _) & _).
  cbn [fst snd]. split; [reflexivity | congruence].
Qed.

(** Two targets, a message with a ['|']. *)
Lemma job_fires_witness :
  snd (run (Bot.fireTimer 0) quietEnv
           (fst (run (Bot.handler
                        (mkMessage false (u "/autosend @a  @b|10m|Ping|Pong")
                                   7)) quietEnv initial)))
  = [Delivery (u "@a") (u "Ping|Pong") true; Sleep 5000;
     Delivery (u "@b") (u "Ping|Pong") true].
Proof.
  assert (E : exists info,
             parseIntervalText (Some (trim (u "10m"))) = Some info)
    by (eexists; reflexivity).
  destruct E as [info E].
  apply (job_fires quietEnv initial 7 (u "@a  @b") (u "10m") (u "Ping|Pong")
           info registryOk_initial);
    first [exact E | reflexivity | cbn; intuition discriminate].
Defined.

(** ** Replies of the allow-list variant *)

Lemma reply_exact peer msg env s :
  Gated.reply peer msg env s
  = (Returned tt, bumps (replyCalls env (calls s)) s,
     replyTrace env (calls s) peer msg).
Proof.
  unfold Gated.reply, replyTrace, replyCalls.
  rewrite tryCatch_run, respond_run.
  destruct (failure env (calls s)) as [e |]; [| reflexivity].
  rewrite tryCatch_run, sendDirect_run.
  change (calls (bump s)) with (S (calls s)).
  destruct (failure env (S (calls s))); reflexivity.
Qed.

Lemma gated_handler_command m env s name :
  out m = false ->
  toLowerCase (hd [] (split 32 (text m))) = 47 :: name ->
  name <> [] ->
  Gated.includes Gated.allowedUserIds (sender m) = true ->
  Gated.handler m env s
  = tryCatch (Gated.dispatch m (split 32 (text m)) name) Gated.ignore env s.
Proof.
  intros Ho Hc Hn Ha.
  pose proof (command_starts_with_slash _ _ Hc) as Hs.
  unfold Gated.handler. rewrite Ho, Hs. cbv zeta. rewrite Hc.
  cbn [Gated.dropOneSlash negb]. rewrite N.eqb_refl.
  destruct name as [| c r]; [congruence |]. cbn [truthy negb].
  now rewrite Ha.
Qed.

Lemma tryCatch_returned {A} (m : M A) h env s a s1 t1 :
  m env s = (Returned a, s1, t1) -> tryCatch m h env s = (Returned a, s1, t1).
Proof. intros E. now rewrite tryCatch_run, E. Qed.

(** ** Unknown commands in the allow-list variant *)

(** X10. In the allow-list variant, a command of an allowed sender that
    is none of the known ones, and a [/send] with fewer than two
    arguments, is answered by the hint to type [/help], by a response
    or, when the response fails, by a direct message; nothing else
    happens. *)
Theorem gated_unknown_command env s m name :
  out m = false ->
  toLowerCase (hd [] (split 32 (text m))) = 47 :: name ->
  name <> [] ->
  Gated.includes Gated.allowedUserIds (sender m) = true ->
  (name = u "send" -> (List.length (split 32 (text m)) < 3)%nat) ->
  ~ In name [u "sendmulti"; u "autosend"; u "help"; u "stats";
             u "stoptimers"; u "has"] ->
  run (Gated.handler m) env s
  = (bumps (replyCalls env (calls s)) s,
     replyTrace env (calls s) (sender m) gatedUnknownText).
Proof.
  intros Ho Hc Hn Ha Hsend Hother. unfold run.
  rewrite (gated_handler_command m env s name Ho Hc Hn Ha).
  assert (Hno : forall x, In x [u "sendmulti"; u "autosend"; u "help";
                                u "stats"; u "stoptimers"; u "has"] ->
                          eqs name x = false).
  { intros x Hx. apply bool_decide_eq_false. intros ->. contradiction. }
  unfold Gated.dispatch. cbv zeta.
  assert (Hs : eqs name (u "send")
               && (3 <=? List.length (split 32 (text m)))%nat = false).
  { destruct (eqs name (u "send")) eqn:E; [| reflexivity].
    apply bool_decide_eq_true in E. specialize (Hsend E).
    cbn [andb]. apply Nat.leb_gt. lia. }
  rewrite Hs.
  rewrite !Hno by (cbn; tauto).
  now rewrite (tryCatch_returned _ _ _ _ _ _ _ (reply_exact _ _ _ _)).
Qed.

(** [/send] without message. *)
Lemma gated_unknown_command_witness :
  run (Gated.handler (mkMessage false (u "/send @g") 1016048363)) quietEnv
      initial
  = (bump initial, [Respond gatedUnknownText true]).
Proof.
  apply (gated_unknown_command quietEnv initial
           (mkMessage false (u "/send @g") 1016048363) (u "send"));
    try reflexivity; [discriminate | intros _; vm_compute; lia |].
  cbn. intuition discriminate.
Defined.

(** ** The listing of [/has] *)

Lemma chunkLines_concat lines : forall chunks current,
  List.concat (Gated.chunkLines chunks current lines)
  = List.concat chunks ++ current ++ List.concat lines.
Proof.
  induction lines as [| line rest IH]; intros chunks current;
    cbn [Gated.chunkLines List.concat].
  - rewrite app_nil_r. destruct current as [| c r]; cbn [truthy].
    + now rewrite app_nil_r.
    + rewrite concat_app. cbn [List.concat]. now rewrite app_nil_r.
  - destruct (4000 <? List.length (current ++ line))%nat; rewrite IH.
    + rewrite concat_app. cbn [List.concat].
      now rewrite app_nil_r, <- !app_assoc.
    + now rewrite <- !app_assoc.
Qed.

(** X11. The responses of a [/has] listing, put end to end, are the
    listing: whatever the lengths of the header and of the lines,
    chunking loses nothing, repeats nothing and keeps the order. *)
Theorem listing_preserves_content header lines :
  List.concat (Gated.listingResponses header lines)
  = header ++ List.concat lines.
Proof.
  unfold Gated.listingResponses.
  destruct (4096 <? List.length (header ++ List.concat lines))%nat.
  - now rewrite chunkLines_concat.
  - cbn [List.concat]. now rewrite app_nil_r.
Qed.

Lemma replyAll_quietly env peer chunks : forall s,
  (forall n, failure env n = None) ->
  Gated.replyAll peer chunks env s
  = (Returned tt, bumps (List.length chunks) s,
     List.map (fun c => Respond c true) chunks).
Proof.
  induction chunks as [| c rest IH]; intros s Hnone; [reflexivity |].
  cbn [Gated.replyAll]. rewrite bind_run, reply_exact.
  unfold replyCalls, replyTrace. rewrite Hnone. cbv beta iota.
  rewrite (IH _ Hnone). cbn [List.length List.map app bumps].
  f_equal. f_equal. clear. induction (List.length rest) as [| n IHn];
    [reflexivity |]. cbn [bumps]. now rewrite IHn.
Qed.

Lemma gated_has_body m env s :
  out m = false ->
  toLowerCase (hd [] (split 32 (text m))) = u "/has" ->
  Gated.includes Gated.allowedUserIds (sender m) = true ->
  Gated.handler m env s
  = tryCatch
      (tryCatch
         (Gated.replyOrThrow (sender m) fetchingText;;
          ds ← getDialogs;
          match Gated.collectGroups ds with
          | [] => Gated.reply (sender m) noneFoundText
          | _ :: _ =>
              Gated.replyAll (sender m)
                (Gated.listingResponses
                   (listHeader (List.length (Gated.collectGroups ds)))
                   (Gated.formatLines 0 (Gated.collectGroups ds)))
          end)
         (fun e => Gated.reply (sender m) (errorText e)))
      Gated.ignore env s.
Proof.
  intros Ho Hc Ha.
  rewrite (gated_handler_command m env s (u "has") Ho Hc ltac:(discriminate)
             Ha).
  unfold Gated.dispatch. cbv zeta. eval_eqs. cbn [andb]. reflexivity.
Qed.

Lemma getDialogs_run env s :
  getDialogs env s
  = (match failure env (calls s) with
     | None => Returned (dialogs env)
     | Some e => Thrown e
     end, bump s, [GetDialogs (isNone (failure env (calls s)))]).
Proof.
  unfold getDialogs. rewrite bind_run. cbn [call]. cbv beta iota.
  rewrite bind_run. cbn [emit]. cbv beta iota.
  destruct (failure env (calls s)); reflexivity.
Qed.

(** X12. [/has], when no collaborator call fails: the sender is told
    that the groups are being fetched, the dialogs are fetched, and the
    answer is the listing of the groups and channels among them, in one
    response or in its chunks, or the text that none was found. *)
Theorem has_lists_groups env s m :
  out m = false ->
  toLowerCase (hd [] (split 32 (text m))) = u "/has" ->
  Gated.includes Gated.allowedUserIds (sender m) = true ->
  (forall n, failure env n = None) ->
  let gs := Gated.collectGroups (dialogs env) in
  snd (run (Gated.handler m) env s)
  = Respond fetchingText true :: GetDialogs true
    :: match gs with
       | [] => [Respond noneFoundText true]
       | _ :: _ =>
           List.map (fun c => Respond c true)
                    (Gated.listingResponses
                       (listHeader (List.length gs))
                       (Gated.formatLines 0 gs))
       end.
Proof.
  intros Ho Hc Ha Hnone gs. unfold run.
  rewrite (gated_has_body m env s Ho Hc Ha), !tryCatch_run, bind_run.
  unfold Gated.replyOrThrow. rewrite tryCatch_run, respond_run, Hnone.
  cbv beta iota. rewrite bind_run, getDialogs_run, Hnone. cbv beta iota.
  fold gs. destruct gs as [| g gs'] eqn:Eg.
  - rewrite reply_exact. unfold replyTrace. now rewrite Hnone.
  - now rewrite (replyAll_quietly env _ _ _ Hnone).
Qed.

(** A user and a channel among the dialogs. *)
Lemma has_lists_groups_witness :
  let env := {| failure := fun _ => None; me := mkAccount [] [] 0;
                dialogs := [mkEntity (u "User") (u "Bob") [] 5;
                            mkEntity (u "Channel") (u "News") (u "news") 9] |}
  in
  snd (run (Gated.handler (mkMessage false (u "/has") 1016048363)) env
           initial)
  = [Respond fetchingText true; GetDialogs true;
     Respond (listHeader 1 ++ u "1. News" ++ [10] ++ u "   @news" ++ [10])
             true].
Proof.
  intros env.
  apply (has_lists_groups env initial
           (mkMessage false (u "/has") 1016048363));
    reflexivity.
Defined.

(** X13. [/has], when the dialogs cannot be fetched: once the notice
    has gone out, by a response or, when the response fails, by a
    direct message, the dialogs are asked for, and the error of that
    query is reported to the sender with its message, by a response or,
    when the response fails, by a direct message; no listing is
    sent. *)
Theorem has_reports_failure env s m e :
  out m = false ->
  toLowerCase (hd [] (split 32 (text m))) = u "/has" ->
  Gated.includes Gated.allowedUserIds (sender m) = true ->
  failure env (calls s) = None \/ failure env (S (calls s)) = None ->
  failure env (calls s + replyCalls env (calls s)) = Some e ->
  snd (run (Gated.handler m) env s)
  = replyTrace env (calls s) (sender m) fetchingText
    ++ GetDialogs false
       :: replyTrace env (S (calls s + replyCalls env (calls s))) (sender m)
                     (errorText e).
Proof.
  intros Ho Hc Ha Hsent Hq. unfold run.
  rewrite (gated_has_body m env s Ho Hc Ha), !tryCatch_run, bind_run.
  unfold Gated.replyOrThrow. rewrite tryCatch_run, respond_run.
  unfold replyTrace at 1. unfold replyCalls in *.
  destruct (failure env (calls s)) as [e0 |] eqn:E0; cbv beta iota.
  - destruct Hsent as [Hsent | Hsent]; [discriminate |].
    rewrite sendDirect_run. change (calls (bump s)) with (S (calls s)).
    rewrite Hsent. cbv beta iota. rewrite bind_run, getDialogs_run.
    change (calls (bump (bump s))) with (S (S (calls s))).
    replace (calls s + 2)%nat with (S (S (calls s))) in * by lia.
    rewrite Hq. cbv beta iota. rewrite reply_exact.
    cbn [isNone app]. reflexivity.
  - rewrite bind_run, getDialogs_run.
    change (calls (bump s)) with (S (calls s)).
    replace (calls s + 1)%nat with (S (calls s)) in * by lia.
    rewrite Hq. cbv beta iota. now rewrite reply_exact.
Qed.

(** The notice goes out as a direct message, then the query fails. *)
Lemma has_reports_failure_witness :
  snd (run (Gated.handler (mkMessage false (u "/has") 1016048363))
           {| failure := fun n => if Nat.eqb n 1 then None
                                  else Some (u "flood");
              me := mkAccount [] [] 0; dialogs := [] |} initial)
  = [Respond fetchingText false; Direct 1016048363 fetchingText true;
     GetDialogs false;
     Respond (errorText (u "flood")) false;
     Direct 1016048363 (errorText (u "flood")) false].
Proof.
  apply (has_reports_failure
           {| failure := fun n => if Nat.eqb n 1 then None
                                  else Some (u "flood");
              me := mkAccount [] [] 0; dialogs := [] |} initial
           (mkMessage false (u "/has") 1016048363) (u "flood"));
    try reflexivity.
  right. reflexivity.
Defined.

(** ** [/autosend] in the allow-list variant *)

Lemma parseIntervalText_inv t info :
  parseIntervalText (Some t) = Some info ->
  exists m1 m2,
    matchInterval (trim t) = Some (m1, m2)
    /\ notPositive (parseFloat m1) = false
    /\ intervalMs info
       = msOf (parseFloat m1)
              (toLowerCase (if truthy m2 then m2 else u "h")).
Proof.
  unfold parseIntervalText. change (default [] (Some t)) with t.
  destruct (matchInterval (trim t)) as [[m1 m2] |] eqn:Em; [| discriminate].
  cbv zeta. destruct (notPositive (parseFloat m1)) eqn:E; [discriminate |].
  intros [= <-]. exists m1, m2. now repeat split.
Qed.

Lemma removeCommandPrefix_autosend rest :
  removeCommandPrefix (u "autosend") (u "/autosend" ++ 32 :: rest)
  = trimStart rest.
Proof. reflexivity. Qed.

Lemma trim_trimStart s : trim (trimStart s) = trim s.
Proof. unfold trim. now rewrite trimStart_idem. Qed.

(** A well-formed [/autosend] of an allowed sender. *)
Lemma gated_autosend_run env s who rest itv msg info :
  Gated.includes Gated.allowedUserIds who = true ->
  ~ In 124 rest -> ~ In 124 itv ->
  parseIntervalText (Some (trim itv)) = Some info ->
  filterTruthy (splitWs (trim rest)) <> [] ->
  trim msg <> [] ->
  let m := mkMessage false
             (u "/autosend" ++ 32 :: rest ++ 124 :: itv ++ 124 :: msg)
             who in
  let grps := filterTruthy (splitWs (trim rest)) in
  let job := pushed (nextTimer s)
                    (registered grps (trim msg) (intervalMs info) s) in
  run (Gated.handler m) env s
  = (bumps (replyCalls env (calls s)) job,
     replyTrace env (calls s) who
                (startedText (List.length grps) (trim itv))).
Proof.
  intros Ha Hr Hi Hinfo Hg Hm m grps job.
  destruct (parseIntervalText_inv _ _ Hinfo) as (m1 & m2 & Hmatch & Hpos
                                                 & Hms).
  rewrite trim_idem in Hmatch.
  assert (Hhd : hd [] (split 32 (text m)) = u "/autosend").
  { unfold m. cbn [text].
    now rewrite (split_app_sep 32 _ _ no_space_in_autosend). }
  assert (Hpipe : split 124 (text m)
                  = (u "/autosend" ++ 32 :: rest) :: itv :: split 124 msg).
  { unfold m. cbn [text].
    change (u "/autosend" ++ 32 :: rest ++ 124 :: itv ++ 124 :: msg)
      with (u "/autosend" ++ (32 :: rest) ++ 124 :: itv ++ 124 :: msg).
    rewrite app_assoc, split_app_sep, (split_app_sep _ _ _ Hi);
      [reflexivity |].
    intros Hin. apply in_app_or in Hin as [Hin | [Hin | Hin]];
      [now apply no_pipe_in_autosend | discriminate | contradiction]. }
  unfold run.
  rewrite (gated_handler_command m env s (u "autosend") eq_refl
             ltac:(now rewrite Hhd) ltac:(discriminate) Ha).
  unfold Gated.dispatch. cbv zeta. rewrite Hpipe. eval_eqs.
  cbn [andb hd nth skipn].
  change (drop 0 (split 124 msg)) with (split 124 msg).
  change (u "|") with [124].
  rewrite join_split, removeCommandPrefix_autosend, trim_trimStart.
  subst job grps.
  destruct (split 124 msg) as [| p ps] eqn:Es;
    [now apply split_nonempty in Es |].
  cbn [List.length Nat.ltb Nat.leb]. rewrite Hmatch.
  destruct (filterTruthy (splitWs (trim rest))) as [| g gs]; [congruence |].
  destruct (trim msg) as [| c r] eqn:Et; [congruence |].
  rewrite Hpos, <- Hms.
  rewrite tryCatch_run, bind_run.
  change (setInterval (g :: gs) (c :: r) (intervalMs info) env s)
    with (Returned (nextTimer s),
          registered (g :: gs) (c :: r) (intervalMs info) s, @nil Event).
  cbv beta iota. rewrite bind_run.
  change (pushTimer (nextTimer s) env
            (registered (g :: gs) (c :: r) (intervalMs info) s))
    with (Returned tt,
          pushed (nextTimer s)
                 (registered (g :: gs) (c :: r) (intervalMs info) s),
          @nil Event).
  cbv beta iota. rewrite reply_exact. reflexivity.
Qed.

(** ** The registry mirrors the runtime *)

Lemma mirrored_initial : mirrored initial.
Proof. reflexivity. Qed.

Lemma mirrored_step s s' : mirrored s -> TimerStep s s' -> mirrored s'.
Proof.
  unfold mirrored.
  intros H [(A & L & _) | [(tm & A & L & I & _) | (A & L & _)]].
  - now rewrite A, L.
  - rewrite A, L, map_app, H. cbn. now rewrite I.
  - rewrite A, L, <- H.
    assert (Hall : forall (l0 : list Timer) ids,
      (forall t0, In t0 l0 -> In (timerId t0) ids) ->
      List.filter (fun t0 => negb (existsb (Nat.eqb (timerId t0)) ids)) l0
      = []).
    { clear. induction l0 as [| t0 l0 IH0]; intros ids Hin; [reflexivity |].
      cbn [List.filter].
      assert (Ht : existsb (Nat.eqb (timerId t0)) ids = true).
      { apply existsb_exists. exists (timerId t0).
        split; [apply Hin; now left | apply Nat.eqb_refl]. }
      rewrite Ht. cbn [negb]. apply IH0. intros t1 H1. apply Hin. now right. }
    rewrite Hall; [reflexivity |]. intros t0 H0. now apply in_map.
Qed.

(** ** Timers in the allow-list variant *)

Lemma Quiet_reply peer msg : Quiet (Gated.reply peer msg).
Proof. unfold Gated.reply. quiet. Qed.

Lemma Quiet_replyOrThrow peer msg : Quiet (Gated.replyOrThrow peer msg).
Proof. unfold Gated.replyOrThrow. quiet. Qed.

Lemma Quiet_replyAll peer chunks : Quiet (Gated.replyAll peer chunks).
Proof.
  induction chunks as [| c rest IH]; cbn [Gated.replyAll]; [apply Quiet_ret |].
  apply Quiet_bind; [apply Quiet_reply | intros _; exact IH].
Qed.

Lemma Quiet_getDialogs : Quiet getDialogs.
Proof.
  intros env s. unfold stateOf. rewrite getDialogs_run. now repeat split.
Qed.

Lemma Timed_register grps msg ms (k : M unit) :
  Quiet k ->
  Timed (timer ← setInterval grps msg ms; pushTimer timer;; k).
Proof.
  intros Hk env s. unfold stateOf. rewrite bind_run.
  change (setInterval grps msg ms env s)
    with (Returned (nextTimer s), registered grps msg ms s, @nil Event).
  cbv beta iota. rewrite bind_run.
  change (pushTimer (nextTimer s) env (registered grps msg ms s))
    with (Returned tt, pushed (nextTimer s) (registered grps msg ms s),
          @nil Event).
  cbv beta iota.
  pose proof (Hk env (pushed (nextTimer s) (registered grps msg ms s))) as H.
  unfold stateOf in H.
  destruct (k env _) as [[r s2] t2]. cbn [fst snd] in *.
  apply TimerStep_same_r
    with (pushed (nextTimer s) (registered grps msg ms s)); [| exact H].
  right; left. apply created_by_timer.
Qed.

Ltac gated_quiet :=
  repeat first
    [ apply Quiet_ret | apply Quiet_throw
    | apply Quiet_reply | apply Quiet_replyOrThrow | apply Quiet_replyAll
    | apply Quiet_getDialogs
    | apply Quiet_respond | apply Quiet_sendDirect | apply Quiet_getMe
    | apply Quiet_sendLoop | apply Quiet_sendMessageToGroup
    | apply Quiet_sleep | apply Quiet_get
    | apply Quiet_bind; [| intros ?]
    | apply Quiet_tryCatch; [| intros ?]
    | match goal with
      | |- Quiet (if ?b then _ else _) => destruct b
      | |- Quiet (match ?x with _ => _ end) => destruct x
      end ].

Ltac gated_timed :=
  repeat first
    [ solve [apply Timed_Quiet; gated_quiet]
    | solve [apply Timed_register; gated_quiet]
    | solve [apply Timed_tryCatch;
             [apply Timed_bind_r;
              [apply Timed_stopTimers | intros ?; gated_quiet]
             | intros ?; gated_quiet]]
    | match goal with
      | |- Timed (if ?b then _ else _) => destruct b
      | |- Timed (match ?x with _ => _ end) => destruct x
      end ].

Lemma Timed_gated_dispatch m parts command :
  Timed (Gated.dispatch m parts command).
Proof. unfold Gated.dispatch. cbv zeta. gated_timed. Qed.

Lemma Timed_gated_handler m : Timed (Gated.handler m).
Proof.
  unfold Gated.handler. cbv zeta.
  apply Timed_tryCatch; [| intros ?; gated_quiet].
  destruct (out m); [gated_timed |].
  destruct (negb (startsWithSlash (text m))); [gated_timed |].
  destruct (negb (truthy _)); [gated_timed |].
  destruct (negb (Gated.includes _ _)); [gated_timed |].
  apply Timed_gated_dispatch.
Qed.

Lemma Quiet_gated_fireTimer id : Quiet (Gated.fireTimer id).
Proof. unfold Gated.fireTimer. gated_quiet. Qed.

Lemma Timed_gated_react i : Timed (GatedProcess.react i).
Proof.
  destruct i; cbn [GatedProcess.react];
    [apply Timed_gated_handler | apply Timed_Quiet, Quiet_gated_fireTimer].
Qed.

Lemma gated_reactAll_cons env s i rest :
  GatedProcess.reactAll env s (i :: rest)
  = (fst (GatedProcess.reactAll env (stateOf (GatedProcess.react i env s))
                                rest),
     traceOf (GatedProcess.react i env s)
     ++ snd (GatedProcess.reactAll env (stateOf (GatedProcess.react i env s))
                                   rest)).
Proof.
  cbn [GatedProcess.reactAll]. unfold run, stateOf, traceOf.
  destruct (GatedProcess.react i env s) as [[r s1] t1]. cbn [fst snd].
  now destruct (GatedProcess.reactAll env s1 rest).
Qed.

Lemma reactAll_mirrored env inputs : forall s,
  mirrored s -> mirrored (fst (Bot.reactAll env s inputs)).
Proof.
  induction inputs as [| i rest IH]; intros s H; [exact H |].
  rewrite reactAll_cons. cbn [fst]. apply IH.
  apply (mirrored_step s); [exact H | apply Timed_react].
Qed.

Lemma gated_reactAll_mirrored env inputs : forall s,
  mirrored s -> mirrored (fst (GatedProcess.reactAll env s inputs)).
Proof.
  induction inputs as [| i rest IH]; intros s H; [exact H |].
  rewrite gated_reactAll_cons. cbn [fst]. apply IH.
  apply (mirrored_step s); [exact H | apply Timed_gated_react].
Qed.

(** X14. In both variants, in every state the process reaches, the
    registry [activeTimers] lists exactly the handles of the timers
    that are live, in the order of their creation. *)
Theorem registry_mirrors_runtime env inputs :
  mirrored (fst (Bot.reactAll env initial inputs))
  /\ mirrored (fst (GatedProcess.reactAll env initial inputs)).
Proof.
  split; [apply reactAll_mirrored | apply gated_reactAll_mirrored];
    apply mirrored_initial.
Qed.

(** ** [/stats] and [/stoptimers] in the allow-list variant *)

Lemma replyOrThrow_exact peer msg env s :
  exists res,
    Gated.replyOrThrow peer msg env s
    = (res, bumps (replyCalls env (calls s)) s,
       replyTrace env (calls s) peer msg).
Proof.
  unfold Gated.replyOrThrow, replyTrace, replyCalls.
  rewrite tryCatch_run, respond_run.
  destruct (failure env (calls s)) as [e |]; [| now eexists].
  rewrite sendDirect_run. change (calls (bump s)) with (S (calls s)).
  destruct (failure env (S (calls s))); now eexists.
Qed.

(** X15. In the allow-list variant, in every state the process
    reaches, the number of active timers in the answer of [/stats],
    which is sent when the account can be read, is the number of jobs
    whose timer is live. *)
Theorem gated_stats_counts_jobs env inputs env' m :
  let s := fst (GatedProcess.reactAll env initial inputs) in
  out m = false ->
  toLowerCase (hd [] (split 32 (text m))) = u "/stats" ->
  Gated.includes Gated.allowedUserIds (sender m) = true ->
  failure env' (calls s) = None ->
  snd (run (Gated.handler m) env' s)
  = GetMe true
    :: replyTrace env' (S (calls s)) (sender m)
                  (gatedStatsText (me env') (List.length (liveTimers s))).
Proof.
  intros s Ho Hc Ha Hme.
  assert (Hmir : mirrored s)
    by apply gated_reactAll_mirrored, mirrored_initial.
  unfold run.
  rewrite (gated_handler_command m env' s (u "stats") Ho Hc
             ltac:(discriminate) Ha).
  unfold Gated.dispatch. cbv zeta. eval_eqs. cbn [andb].
  rewrite !tryCatch_run, bind_run. unfold getMe. rewrite bind_run.
  cbn [call]. cbv beta iota. rewrite bind_run. cbn [emit]. cbv beta iota.
  rewrite Hme. rewrite bind_run. cbn [ask]. cbv beta iota.
  cbn [mret M_ret]. cbv beta iota. rewrite bind_run. cbn [get].
  cbv beta iota.
  change (activeTimers (bump s)) with (activeTimers s).
  rewrite <- Hmir, length_map.
  destruct (replyOrThrow_exact (sender m)
              (gatedStatsText (me env') (List.length (liveTimers s)))
              env' (bump s)) as (res & ->).
  change (calls (bump s)) with (S (calls s)).
  destruct res; cbn; rewrite ?app_nil_r; reflexivity.
Qed.

(** After one [/autosend]. *)
Lemma gated_stats_counts_jobs_witness :
  snd (run (Gated.handler (mkMessage false (u "/stats") 1016048363)) quietEnv
           (fst (GatedProcess.reactAll quietEnv initial
                   [Bot.Inbound
                      (mkMessage false (u "/autosend @a|10m|Ping")
                                 1016048363)])))
  = [GetMe true; Respond (gatedStatsText (mkAccount [] [] 0) 1) true].
Proof.
  apply (gated_stats_counts_jobs quietEnv
           [Bot.Inbound
              (mkMessage false (u "/autosend @a|10m|Ping") 1016048363)]
           quietEnv (mkMessage false (u "/stats") 1016048363));
    reflexivity.
Defined.

Lemma mirrored_empty s : mirrored s -> activeTimers s = [] -> liveTimers s = [].
Proof.
  unfold mirrored. intros H A. rewrite A in H.
  now destruct (liveTimers s).
Qed.

Lemma clear_all_calls ids : forall s,
  calls (fold_left (fun acc id => clearInterval id acc) ids s) = calls s.
Proof.
  induction ids as [| id ids IH]; intros s; cbn [fold_left];
    [reflexivity | now rewrite IH].
Qed.

Lemma stopped_calls s : calls (stopped s) = calls s.
Proof. unfold stopped. cbn [calls]. apply clear_all_calls. Qed.

Lemma bumps_activeTimers n s : activeTimers (bumps n s) = activeTimers s.
Proof. induction n as [| n IH]; [reflexivity | exact IH]. Qed.

(** X16. In the allow-list variant, in every state the process
    reaches, [/stoptimers] of an allowed sender empties the registry
    and leaves no timer live, whether or not its confirmation goes
    through; after it the firing of any timer does nothing. *)
Theorem gated_stop_clears env inputs env' m :
  let s := fst (GatedProcess.reactAll env initial inputs) in
  out m = false ->
  toLowerCase (hd [] (split 32 (text m))) = u "/stoptimers" ->
  Gated.includes Gated.allowedUserIds (sender m) = true ->
  let s' := fst (run (Gated.handler m) env' s) in
  activeTimers s' = [] /\ liveTimers s' = []
  /\ snd (run (Gated.handler m) env' s)
     = replyTrace env' (calls s) (sender m) stoppedText
  /\ (forall id env2, run (Gated.fireTimer id) env2 s' = (s', [])).
Proof.
  intros s Ho Hc Ha s'.
  assert (Hmir : mirrored s)
    by apply gated_reactAll_mirrored, mirrored_initial.
  assert (Hmir' : mirrored s').
  { subst s'. rewrite run_state. apply (mirrored_step s); [exact Hmir |].
    apply Timed_gated_handler. }
  assert (Hrun : run (Gated.handler m) env' s
                 = (bumps (replyCalls env' (calls s)) (stopped s),
                    replyTrace env' (calls s) (sender m) stoppedText)).
  { unfold run.
    rewrite (gated_handler_command m env' s (u "stoptimers") Ho Hc
               ltac:(discriminate) Ha).
    unfold Gated.dispatch. cbv zeta. eval_eqs. cbn [andb].
    rewrite !tryCatch_run, bind_run.
    change (stopTimers env' s) with (Returned tt, stopped s, @nil Event).
    cbv beta iota.
    destruct (replyOrThrow_exact (sender m) stoppedText env' (stopped s))
      as (res & ->).
    rewrite stopped_calls. destruct res; cbn; rewrite ?app_nil_r; reflexivity. }
  assert (Hact : activeTimers s' = []).
  { subst s'. rewrite Hrun. cbn [fst]. now rewrite bumps_activeTimers. }
  pose proof (mirrored_empty _ Hmir' Hact) as Hlive.
  split; [exact Hact |]. split; [exact Hlive |].
  split; [now rewrite Hrun |].
  intros id env2. unfold run, Gated.fireTimer. rewrite bind_run. cbn [get].
  cbv beta iota. now rewrite Hlive.
Qed.

(** After one [/autosend]. *)
Lemma gated_stop_clears_witness :
  liveTimers
    (fst (run (Gated.handler (mkMessage false (u "/stoptimers") 1016048363))
              quietEnv
              (fst (GatedProcess.reactAll quietEnv initial
                      [Bot.Inbound
                         (mkMessage false (u "/autosend @a|10m|Ping")
                                    1016048363)]))))
  = [].
Proof.
  apply (gated_stop_clears quietEnv
           [Bot.Inbound
              (mkMessage false (u "/autosend @a|10m|Ping") 1016048363)]
           quietEnv (mkMessage false (u "/stoptimers") 1016048363));
    reflexivity.
Defined.

(** ** Targets of the allow-list variant *)

Lemma trimStart_solid p :
  forallb (fun c => negb (isWhiteSpace c)) p = true -> trimStart p = p.
Proof.
  destruct p as [| c r]; [reflexivity |]. cbn [forallb].
  intros H. apply andb_true_iff in H as [H _].
  apply trimStart_fixed. now apply negb_true_iff.
Qed.

Lemma trim_solid p :
  forallb (fun c => negb (isWhiteSpace c)) p = true -> trim p = p.
Proof.
  intros H. unfold trim, trimEnd. rewrite (trimStart_solid p H).
  rewrite trimStart_solid; [apply rev_involutive |].
  apply forallb_forall. intros c Hc. apply in_rev in Hc.
  now apply (proj1 (forallb_forall _ _) H).
Qed.

Lemma gated_groups_solid x :
  targetsOf (filterTruthy (splitWs x)) = filterTruthy (splitWs x).
Proof.
  destruct (all_targets _ (gated_groups_targets x)) as [_ ->].
  rewrite <- (map_id (filterTruthy (splitWs x))) at 2.
  apply map_ext_in. intros p Hp. apply trim_solid.
  unfold filterTruthy in Hp. apply filter_In in Hp as [Hin _].
  pose proof (splitWs_pieces x false) as Hall.
  rewrite List.Forall_forall in Hall. now apply Hall.
Qed.

(** X17. In the allow-list variant, [/sendmulti <left>|<message>] of an
    allowed sender, with a single ['|'], attempts the trimmed message
    on every piece of the left side between runs of white space, once
    and in order, with the pacing delay between consecutive attempts,
    and then confirms with the number of pieces. *)
Theorem gated_sendmulti_is_paced env s who rest content :
  Gated.includes Gated.allowedUserIds who = true ->
  ~ In 124 rest -> ~ In 124 content -> content <> [] ->
  let m := mkMessage false
             (u "/sendmulti" ++ 32 :: rest ++ 124 :: content) who in
  let grps := filterTruthy (splitWs (trim rest)) in
  snd (run (Gated.handler m) env s)
  = paced (attempts env (calls s) (trim content) grps)
    ++ replyTrace env (calls s + List.length grps) who
                  (sentMultiText (List.length grps)).
Proof.
  intros Ha Hr Hc Hne m grps.
  assert (Hends : endsNonBlank grps = true)
    by apply (all_targets _ (gated_groups_targets (trim rest))).
  destruct (sendLoop_run (trim content) grps env s Hends)
    as (s1 & El & Hcalls & _).
  unfold grps in El at 2, Hcalls. rewrite gated_groups_solid in El, Hcalls.
  fold grps in El, Hcalls.
  assert (Hhd : hd [] (split 32 (text m)) = u "/sendmulti").
  { unfold m. cbn [text].
    now rewrite (split_app_sep 32 _ _ no_space_in_sendmulti). }
  assert (Hpipe : split 124 (text m)
                  = [u "/sendmulti" ++ 32 :: rest; content]).
  { unfold m. cbn [text].
    change (u "/sendmulti" ++ 32 :: rest ++ 124 :: content)
      with (u "/sendmulti" ++ (32 :: rest) ++ 124 :: content).
    rewrite app_assoc, split_app_sep, (split_none _ _ Hc); [reflexivity |].
    intros Hin. apply in_app_or in Hin as [Hin | [Hin | Hin]];
      [now apply no_pipe_in_sendmulti | discriminate | contradiction]. }
  unfold run.
  rewrite (gated_handler_command m env s (u "sendmulti") eq_refl
             ltac:(now rewrite Hhd) ltac:(discriminate) Ha).
  unfold Gated.dispatch. cbv zeta. rewrite Hpipe. eval_eqs.
  cbn [andb hd nth_error].
  destruct content as [| c r]; [congruence |].
  rewrite removeCommandPrefix_sendmulti, trim_trimStart. fold grps.
  cbn [sender m]. rewrite tryCatch_run, bind_run, El. cbv beta iota.
  rewrite reply_exact, Hcalls. reflexivity.
Qed.

(** Two targets separated by a tab. *)
Lemma gated_sendmulti_is_paced_witness :
  snd (run (Gated.handler
              (mkMessage false (u "/sendmulti @a" ++ 9 :: u "@b| Hi ")
                         1016048363)) quietEnv initial)
  = [Delivery (u "@a") (u "Hi") true; Sleep 5000;
     Delivery (u "@b") (u "Hi") true;
     Respond (sentMultiText 2) true].
Proof.
  apply (gated_sendmulti_is_paced quietEnv initial 1016048363
           (u "@a" ++ 9 :: u "@b") (u " Hi "));
    first [reflexivity | cbn; intuition discriminate].
Defined.

(** ** Jobs of the allow-list variant *)

Lemma bumps_liveTimers n s : liveTimers (bumps n s) = liveTimers s.
Proof. induction n as [| n IH]; [reflexivity | exact IH]. Qed.

Lemma gated_fire_run id tm env s :
  List.find (fun t => Nat.eqb (timerId t) id) (liveTimers s) = Some tm ->
  endsNonBlank (timerGroups tm) = true ->
  exists s',
    run (Gated.fireTimer id) env s
    = (s', paced (attempts env (calls s) (timerMessage tm)
                           (targetsOf (timerGroups tm))))
    /\ liveTimers s' = liveTimers s.
Proof.
  intros Hf He. unfold run, Gated.fireTimer. rewrite bind_run. cbn [get].
  cbv beta iota. rewrite Hf.
  destruct (sendLoop_run (timerMessage tm) (timerGroups tm) env s He)
    as (s' & -> & _ & _ & Hl & _).
  exists s'. cbn [app]. now split.
Qed.

(** X18. In the allow-list variant, in a state whose live timers are
    all registered, a well-formed [/autosend] of an allowed sender
    registers one job and confirms with the number of
    targets and the interval as it was typed; the delay of the job is
    the one the interval parser of src/bot.js computes for that
    interval.  Every firing of its timer attempts the trimmed message
    on each piece of the left side once and in order, with the pacing
    delay in between, and leaves the timers as they are. *)
Theorem gated_job_fires env s who rest itv msg info :
  registryOk s ->
  Gated.includes Gated.allowedUserIds who = true ->
  ~ In 124 rest -> ~ In 124 itv ->
  parseIntervalText (Some (trim itv)) = Some info ->
  filterTruthy (splitWs (trim rest)) <> [] ->
  trim msg <> [] ->
  let m := mkMessage false
             (u "/autosend" ++ 32 :: rest ++ 124 :: itv ++ 124 :: msg)
             who in
  let grps := filterTruthy (splitWs (trim rest)) in
  let s1 := fst (run (Gated.handler m) env s) in
  snd (run (Gated.handler m) env s)
  = replyTrace env (calls s) who (startedText (List.length grps) (trim itv))
  /\ liveTimers s1
     = liveTimers s ++ [{| timerId := nextTimer s; delay := intervalMs info;
                           timerGroups := grps; timerMessage := trim msg |}]
  /\ activeTimers s1 = activeTimers s ++ [nextTimer s]
  /\ (forall env' s2,
         liveTimers s2 = liveTimers s1 ->
         snd (run (Gated.fireTimer (nextTimer s)) env' s2)
         = paced (attempts env' (calls s2) (trim msg) grps)
         /\ liveTimers (fst (run (Gated.fireTimer (nextTimer s)) env' s2))
            = liveTimers s1).
Proof.
  intros Hok Ha Hr Hi Hinfo Hg Hm m grps s1.
  pose proof (gated_autosend_run env s who rest itv msg info Ha Hr Hi Hinfo
                Hg Hm) as Hrun.
  cbv zeta in Hrun. subst s1 m. rewrite Hrun. cbn [fst snd].
  rewrite bumps_liveTimers, bumps_activeTimers.
  cbn [pushed registered liveTimers activeTimers]. fold grps.
  split; [reflexivity |]. split; [reflexivity |]. split; [reflexivity |].
  intros env' s2 Hlive.
  set (tm := {| timerId := nextTimer s; delay := intervalMs info;
                timerGroups := grps; timerMessage := trim msg |}) in *.
  assert (Hf : List.find (fun t => Nat.eqb (timerId t) (nextTimer s))
                         (liveTimers s2) = Some tm).
  { rewrite Hlive. now apply find_fresh_timer. }
  assert (He : endsNonBlank (timerGroups tm) = true)
    by apply (all_targets _ (gated_groups_targets (trim rest))).
  destruct (gated_fire_run (nextTimer s) tm env' s2 Hf He)
    as (s' & -> & Hl).
  cbn [fst snd]. split; [| congruence].
  unfold tm. cbn [timerMessage timerGroups]. unfold grps.
  now rewrite gated_groups_solid.
Qed.

(** Two targets separated by a tab. *)
Lemma gated_job_fires_witness :
  snd (run (Gated.handler
              (mkMessage false
                 (u "/autosend @a" ++ 9 :: u "@b|10m|Ping") 1016048363))
           quietEnv initial)
  = [Respond (startedText 2 (u "10m")) true].
Proof.
  assert (E : exists info,
             parseIntervalText (Some (trim (u "10m"))) = Some info)
    by (eexists; reflexivity).
  destruct E as [info E].
  apply (gated_job_fires quietEnv initial 1016048363 (u "@a" ++ 9 :: u "@b")
           (u "10m") (u "Ping") info registryOk_initial);
    first [exact E | reflexivity | cbn; intuition discriminate].
Defined.

(** ** A bare slash *)

(** X19. A text whose first token is a bare slash is ignored by the
    allow-list variant, whoever sends it, and answered as an unknown
    command by src/bot.js. *)
Theorem bare_slash env s m :
  out m = false ->
  hd [] (split 32 (text m)) = u "/" ->
  run (Gated.handler m) env s = (s, [])
  /\ run (Bot.handler m) env s
     = (bump s, [Respond unknownText (isNone (failure env (calls s)))]).
Proof.
  intros Ho Hc.
  assert (Hl : toLowerCase (hd [] (split 32 (text m))) = u "/")
    by now rewrite Hc.
  pose proof (command_starts_with_slash _ _ Hl) as Hs.
  split.
  - unfold run, Gated.handler. rewrite tryCatch_run, Ho, Hs. cbv zeta.
    now rewrite Hl.
  - unfold run. rewrite (handler_command _ _ _ Ho Hs), tryCatch_run.
    unfold Bot.dispatch. cbv zeta. rewrite Hl. eval_eqs. cbn [andb].
    now rewrite respond_caught.
Qed.

(** An allowed sender sends a slash. *)
Lemma bare_slash_witness :
  run (Gated.handler (mkMessage false (u "/") 1016048363)) quietEnv initial
  = (initial, []).
Proof.
  apply (bare_slash quietEnv initial (mkMessage false (u "/") 1016048363));
    reflexivity.
Defined.

(** ** The terminal menu *)

Lemma readGroups_spec answers : forall groups gs rest,
  Console.readGroups groups answers = Some (gs, rest) ->
  (List.length rest < List.length answers)%nat
  /\ exists more, gs = groups ++ more
                  /\ Forall (fun g => truthy g = true) more.
Proof.
  induction answers as [| input answers IH]; intros groups gs rest;
    cbn [Console.readGroups]; [discriminate |].
  destruct (truthy (trim input)) eqn:E; cbn [negb].
  - intros H. destruct (IH _ _ _ H) as (Hlen & more & -> & Hmore).
    split; [cbn; lia |]. exists (trim input :: more).
    rewrite <- app_assoc. split; [reflexivity |]. now constructor.
  - intros [= <- <-]. split; [cbn; lia |]. exists [].
    now rewrite app_nil_r.
Qed.

Lemma readGroups_lines gs : forall groups b rest,
  forallb nonBlank gs = true -> nonBlank b = false ->
  Console.readGroups groups (gs ++ b :: rest)
  = Some (groups ++ List.map trim gs, rest).
Proof.
  induction gs as [| g gs IH]; intros groups b rest Hg Hb.
  - cbn. unfold nonBlank in Hb. rewrite Hb. cbn. now rewrite app_nil_r.
  - cbn [forallb] in Hg. apply andb_true_iff in Hg as [Hg Hgs].
    cbn [app Console.readGroups]. unfold nonBlank in Hg. rewrite Hg.
    cbn [negb]. rewrite (IH _ _ _ Hgs Hb). cbn [List.map].
    now rewrite <- app_assoc.
Qed.

(** What [autoMessageGroups] leaves unread is shorter than what it
    found. *)
Lemma autoMessageGroups_unread answers env s rest s' t :
  Console.autoMessageGroups answers env s = (Returned (Some rest), s', t) ->
  (List.length rest < List.length answers)%nat.
Proof.
  unfold Console.autoMessageGroups.
  destruct (Console.readGroups [] answers) as [[gs rest0] |] eqn:E;
    [| discriminate].
  apply readGroups_spec in E as [Hlen _].
  destruct (List.length gs =? 0)%nat.
  - intros [= <- _ _]. exact Hlen.
  - destruct rest0 as [| message rest']; [discriminate |].
    destruct (negb (truthy (trim message))).
    + intros [= <- _ _]. cbn in Hlen. lia.
    + rewrite bind_run.
      destruct (tickLoop_run message gs env s) as (s1 & -> & _).
      cbv beta iota. intros [= <- _ _]. cbn in Hlen. lia.
Qed.

Lemma autoMessageGroups_returns answers env s :
  exists r s' t, Console.autoMessageGroups answers env s = (Returned r, s', t).
Proof.
  unfold Console.autoMessageGroups.
  destruct (Console.readGroups [] answers) as [[gs rest0] |];
    [| now eauto].
  destruct (List.length gs =? 0)%nat; [now eauto |].
  destruct rest0 as [| message rest']; [now eauto |].
  destruct (negb (truthy (trim message))); [now eauto |].
  rewrite bind_run.
  destruct (tickLoop_run message gs env s) as (s1 & -> & _).
  cbv beta iota. eauto.
Qed.

(** With a turn per line and one more, the menu does not depend on the
    number of turns. *)
Lemma menu_fuel fuel1 : forall fuel2 answers env s,
  (List.length answers < fuel1)%nat -> (List.length answers < fuel2)%nat ->
  Console.menu fuel1 answers env s = Console.menu fuel2 answers env s.
Proof.
  induction fuel1 as [| f1 IH]; intros fuel2 answers env s H1 H2; [lia |].
  destruct fuel2 as [| f2]; [lia |].
  destruct answers as [| choice rest]; [reflexivity |].
  cbn [List.length] in H1, H2. cbn [Console.menu]. cbv zeta.
  destruct (eqs (trim choice) (u "1")).
  - rewrite !bind_run.
    destruct (Console.autoMessageGroups rest env s) as [[[r | e] s1] t1] eqn:E;
      [| reflexivity].
    destruct r as [rest' |]; [| reflexivity].
    apply autoMessageGroups_unread in E.
    rewrite (IH f2 rest' env s1); [reflexivity | lia | lia].
  - destruct (eqs (trim choice) (u "2")).
    + destruct rest as [| group [| message rest']]; try reflexivity.
      cbn [List.length] in H1, H2. rewrite !bind_run.
      destruct ((if truthy (trim group) && truthy (trim message)
                 then Console.sendSingleMessage (trim group) (trim message)
                 else mret ()) env s) as [[[[] | e] s1] t1]; [| reflexivity].
      rewrite (IH f2 rest' env s1); [reflexivity | lia | lia].
    + destruct (eqs (trim choice) (u "3")); [reflexivity |].
      apply IH; lia.
Qed.

Lemma menu_returns fuel : forall answers env s,
  (List.length answers < fuel)%nat ->
  exists e s' t,
    Console.menu fuel answers env s = (Returned (Some e), s', t).
Proof.
  induction fuel as [| f IH]; intros answers env s H; [lia |].
  destruct answers as [| choice rest]; [cbn; eauto |].
  cbn [List.length] in H. cbn [Console.menu]. cbv zeta.
  destruct (eqs (trim choice) (u "1")).
  - rewrite bind_run.
    destruct (autoMessageGroups_returns rest env s) as (r & s1 & t1 & E).
    rewrite E. destruct r as [rest' |]; [| cbn; eauto].
    apply autoMessageGroups_unread in E.
    destruct (IH rest' env s1) as (e & s' & t & ->); [lia |]. eauto.
  - destruct (eqs (trim choice) (u "2")).
    + destruct rest as [| group [| message rest']]; try (cbn; now eauto).
      cbn [List.length] in H. rewrite bind_run.
      assert (Hpre : exists s1 t1,
        (if truthy (trim group) && truthy (trim message)
         then Console.sendSingleMessage (trim group) (trim message)
         else mret ()) env s = (Returned tt, s1, t1)).
      { destruct (truthy (trim group) && truthy (trim message));
          cbn; eauto. }
      destruct Hpre as (s1 & t1 & ->).
      destruct (IH rest' env s1) as (e & s' & t & ->); [lia |]. eauto.
    + destruct (eqs (trim choice) (u "3")); [cbn; eauto |].
      apply IH. lia.
Qed.

(** X20. Option 1 of the terminal menu: after the lines with the
    groups, a blank line and a message, each group, trimmed, is
    attempted once and in order with the message as it was typed, with
    the pacing delay between consecutive attempts; the lines that
    follow stay unread, and neither the timers nor the wizard table
    change. *)
Theorem autoMessageGroups_broadcast env s gs b msg rest :
  gs <> [] -> forallb nonBlank gs = true ->
  nonBlank b = false -> nonBlank msg = true ->
  exists s',
    Console.autoMessageGroups (gs ++ b :: msg :: rest) env s
    = (Returned (Some rest), s',
       paced (attempts env (calls s) msg (List.map trim gs)))
    /\ sameTimers s s' /\ autosendStates s' = autosendStates s.
Proof.
  intros Hne Hg Hb Hm. unfold Console.autoMessageGroups.
  rewrite (readGroups_lines gs [] b (msg :: rest) Hg Hb). cbn [app].
  rewrite length_map.
  destruct gs as [| g gs']; [congruence |]. cbn [List.length Nat.eqb].
  unfold nonBlank in Hm. rewrite Hm. cbn [negb]. rewrite bind_run.
  destruct (tickLoop_run msg (List.map trim (g :: gs')) env s)
    as (s' & -> & Ha & Hl & Hn & Hw).
  exists s'. cbv beta iota. cbn [mret M_ret]. rewrite app_nil_r.
  repeat split; assumption.
Qed.

(** Two groups and a message with spaces around it. *)
Lemma autoMessageGroups_broadcast_witness :
  exists s',
    Console.autoMessageGroups [u " @a "; u "@b"; u ""; u " Hi "; u "3"]
                              quietEnv initial
    = (Returned (Some [u "3"]), s',
       [Delivery (u "@a") (u " Hi ") true; Sleep 5000;
        Delivery (u "@b") (u " Hi ") true])
    /\ sameTimers initial s' /\ autosendStates s' = autosendStates initial.
Proof.
  apply (autoMessageGroups_broadcast quietEnv initial [u " @a "; u "@b"]
           (u "") (u " Hi ") [u "3"]);
    [discriminate | reflexivity | reflexivity | reflexivity].
Defined.

(** X21. Option 1 of the terminal menu sends nothing when no group is
    entered, in which case the message is not asked for and the next
    line stays unread, and when the message is blank. *)
Theorem autoMessageGroups_nothing env s :
  (forall b rest,
      nonBlank b = false ->
      Console.autoMessageGroups (b :: rest) env s
      = (Returned (Some rest), s, []))
  /\ (forall gs b msg rest,
         gs <> [] -> forallb nonBlank gs = true ->
         nonBlank b = false -> nonBlank msg = false ->
         Console.autoMessageGroups (gs ++ b :: msg :: rest) env s
         = (Returned (Some rest), s, [])).
Proof.
  split.
  - intros b rest Hb. unfold Console.autoMessageGroups.
    pose proof (readGroups_lines [] [] b rest eq_refl Hb) as H.
    cbn [app List.map] in H. now rewrite H.
  - intros gs b msg rest Hne Hg Hb Hm. unfold Console.autoMessageGroups.
    rewrite (readGroups_lines gs [] b (msg :: rest) Hg Hb). cbn [app].
    rewrite length_map.
    destruct gs as [| g gs']; [congruence |]. cbn [List.length Nat.eqb].
    unfold nonBlank in Hm. now rewrite Hm.
Qed.

(** No group; a group and a blank message. *)
Lemma autoMessageGroups_nothing_witness :
  Console.autoMessageGroups [u "  "; u "Hi"; u "3"] quietEnv initial
  = (Returned (Some [u "Hi"; u "3"]), initial, [])
  /\ Console.autoMessageGroups [u "@a"; u ""; u " "; u "3"] quietEnv initial
     = (Returned (Some [u "3"]), initial, []).
Proof.
  destruct (autoMessageGroups_nothing quietEnv initial) as [H1 H2].
  split.
  - apply (H1 (u "  ") [u "Hi"; u "3"]). reflexivity.
  - apply (H2 [u "@a"] (u "") (u " ") [u "3"]);
      [discriminate | reflexivity | reflexivity | reflexivity].
Defined.

Lemma menu_turn fuel choice rest :
  Console.menu (S fuel) (choice :: rest)
  = if eqs (trim choice) (u "1") then
      r ← Console.autoMessageGroups rest;
      match r with
      | Some rest' => Console.menu fuel rest'
      | None => mret (Some Console.Waiting)
      end
    else if eqs (trim choice) (u "2") then
      match rest with
      | group :: message :: rest' =>
          (if truthy (trim group) && truthy (trim message)
           then Console.sendSingleMessage (trim group) (trim message)
           else mret tt);;
          Console.menu fuel rest'
      | _ => mret (Some Console.Waiting)
      end
    else if eqs (trim choice) (u "3")
         then mret (Some (Console.Exited rest))
         else Console.menu fuel rest.
Proof. reflexivity. Qed.

(** X22. Option 2 of the terminal menu: the message, trimmed, is
    attempted once on the group, trimmed, when neither is blank, and
    nothing is sent otherwise; either way the menu goes on with the
    lines that follow. *)
Theorem menu_single_send env s c g msg rest :
  trim c = u "2" ->
  Console.mainLoop (c :: g :: msg :: rest) env s
  = if nonBlank g && nonBlank msg
    then let '(r, s', t) := Console.mainLoop rest env (bump s) in
         (r, s',
          Delivery (trim g) (trim msg) (isNone (failure env (calls s))) :: t)
    else Console.mainLoop rest env s.
Proof.
  intros Hc. unfold Console.mainLoop at 1. cbn [List.length].
  rewrite menu_turn, Hc. eval_eqs. cbv beta iota. rewrite bind_run.
  unfold nonBlank, Console.mainLoop.
  destruct (truthy (trim g) && truthy (trim msg)).
  - unfold Console.sendSingleMessage.
    rewrite bind_run, sendMessageToGroup_run. cbv beta iota.
    cbn [mret M_ret]. cbv beta iota.
    rewrite (menu_fuel _ (S (List.length rest)) rest env (bump s));
      [| lia | lia].
    now destruct (Console.menu (S (List.length rest)) rest env (bump s))
      as [[r s'] t].
  - cbn [mret M_ret]. cbv beta iota.
    rewrite (menu_fuel _ (S (List.length rest)) rest env s); [| lia | lia].
    now destruct (Console.menu (S (List.length rest)) rest env s)
      as [[r s'] t].
Qed.

(** Option 2, then option 3. *)
Lemma menu_single_send_witness :
  Console.mainLoop [u "2"; u " @g "; u " Hi "; u "3"] quietEnv initial
  = (Returned (Some (Console.Exited [])), bump initial,
     [Delivery (u "@g") (u "Hi") true]).
Proof.
  apply (menu_single_send quietEnv initial (u "2") (u " @g ") (u " Hi ")
           [u "3"]).
  reflexivity.
Defined.

(** X23. The terminal menu ends on every list of lines: it exits or it
    waits at a prompt, and the turns it is given are enough.  Option 3
    exits at once and leaves the lines after it unread; a choice that
    is none of 1, 2 and 3 is skipped. *)
Theorem menu_ends env s answers :
  (exists e s' t,
      Console.mainLoop answers env s = (Returned (Some e), s', t))
  /\ (forall c rest,
         trim c = u "3" ->
         Console.mainLoop (c :: rest) env s
         = (Returned (Some (Console.Exited rest)), s, []))
  /\ (forall c rest,
         trim c <> u "1" -> trim c <> u "2" -> trim c <> u "3" ->
         Console.mainLoop (c :: rest) env s = Console.mainLoop rest env s).
Proof.
  split; [| split].
  - apply menu_returns. lia.
  - intros c rest Hc. unfold Console.mainLoop. cbn [List.length].
    rewrite menu_turn, Hc. eval_eqs. reflexivity.
  - intros c rest H1 H2 H3. unfold Console.mainLoop. cbn [List.length].
    rewrite menu_turn. unfold eqs.
    rewrite !(proj2 (bool_decide_eq_false _)) by assumption.
    apply menu_fuel; lia.
Qed.

(** Option 3 with spaces around it; a choice that is none. *)
Lemma menu_ends_witness :
  Console.mainLoop [u " 3 "; u "1"] quietEnv initial
  = (Returned (Some (Console.Exited [u "1"])), initial, [])
  /\ Console.mainLoop [u "9"; u "3"] quietEnv initial
     = Console.mainLoop [u "3"] quietEnv initial.
Proof.
  destruct (menu_ends quietEnv initial []) as (_ & H3 & Hskip).
  split.
  - apply (H3 (u " 3 ") [u "1"]). reflexivity.
  - apply (Hskip (u "9") [u "3"]); discriminate.
Defined.

Lemma Quiet_autoMessageGroups answers :
  Quiet (Console.autoMessageGroups answers).
Proof. unfold Console.autoMessageGroups. quiet. Qed.

Lemma KeepsTable_autoMessageGroups answers :
  KeepsTable (Console.autoMessageGroups answers).
Proof.
  unfold Console.autoMessageGroups.
  repeat first
    [ apply KeepsTable_ret | apply KeepsTable_tickLoop
    | apply KeepsTable_bind; [| intros ?]
    | match goal with
      | |- KeepsTable (if ?b then _ else _) => destruct b
      | |- KeepsTable (match ?x with _ => _ end) => destruct x
      end ].
Qed.

Lemma Quiet_menu fuel : forall answers, Quiet (Console.menu fuel answers).
Proof.
  induction fuel as [| f IH]; intros answers; cbn [Console.menu];
    [apply Quiet_ret |].
  destruct answers as [| choice rest]; [apply Quiet_ret |]. cbv zeta.
  destruct (eqs _ (u "1")).
  - apply Quiet_bind; [apply Quiet_autoMessageGroups | intros [r |]];
      [apply IH | apply Quiet_ret].
  - destruct (eqs _ (u "2")).
    + destruct rest as [| group [| message rest']]; try apply Quiet_ret.
      apply Quiet_bind; [| intros _; apply IH].
      unfold Console.sendSingleMessage. quiet.
    + destruct (eqs _ (u "3")); [apply Quiet_ret | apply IH].
Qed.

Lemma KeepsTable_menu fuel : forall answers,
  KeepsTable (Console.menu fuel answers).
Proof.
  induction fuel as [| f IH]; intros answers; cbn [Console.menu];
    [apply KeepsTable_ret |].
  destruct answers as [| choice rest]; [apply KeepsTable_ret |]. cbv zeta.
  destruct (eqs _ (u "1")).
  - apply KeepsTable_bind; [apply KeepsTable_autoMessageGroups |
                            intros [r |]];
      [apply IH | apply KeepsTable_ret].
  - destruct (eqs _ (u "2")).
    + destruct rest as [| group [| message rest']]; try apply KeepsTable_ret.
      apply KeepsTable_bind; [| intros _; apply IH].
      unfold Console.sendSingleMessage. keeps.
    + destruct (eqs _ (u "3")); [apply KeepsTable_ret | apply IH].
Qed.

(** X24. Whatever is typed at the terminal menu, the timers and the
    wizard table stay as they are. *)
Theorem menu_leaves_jobs_alone env s answers :
  let s' := stateOf (Console.mainLoop answers env s) in
  sameTimers s s' /\ autosendStates s' = autosendStates s.
Proof.
  intros s'. split; [apply Quiet_menu | apply KeepsTable_menu].
Qed.

(** ** Start-up *)

(** X25. Start-up of a headless process: the handler is installed
    exactly when there is a session string and both the connection and
    the account query succeed; otherwise the process exits with code
    1, before any collaborator call when the session string is
    missing.  The operator is never prompted and the session is never
    written. *)
Theorem headless_start failure sessionString code :
  let '(outcome, acts) := Startup.main failure true sessionString code in
  (outcome = Startup.Serving
   <-> sessionString <> [] /\ failure 0%nat = None /\ failure 1%nat = None)
  /\ (outcome <> Startup.Serving -> outcome = Startup.Stopped 1)
  /\ (sessionString = [] -> acts = [])
  /\ forallb (fun a => negb (Startup.isPrompt a || Startup.isSave a)) acts
     = true.
Proof.
  unfold Startup.main, Startup.startBot, Startup.seq, Startup.attempt,
    Startup.await, Startup.finish.
  destruct sessionString as [| c r]; cbn.
  - repeat split; try congruence. intros (H & _). congruence.
  - destruct (failure 0%nat) as [e0 |]; cbn.
    + repeat split; try congruence; intros (_ & H & _); congruence.
    + destruct (failure 1%nat) as [e1 |]; cbn;
        repeat split; try congruence; intros (_ & _ & H); congruence.
Qed.

(** With a session string and without. *)
Lemma headless_start_witness :
  fst (Startup.main (fun _ => None) true (u "1BVtsOK") None)
  = Startup.Serving
  /\ Startup.main (fun _ => None) true [] None = (Startup.Stopped 1, []).
Proof.
  split.
  - pose proof (headless_start (fun _ => None) (u "1BVtsOK") None) as H.
    destruct (Startup.main (fun _ => None) true (u "1BVtsOK") None)
      as [outcome acts].
    destruct H as (H & _). apply H.
    split; [discriminate | split; reflexivity].
  - pose proof (headless_start (fun _ => None) [] None) as H.
    destruct (Startup.main (fun _ => None) true [] None) as [outcome acts].
    destruct H as (Hiff & Hstop & Hacts & _).
    rewrite (Hacts eq_refl), Hstop; [reflexivity |].
    intros Hs. apply Hiff in Hs as [Hs _]. now apply Hs.
Defined.

Ltac split_calls :=
  repeat match goal with
         | |- context [match ?f ?k with _ => _ end] =>
             match type of (f k) with
             | option jsstring => destruct (f k) eqn:?; cbn
             end
         | |- context [isNone (?f ?k)] =>
             destruct (f k) eqn:?; cbn
         end.

(** X26. Start-up of an interactive process: the handler is installed
    only right after the session was saved, the account having been
    identified by the account query or by the sign-in; otherwise the
    process exits with code 0 or waits for the verification code.
    When the connection, the account query and the saving succeed no
    code is requested; when the saving fails after the account query
    succeeded, a code is requested all the same. *)
Theorem interactive_start failure sessionString code :
  let '(outcome, acts) := Startup.main failure false sessionString code in
  (outcome = Startup.Serving ->
   List.last acts Startup.AskCode = Startup.SaveSession true
   /\ existsb Startup.isLogin acts = true)
  /\ (outcome = Startup.Serving \/ outcome = Startup.Stopped 0
      \/ outcome = Startup.Waiting)
  /\ (failure 0%nat = None -> failure 1%nat = None ->
      failure 2%nat = None ->
      outcome = Startup.Serving
      /\ acts = [Startup.Connect true; Startup.WhoAmI true;
                 Startup.SaveSession true])
  /\ (failure 0%nat = None -> failure 1%nat = None ->
      failure 2%nat <> None ->
      firstn 4 acts
      = [Startup.Connect true; Startup.WhoAmI true;
         Startup.SaveSession false;
         Startup.SendCode (isNone (failure 3%nat))])
  /\ (code = None -> outcome <> Startup.Serving
      \/ existsb Startup.isPrompt acts = false).
Proof.
  unfold Startup.main, Startup.startBot, Startup.seq, Startup.attempt,
    Startup.await, Startup.finish.
  destruct code as [c |]; cbn; split_calls;
    repeat split; try congruence; try discriminate; auto;
    try (intros; congruence).
Qed.

(** Nothing fails. *)
Lemma interactive_start_witness :
  Startup.main (fun _ => None) false [] None
  = (Startup.Serving,
     [Startup.Connect true; Startup.WhoAmI true; Startup.SaveSession true]).
Proof.
  pose proof (interactive_start (fun _ => None) [] None) as H.
  destruct (Startup.main (fun _ => None) false [] None) as [outcome acts].
  destruct H as (_ & _ & H & _).
  destruct (H eq_refl eq_refl eq_refl) as [-> ->]. reflexivity.
Defined.
